(** * Uptime monitor: a shallow embedding and its verified properties

    The repository holds three revisions of one Node.js script:
    - [src/monitor.mjs]       (module [Monitor]): change gate [hasChanges];
    - [src/unnamed/part_001]  (module [Part001]): change gate [detectChanges];
    - [src/unnamed/part_002]  (module [Part002]): change gate
      [getChangedServices], state file location taken from the environment.
    [notify], [checkOnce], [checkWithRetries], [fmt] and [loadPreviousState]
    are textually the same in the three files and are embedded once.

    Modelling conventions.
    - A JavaScript string is the list of its UTF-16 code units ([list N]).
    - A value produced by [JSON.parse] is a [json] tree whose objects keep
      the members in the order of the text.  The object [main] builds from
      the outcomes is a list of its own properties in property order
      ([State]); a prior state taken in the abstract is a [gmap].
    - A property read sees the own properties of a value and then the
      string-keyed properties of its prototype chain; the built-in prototypes
      are those of ECMAScript 2024 with Annex B, which the script never
      changes.
    - Effects (network, timers, file system, console, clock) are threaded
      through a state-and-exception monad over a [World]; the world records
      a trace of the effects performed.
    - Delays are integral milliseconds, so [Math.round] is the identity.
    - [Promise.all] over the targets is run target after target: the probes
      of one target end before those of the next begin.  The time the
      probing phase takes is then the sum of the probes' times, where Node's
      is that of the slowest target, and two targets that share a URL get
      its replies in the order of the targets; the properties are stated so
      as to hold under either schedule (times and time stamps are those of
      the world the probing phase leaves, GETs are counted up to their
      order).
    - The file system is seen through the state file alone, with POSIX
      paths.  A write fails on opening the file, which leaves the file as it
      was, or after the file was truncated, which leaves the part of the text
      written so far.
    - [String.prototype.toLowerCase] is a function the world provides; no
      property depends on which one it is.
    - A timer delay below 1 or above 2^31-1 is replaced by 1, as Node does.
    - [notify] records its own call in the trace, so that a delivery attempt
      can be told from no attempt when no webhook is configured. *)

From Stdlib Require Import ZArith NArith Lia Ascii String.
From stdpp Require Import base tactics option list gmap pretty.

Set Warnings "-register-all".

Local Open Scope N_scope.

(** ** Strings *)

(** A literal: one code unit per character of an ASCII Rocq string. *)
Definition js (s : string) : list N :=
  (λ a, N_of_ascii a) <$> list_ascii_of_string s.

Fixpoint starts_with (p s : list N) : bool :=
  match p, s with
  | [], _ => true
  | _ :: _, [] => false
  | a :: p', b :: s' => (a =? b) && starts_with p' s'
  end.

(** [String.prototype.includes]. *)
Fixpoint includes (s p : list N) : bool :=
  starts_with p s ||
  match s with
  | [] => false
  | _ :: s' => includes s' p
  end.

(** Rendering of a number inside a template literal. *)
Definition num_to_js (z : Z) : list N := js (pretty z).

(** ** JSON values and [JSON.parse] *)

Inductive json : Type :=
  | JNull
  | JBool (b : bool)
  | JNum (lexeme : list N)
  | JStr (s : list N)
  | JArr (items : list json)
  | JObj (members : list (list N * json)).

Definition is_ws (c : N) : bool :=
  (c =? 32) || (c =? 9) || (c =? 10) || (c =? 13).

Fixpoint skip_ws (s : list N) : list N :=
  match s with
  | c :: r => if is_ws c then skip_ws r else s
  | [] => []
  end.

Definition is_digit (c : N) : bool := (48 <=? c) && (c <=? 57).

Definition hex_value (c : N) : option N :=
  if is_digit c then Some (c - 48)
  else if (97 <=? c) && (c <=? 102) then Some (c - 87)
  else if (65 <=? c) && (c <=? 70) then Some (c - 55)
  else None.

(** The single-character escapes of the JSON grammar. *)
Definition unescape (e : N) : option N :=
  if e =? 34 then Some 34          (* quotation mark *)
  else if e =? 92 then Some 92     (* reverse solidus *)
  else if e =? 47 then Some 47     (* solidus *)
  else if e =? 98 then Some 8      (* b: backspace *)
  else if e =? 102 then Some 12    (* f: form feed *)
  else if e =? 110 then Some 10    (* n: line feed *)
  else if e =? 114 then Some 13    (* r: carriage return *)
  else if e =? 116 then Some 9     (* t: tab *)
  else None.

(** The characters of a string literal, after its opening quote, up to and
    including the closing quote. *)
Fixpoint parse_chars (s : list N) : option (list N * list N) :=
  match s with
  | [] => None
  | c :: r =>
      if c =? 34 then Some ([], r)
      else if c =? 92 then
        match r with
        | [] => None
        | e :: r1 =>
            if e =? 117 then
              match r1 with
              | h1 :: h2 :: h3 :: h4 :: r2 =>
                  match hex_value h1, hex_value h2, hex_value h3, hex_value h4 with
                  | Some a, Some b, Some c', Some d =>
                      match parse_chars r2 with
                      | Some (cs, rest) =>
                          Some ((4096 * a + 256 * b + 16 * c' + d) :: cs, rest)
                      | None => None
                      end
                  | _, _, _, _ => None
                  end
              | _ => None
              end
            else
              match unescape e with
              | Some u =>
                  match parse_chars r1 with
                  | Some (cs, rest) => Some (u :: cs, rest)
                  | None => None
                  end
              | None => None
              end
        end
      else if c <? 32 then None
      else
        match parse_chars r with
        | Some (cs, rest) => Some (c :: cs, rest)
        | None => None
        end
  end.

(** A maximal run of decimal digits. *)
Fixpoint span_digits (s : list N) : list N * list N :=
  match s with
  | c :: r =>
      if is_digit c then let '(ds, rest) := span_digits r in (c :: ds, rest)
      else ([], s)
  | [] => ([], [])
  end.

(** A JSON number: an optional minus sign, an integer part without leading
    zero, an optional fraction and an optional exponent.  The lexeme is
    kept, the numeric value is not computed. *)
Definition parse_number (s : list N) : option (list N * list N) :=
  let '(sign, s1) :=
    match s with
    | c :: r => if c =? 45 then ([45], r) else ([], s)
    | [] => ([], s)
    end in
  let '(int, s2) := span_digits s1 in
  match int with
  | [] => None
  | d :: ds =>
      if (d =? 48) && negb (bool_decide (ds = [])) then None
      else
        let frac :=
          match s2 with
          | c :: r =>
              if c =? 46 then
                let '(fs, s3) := span_digits r in
                match fs with
                | [] => None
                | _ => Some (46 :: fs, s3)
                end
              else Some ([], s2)
          | [] => Some ([], s2)
          end in
        match frac with
        | None => None
        | Some (fr, s3) =>
            let exp :=
              match s3 with
              | c :: r =>
                  if (c =? 101) || (c =? 69) then
                    let '(sg, r1) :=
                      match r with
                      | g :: r' =>
                          if (g =? 43) || (g =? 45) then ([g], r') else ([], r)
                      | [] => ([], r)
                      end in
                    let '(es, s4) := span_digits r1 in
                    match es with
                    | [] => None
                    | _ => Some (c :: sg ++ es, s4)
                    end
                  else Some ([], s3)
              | [] => Some ([], s3)
              end in
            match exp with
            | None => None
            | Some (ex, s4) => Some (sign ++ int ++ fr ++ ex, s4)
            end
        end
  end.

Definition strip_prefix (p s : list N) : option (list N) :=
  if starts_with p s then Some (drop (length p) s) else None.

(** Recursive descent over the JSON grammar.  The fuel bounds the nesting of
    the calls; [JSON_parse] starts with more fuel than the text has
    characters. *)
Fixpoint parse_value (fuel : nat) (s : list N) : option (json * list N) :=
  match fuel with
  | O => None
  | S f =>
      match skip_ws s with
      | [] => None
      | c :: r =>
          if c =? 123 then
            match skip_ws r with
            | c' :: r' =>
                if c' =? 125 then Some (JObj [], r')
                else
                  match parse_members f r with
                  | Some (ms, rest) => Some (JObj ms, rest)
                  | None => None
                  end
            | [] => None
            end
          else if c =? 91 then
            match skip_ws r with
            | c' :: r' =>
                if c' =? 93 then Some (JArr [], r')
                else
                  match parse_elements f r with
                  | Some (vs, rest) => Some (JArr vs, rest)
                  | None => None
                  end
            | [] => None
            end
          else if c =? 34 then
            match parse_chars r with
            | Some (cs, rest) => Some (JStr cs, rest)
            | None => None
            end
          else if c =? 116 then
            match strip_prefix (js "rue") r with
            | Some rest => Some (JBool true, rest)
            | None => None
            end
          else if c =? 102 then
            match strip_prefix (js "alse") r with
            | Some rest => Some (JBool false, rest)
            | None => None
            end
          else if c =? 110 then
            match strip_prefix (js "ull") r with
            | Some rest => Some (JNull, rest)
            | None => None
            end
          else
            match parse_number (c :: r) with
            | Some (lx, rest) => Some (JNum lx, rest)
            | None => None
            end
      end
  end
with parse_members (fuel : nat) (s : list N)
    : option (list (list N * json) * list N) :=
  match fuel with
  | O => None
  | S f =>
      match skip_ws s with
      | c :: r =>
          if c =? 34 then
            match parse_chars r with
            | Some (k, r1) =>
                match skip_ws r1 with
                | c1 :: r2 =>
                    if c1 =? 58 then
                      match parse_value f r2 with
                      | Some (v, r3) =>
                          match skip_ws r3 with
                          | c3 :: r4 =>
                              if c3 =? 125 then Some ([(k, v)], r4)
                              else if c3 =? 44 then
                                match parse_members f r4 with
                                | Some (ms, rest) => Some ((k, v) :: ms, rest)
                                | None => None
                                end
                              else None
                          | [] => None
                          end
                      | None => None
                      end
                    else None
                | [] => None
                end
            | None => None
            end
          else None
      | [] => None
      end
  end
with parse_elements (fuel : nat) (s : list N) : option (list json * list N) :=
  match fuel with
  | O => None
  | S f =>
      match parse_value f s with
      | Some (v, r1) =>
          match skip_ws r1 with
          | c :: r2 =>
              if c =? 93 then Some ([v], r2)
              else if c =? 44 then
                match parse_elements f r2 with
                | Some (vs, rest) => Some (v :: vs, rest)
                | None => None
                end
              else None
          | [] => None
          end
      | None => None
      end
  end.

(** [JSON.parse]: [None] stands for the [SyntaxError] it throws. *)
Definition JSON_parse (text : list N) : option json :=
  match parse_value (S (length text)) text with
  | Some (v, rest) =>
      match skip_ws rest with
      | [] => Some v
      | _ :: _ => None
      end
  | None => None
  end.

(** ** [JSON.stringify] *)

Definition hex_digit (n : N) : N := if n <? 10 then 48 + n else 87 + n.

(** [UnicodeEscape]: a reverse solidus, [u] and four lowercase hex digits. *)
Definition unicode_escape (c : N) : list N :=
  [92; 117; hex_digit (c / 4096 mod 16); hex_digit (c / 256 mod 16);
   hex_digit (c / 16 mod 16); hex_digit (c mod 16)].

Definition is_high_surrogate (c : N) : bool := (55296 <=? c) && (c <=? 56319).
Definition is_low_surrogate (c : N) : bool := (56320 <=? c) && (c <=? 57343).

Definition quote_unit (c : N) : list N :=
  if c =? 8 then [92; 98]
  else if c =? 9 then [92; 116]
  else if c =? 10 then [92; 110]
  else if c =? 12 then [92; 102]
  else if c =? 13 then [92; 114]
  else if c =? 34 then [92; 34]
  else if c =? 92 then [92; 92]
  else if c <? 32 then unicode_escape c
  else [c].

(** The body of [QuoteJSONString]: a surrogate pair is copied, a lone
    surrogate is escaped. *)
Fixpoint quote_units (s : list N) : list N :=
  match s with
  | [] => []
  | c :: r =>
      if is_high_surrogate c then
        match r with
        | d :: r' =>
            if is_low_surrogate d then c :: d :: quote_units r'
            else unicode_escape c ++ quote_units r
        | [] => unicode_escape c
        end
      else if is_low_surrogate c then unicode_escape c ++ quote_units r
      else quote_unit c ++ quote_units r
  end.

Definition quote (s : list N) : list N := 34 :: quote_units s ++ [34].

Fixpoint join_with (sep : list N) (parts : list (list N)) : list N :=
  match parts with
  | [] => []
  | [p] => p
  | p :: ps => p ++ sep ++ join_with sep ps
  end.

Definition bool_to_js (b : bool) : list N := if b then js "true" else js "false".

Definition stringify_member (kb : list N * bool) : list N :=
  js "  " ++ quote kb.1 ++ js ": " ++ bool_to_js kb.2.

(** A plain object whose own properties hold booleans: the properties in
    property order, which is the order [JSON.stringify] lists them in. *)
Abbreviation State := (list (list N * bool)).

(** [JSON.stringify(state, null, 2)] for such an object. *)
Definition JSON_stringify_state (state : State) : list N :=
  match state with
  | [] => js "{}"
  | kvs => js "{" ++ [10] ++ join_with [44; 10] (stringify_member <$> kvs)
           ++ [10] ++ js "}"
  end.

(** [JSON.stringify({ content: message })]. *)
Definition JSON_stringify_content (message : list N) : list N :=
  js "{" ++ quote (js "content") ++ js ":" ++ quote message ++ js "}".

(** The JSON value a dictionary of booleans denotes, and the one the text
    of a [State] denotes. *)
Definition obj (state : gmap (list N) bool) : json :=
  JObj ((λ kb : list N * bool, (kb.1, JBool kb.2)) <$> map_to_list state).

Definition state_json (state : State) : json :=
  JObj ((λ kb : list N * bool, (kb.1, JBool kb.2)) <$> state).

(** ** Property access and exceptions *)

Record JSError : Type := mkError { err_name : list N; err_message : list N }.

(** [String(err)] for an [Error] object. *)
Definition String_of_error (e : JSError) : list N :=
  match err_name e, err_message e with
  | [], m => m
  | n, [] => n
  | n, m => n ++ js ": " ++ m
  end.

Inductive Result (A : Type) : Type :=
  | Ok (a : A)
  | Throw (e : JSError).
Arguments Ok {A} a.
Arguments Throw {A} e.

(** The member a key denotes: the last one of that name wins. *)
Fixpoint member_lookup (k : list N) (ms : list (list N * json)) : option json :=
  match ms with
  | [] => None
  | (k', v) :: r =>
      match member_lookup k r with
      | Some v' => Some v'
      | None => if decide (k' = k) then Some v else None
      end
  end.

(** The element an array-index key denotes, counting from [i]. *)
Fixpoint index_from {A} (i : nat) (k : list N) (l : list A) : option A :=
  match l with
  | [] => None
  | a :: r =>
      if decide (num_to_js (Z.of_nat i) = k) then Some a
      else index_from (S i) k r
  end.

Definition index_of_key {A} (k : list N) (l : list A) : option A :=
  index_from 0 k l.

Definition TypeError (message : list N) : JSError :=
  mkError (js "TypeError") message.

(** What a property read evaluates to: data that came out of [JSON.parse],
    or something built in (a function or a prototype object) that the value
    inherits under that key. *)
Inductive Value : Type :=
  | Data (v : json)
  | Builtin (key : list N).

Coercion Data : json >-> Value.

(** The string keys of the built-in prototypes. *)
Definition Object_prototype : list (list N) :=
  js <$> ["constructor"; "__defineGetter__"; "__defineSetter__"; "hasOwnProperty";
          "__lookupGetter__"; "__lookupSetter__"; "isPrototypeOf";
          "propertyIsEnumerable"; "toString"; "valueOf"; "__proto__";
          "toLocaleString"]%string.

Definition Array_prototype : list (list N) :=
  js <$> ["length"; "constructor"; "at"; "concat"; "copyWithin"; "fill"; "find";
          "findIndex"; "findLast"; "findLastIndex"; "lastIndexOf"; "pop"; "push";
          "reverse"; "shift"; "unshift"; "slice"; "sort"; "splice"; "includes";
          "indexOf"; "join"; "keys"; "entries"; "values"; "forEach"; "filter";
          "flat"; "flatMap"; "map"; "every"; "some"; "reduce"; "reduceRight";
          "toLocaleString"; "toString"; "toReversed"; "toSorted"; "toSpliced";
          "with"]%string.

Definition String_prototype : list (list N) :=
  js <$> ["length"; "constructor"; "anchor"; "at"; "big"; "blink"; "bold";
          "charAt"; "charCodeAt"; "codePointAt"; "concat"; "endsWith";
          "fontcolor"; "fontsize"; "fixed"; "includes"; "indexOf"; "isWellFormed";
          "italics"; "lastIndexOf"; "link"; "localeCompare"; "match"; "matchAll";
          "normalize"; "padEnd"; "padStart"; "repeat"; "replace"; "replaceAll";
          "search"; "slice"; "small"; "split"; "strike"; "sub"; "substr";
          "substring"; "sup"; "startsWith"; "toString"; "toWellFormed"; "trim";
          "trimStart"; "trimLeft"; "trimEnd"; "trimRight"; "toLocaleLowerCase";
          "toLocaleUpperCase"; "toLowerCase"; "toUpperCase"; "valueOf"]%string.

Definition Number_prototype : list (list N) :=
  js <$> ["constructor"; "toExponential"; "toFixed"; "toPrecision"; "toString";
          "valueOf"; "toLocaleString"]%string.

Definition Boolean_prototype : list (list N) :=
  js <$> ["constructor"; "toString"; "valueOf"]%string.

(** The lookup along a prototype chain, once the own properties have been
    tried. *)
Definition inherited (chain : list (list (list N))) (key : list N) : option Value :=
  if bool_decide (key ∈ mjoin chain) then Some (Builtin key) else None.

#[global] Arguments inherited : simpl never.

Definition own_or_inherited (own : option json) (chain : list (list (list N)))
    (key : list N) : option Value :=
  match own with
  | Some v => Some (Data v)
  | None => inherited chain key
  end.

(** [value[key]]; [None] is [undefined].  Only [null] has no properties to
    read (a parsed JSON value is never [undefined]). *)
Definition get_prop (value : json) (key : list N) : Result (option Value) :=
  match value with
  | JNull =>
      Throw (TypeError (js "Cannot read properties of null (reading '" ++ key ++ js "')"))
  | JObj ms => Ok (own_or_inherited (member_lookup key ms) [Object_prototype] key)
  | JArr vs =>
      Ok (own_or_inherited
            (if decide (key = js "length")
             then Some (JNum (num_to_js (Z.of_nat (length vs))))
             else index_of_key key vs)
            [Array_prototype; Object_prototype] key)
  | JStr s =>
      Ok (own_or_inherited
            (if decide (key = js "length")
             then Some (JNum (num_to_js (Z.of_nat (length s))))
             else (λ c, JStr [c]) <$> index_of_key key s)
            [String_prototype; Object_prototype] key)
  | JNum _ => Ok (inherited [Number_prototype; Object_prototype] key)
  | JBool _ => Ok (inherited [Boolean_prototype; Object_prototype] key)
  end.

(** [wasUp !== isUp], where [isUp] is a boolean. *)
Definition strict_neq_bool (wasUp : Value) (isUp : bool) : bool :=
  match wasUp with
  | Data (JBool b) => negb (eqb b isUp)
  | _ => true
  end.

(** [state[key] = value] on a plain object holding booleans.  An own
    property is overwritten where it stands.  Otherwise the key [__proto__]
    reaches the setter inherited from [Object.prototype], which ignores a
    boolean; any other key becomes a new own property: an array index goes
    among the array indices, in ascending order and before every other key;
    another key goes last. *)
Fixpoint digits_value (acc : N) (s : list N) : option N :=
  match s with
  | [] => Some acc
  | c :: r => if is_digit c then digits_value (10 * acc + (c - 48)) r else None
  end.

(** The array index a key denotes: the canonical numeral of an integer below
    2^32 - 1. *)
Definition array_index (key : list N) : option N :=
  match key with
  | [] => None
  | c :: r =>
      if (c =? 48) && negb (bool_decide (r = [])) then None
      else
        match digits_value 0 key with
        | Some n => if n <? 4294967295 then Some n else None
        | None => None
        end
  end.

Fixpoint insert_index (n : N) (key : list N) (value : bool) (state : State) : State :=
  match state with
  | [] => [(key, value)]
  | (k, v) :: rest =>
      match array_index k with
      | Some m =>
          if m <? n then (k, v) :: insert_index n key value rest
          else (key, value) :: state
      | None => (key, value) :: state
      end
  end.

Fixpoint overwrite (key : list N) (value : bool) (state : State) : State :=
  match state with
  | [] => []
  | (k, v) :: rest =>
      if decide (k = key) then (k, value) :: rest
      else (k, v) :: overwrite key value rest
  end.

Definition set_prop (state : State) (key : list N) (value : bool) : State :=
  if bool_decide (key ∈ state.*1) then overwrite key value state
  else if decide (key = js "__proto__") then state
  else
    match array_index key with
    | Some n => insert_index n key value state
    | None => state ++ [(key, value)]
    end.

(** ** The world the script runs in *)

Inductive BodyReply : Type :=
  | BodyText (delay : Z) (text : list N)
  | BodyFail (e : JSError).

(** What the network answers to one GET: the response head after [delay]
    milliseconds, or a transport failure. *)
Inductive Reply : Type :=
  | Response (delay : Z) (status : Z) (body : BodyReply)
  | NetFail (e : JSError).

Inductive Event : Type :=
  | EvSetTimeout (ms : Z)
  | EvClearTimeout
  | EvFetch (url : list N)
  | EvText (url : list N)
  | EvWait (ms : Z)
  | EvNotify (message : list N)
  | EvPost (url body : list N)
  | EvReadFile (path : list N)
  | EvMkdir (path : list N)
  | EvWriteFile (path data : list N)
  | EvLog (line : list N)
  | EvWarn (line : list N)
  | EvError (line : list N)
  | EvExit (code : Z).

(** The location of the state file, as far as the script can observe it:
    whether its directory exists or can be created, whether the file can be
    read and opened for writing, whether the device fails while the text is
    being written (with which error, and after how many code units), and the
    text the file holds. *)
Record FileSystem : Type := mkFS {
  dir_exists : bool;
  dir_creatable : bool;
  file_readable : bool;
  file_openable : bool;
  write_fault : option (nat * JSError);
  file_content : option (list N)
}.

(** A write of the file goes through once its directory exists. *)
Definition file_writable (f : FileSystem) : bool :=
  file_openable f && match write_fault f with None => true | Some _ => false end.

Record World : Type := mkWorld {
  net : list N → list Reply;
  webhook : list (option JSError);
  fs : FileSystem;
  clock : Z;
  toISOString : Z → list N;
  toLocaleString : Z → list N;
  toLowerCase : list N → list N;
  trace : list Event
}.

Definition with_trace (t : list Event) (w : World) : World :=
  mkWorld (net w) (webhook w) (fs w) (clock w) (toISOString w) (toLocaleString w)
    (toLowerCase w) t.
Definition with_clock (c : Z) (w : World) : World :=
  mkWorld (net w) (webhook w) (fs w) c (toISOString w) (toLocaleString w)
    (toLowerCase w) (trace w).
Definition with_net (n : list N → list Reply) (w : World) : World :=
  mkWorld n (webhook w) (fs w) (clock w) (toISOString w) (toLocaleString w)
    (toLowerCase w) (trace w).
Definition with_webhook (h : list (option JSError)) (w : World) : World :=
  mkWorld (net w) h (fs w) (clock w) (toISOString w) (toLocaleString w)
    (toLowerCase w) (trace w).
Definition with_fs (f : FileSystem) (w : World) : World :=
  mkWorld (net w) (webhook w) f (clock w) (toISOString w) (toLocaleString w)
    (toLowerCase w) (trace w).

(** ** The monad of effects *)

Definition M (A : Type) : Type := World → Result A * World.

#[global] Instance M_ret : MRet M := λ A a w, (Ok a, w).
#[global] Instance M_bind : MBind M := λ A B f m w,
  match m w with
  | (Ok a, w') => f a w'
  | (Throw e, w') => (Throw e, w')
  end.

Definition throw {A} (e : JSError) : M A := λ w, (Throw e, w).

(** [try { body } catch (err) { handler }]. *)
Definition try_catch {A} (body : M A) (handler : JSError → M A) : M A := λ w,
  match body w with
  | (Ok a, w') => (Ok a, w')
  | (Throw e, w') => handler e w'
  end.

(** [try { body } finally { cleanup }]. *)
Definition try_finally {A} (body : M A) (cleanup : M unit) : M A := λ w,
  let '(r, w') := body w in
  match cleanup w' with
  | (Ok _, w'') => (r, w'')
  | (Throw e, w'') => (Throw e, w'')
  end.

Definition lift_result {A} (r : Result A) : M A := λ w, (r, w).

Definition emit (ev : Event) : M unit := λ w,
  (Ok tt, with_trace (trace w ++ [ev]) w).

Fixpoint mapM {A B} (f : A → M B) (l : list A) : M (list B) :=
  match l with
  | [] => mret []
  | a :: r => b ← f a; bs ← mapM f r; mret (b :: bs)
  end.

(** *** Clock and timers *)

Definition now : M Z := λ w, (Ok (clock w), w).

(** [setTimeout(() => controller.abort(), ms)]: the abort signal fires when
    the clock reaches the deadline returned here.  Node replaces a delay
    below 1 or above 2^31-1 by 1. *)
Definition setTimeout_abort (ms : Z) : M Z :=
  _ ← emit (EvSetTimeout ms);
  t ← now;
  mret (t + (if (ms <? 1) || (2147483647 <? ms) then 1 else ms))%Z.

Definition clearTimeout : M unit := emit EvClearTimeout.

(** [await wait(ms)] from [node:timers/promises]. *)
Definition wait (ms : Z) : M unit := λ w,
  (Ok tt, with_clock (clock w + ms)%Z (with_trace (trace w ++ [EvWait ms]) w)).

(** *** Network *)

Record Res : Type := mkRes {
  res_url : list N;
  res_status : Z;
  res_body : BodyReply;
  res_signal : Z
}.

Definition res_ok (res : Res) : bool :=
  ((200 <=? res_status res) && (res_status res <=? 299))%Z.

Definition AbortError : JSError :=
  mkError (js "AbortError") (js "This operation was aborted").

Definition next_reply (w : World) (url : list N) : Reply :=
  match net w url with
  | r :: _ => r
  | [] => NetFail (TypeError (js "fetch failed"))
  end.

Definition consume_reply (url : list N) (w : World) : World :=
  with_net (λ u, if decide (u = url) then tail (net w u) else net w u) w.

(** [await fetch(url, { signal, redirect: "follow" })]. *)
Definition fetch (url : list N) (signal : Z) : M Res := λ w,
  let w1 := consume_reply url (with_trace (trace w ++ [EvFetch url]) w) in
  match next_reply w url with
  | NetFail e => (Throw e, w1)
  | Response delay status body =>
      if (clock w + delay <? signal)%Z
      then (Ok (mkRes url status body signal), with_clock (clock w + delay)%Z w1)
      else (Throw AbortError, with_clock signal w1)
  end.

(** [await res.text()]. *)
Definition res_text (res : Res) : M (list N) := λ w,
  let w1 := with_trace (trace w ++ [EvText (res_url res)]) w in
  match res_body res with
  | BodyFail e => (Throw e, w1)
  | BodyText delay text =>
      if (clock w + delay <? res_signal res)%Z
      then (Ok text, with_clock (clock w + delay)%Z w1)
      else (Throw AbortError, with_clock (res_signal res) w1)
  end.

(** [fetch(url, { method: "POST", ... })]: the promise resolves whatever the
    HTTP status, and rejects on a transport failure. *)
Definition fetch_post (url body : list N) : M unit := λ w,
  let w1 := with_webhook (tail (webhook w)) (with_trace (trace w ++ [EvPost url body]) w) in
  match webhook w with
  | Some e :: _ => (Throw e, w1)
  | None :: _ => (Ok tt, w1)
  | [] => (Throw (TypeError (js "fetch failed")), w1)
  end.

(** *** File system *)

(** The error of a failed system call: Node's message names the call and
    the path. *)
Definition fs_error (code syscall : string) (path : list N) : JSError :=
  mkError (js "Error") (js code ++ js ", " ++ js syscall ++ js " '" ++ path ++ js "'").

Fixpoint drop_while (p : N → bool) (s : list N) : list N :=
  match s with
  | c :: r => if p c then drop_while p r else s
  | [] => []
  end.

(** [dirname] of [node:path], on POSIX paths: the path up to the last slash
    that is followed by a name, trailing slashes apart. *)
Definition dirname (path : list N) : list N :=
  match path with
  | [] => js "."
  | c :: rest =>
      let not_slash := λ x : N, negb (x =? 47) in
      let slash := λ x : N, x =? 47 in
      let upto := drop_while not_slash (drop_while slash (reverse rest)) in
      match upto with
      | [] => if c =? 47 then js "/" else js "."
      | _ :: _ =>
          if (c =? 47) && (length upto =? 1)%nat then js "//"
          else take (length upto) path
      end
  end.

Definition readFileSync (path : list N) : M (list N) := λ w,
  let w1 := with_trace (trace w ++ [EvReadFile path]) w in
  match file_content (fs w) with
  | Some data =>
      if dir_exists (fs w) && file_readable (fs w) then (Ok data, w1)
      else (Throw (fs_error "EACCES: permission denied" "open" path), w1)
  | None => (Throw (fs_error "ENOENT: no such file or directory" "open" path), w1)
  end.

(** [mkdirSync(dir, { recursive: true })] on the directory of the state
    file. *)
Definition mkdirSync (dir : list N) : M unit := λ w,
  let w1 := with_trace (trace w ++ [EvMkdir dir]) w in
  let f := fs w in
  if dir_exists f then (Ok tt, w1)
  else if dir_creatable f
  then (Ok tt, with_fs (mkFS true (dir_creatable f) (file_readable f)
                          (file_openable f) (write_fault f) (file_content f)) w1)
  else (Throw (fs_error "EACCES: permission denied" "mkdir" dir), w1).

(** [writeFileSync(path, data)]: the file is opened, which truncates it, and
    the text is written. *)
Definition writeFileSync (path data : list N) : M unit := λ w,
  let w1 := with_trace (trace w ++ [EvWriteFile path data]) w in
  let f := fs w in
  let holding := λ content,
    with_fs (mkFS true (dir_creatable f) (file_readable f) (file_openable f)
               (write_fault f) (Some content)) w1 in
  if dir_exists f then
    if file_openable f then
      match write_fault f with
      | None => (Ok tt, holding data)
      | Some (written, e) => (Throw e, holding (take written data))
      end
    else (Throw (fs_error "EACCES: permission denied" "open" path), w1)
  else (Throw (fs_error "ENOENT: no such file or directory" "open" path), w1).

(** *** Console and process *)

Definition console_log (line : list N) : M unit := emit (EvLog line).
Definition console_warn (line : list N) : M unit := emit (EvWarn line).
Definition console_error (line : list N) : M unit := emit (EvError line).
Definition process_exit (code : Z) : M unit := emit (EvExit code).

(** ** Configuration and data of the script *)

(** [process.env]: each variable is a string or [undefined]. *)
Record Env : Type := mkEnv {
  env_PROD_MONITOR_URL : option (list N);
  env_STAGING_MONITOR_URL : option (list N);
  env_DEV_MONITOR_URL : option (list N);
  env_DISCORD_WEBHOOK_URL : option (list N);
  env_FORCE_STATUS_REPORT : option (list N);
  env_STATE_FILE_PATH : option (list N)
}.

(** Truthiness of a string, and of an optional string or number. *)
Definition truthy_str (s : list N) : bool := negb (bool_decide (s = [])).

Definition or_else (v : option (list N)) (d : list N) : list N :=
  match v with
  | Some s => if truthy_str s then s else d
  | None => d
  end.

Record Target : Type := mkTarget {
  t_name : list N;
  t_url : list N;
  expectStatus : option Z;
  expectText : option (list N);
  timeoutMs : Z
}.

(** The object [checkOnce] returns. *)
Record Outcome : Type := mkOutcome {
  name : list N;
  url : list N;
  up : bool;
  status : Z;
  ms : option Z;
  slow : bool;
  error : option (list N)
}.

(** One entry of the [TARGETS] literal, kept by [.filter(target => target.url)]
    when its URL is a non-empty string. *)
Definition target_entry (nm : string) (u : option (list N)) (st tmo : Z)
    : list Target :=
  match u with
  | Some s => if truthy_str s then [mkTarget (js nm) s (Some st) None tmo] else []
  | None => []
  end.

Definition RETRIES : Z := 2.
Definition COOLDOWN_MS : Z := 1000.
Definition SLOW_THRESHOLD_MS : Z := 2500.

(** Code units of the pictographs used in the messages. *)
Definition cross_mark : list N := [10060].
Definition check_mark : list N := [9989].
Definition bar_chart : list N := [55357; 56522].
Definition green_circle : list N := [55357; 57314].
Definition red_circle : list N := [55357; 56628].
Definition alarm_clock : list N := [9200].
Definition clock_face : list N := [55357; 56656].
Definition rotating_light : list N := [55357; 57000].
Definition bell : list N := [55357; 56596].
Definition party_popper : list N := [55356; 57225].

(** ** Functions shared by the three revisions *)

(** The configured test [target.expectStatus ? ... : ...]: [null] and [0]
    are falsy. *)
Definition status_expected (target : Target) : option Z :=
  match expectStatus target with
  | Some n => if (n =? 0)%Z then None else Some n
  | None => None
  end.

(** The configured test [if (target.expectText)]: [null] and the empty
    string are falsy. *)
Definition text_expected (target : Target) : option (list N) :=
  match expectText target with
  | Some p => if truthy_str p then Some p else None
  | None => None
  end.

(** [err.message || String(err)]. *)
Definition error_text (err : JSError) : list N :=
  if truthy_str (err_message err) then err_message err else String_of_error err.

(** [s.toLowerCase()]. *)
Definition String_toLowerCase (s : list N) : M (list N) := λ w,
  (Ok (toLowerCase w s), w).

Definition checkOnce (target : Target) : M Outcome :=
  signal ← setTimeout_abort (timeoutMs target);
  started ← now;
  try_finally
    (try_catch
       (res ← fetch (t_url target) signal;
        finished ← now;
        let elapsed := (finished - started)%Z in
        let okStatus :=
          match status_expected target with
          | Some n => (res_status res =? n)%Z
          | None => res_ok res
          end in
        okText ← match text_expected target with
                 | Some pattern =>
                     text ← res_text res;
                     lowered ← String_toLowerCase text;
                     wanted ← String_toLowerCase pattern;
                     mret (includes lowered wanted)
                 | None => mret true
                 end;
        mret {| name := t_name target; url := t_url target;
                up := okStatus && okText; status := res_status res;
                ms := Some elapsed; slow := (elapsed >? SLOW_THRESHOLD_MS)%Z;
                error := None |})
       (λ err,
        mret {| name := t_name target; url := t_url target;
                up := false; status := 0%Z; ms := None; slow := false;
                error := Some (error_text err) |}))
    clearTimeout.

(** The loop [for (let i = 0; i <= RETRIES; i++)], entered at index [i] with
    the loop condition already checked; [fuel] bounds the number of further
    iterations.  The condition holds at [i = 0], so [last] is assigned before
    the function returns it. *)
Fixpoint retry_from (fuel : nat) (i : Z) (target : Target) : M Outcome :=
  last ← checkOnce target;
  if up last then mret last
  else
    _ ← (if (i <? RETRIES)%Z then wait COOLDOWN_MS else mret tt);
    if (i + 1 <=? RETRIES)%Z then
      match fuel with
      | S fuel' => retry_from fuel' (i + 1) target
      | O => mret last
      end
    else mret last.

Definition checkWithRetries (target : Target) : M Outcome :=
  retry_from (Z.to_nat RETRIES) 0 target.

Definition ms_to_js (v : option Z) : list N :=
  match v with
  | Some z => num_to_js z
  | None => js "null"
  end.

(** [result.error ?? "n/a"]. *)
Definition error_or_na (v : option (list N)) : list N :=
  match v with
  | Some s => s
  | None => js "n/a"
  end.

Definition fmt (result : Outcome) : list N :=
  let envName := if truthy_str (name result) then name result else js "Service" in
  if negb (up result) then
    cross_mark ++ js " DOWN: **" ++ envName ++ js "** - " ++ url result
    ++ js " (status=" ++ num_to_js (status result) ++ js ", error="
    ++ error_or_na (error result) ++ js ")"
  else
    check_mark ++ js " OK: **" ++ envName ++ js "** - " ++ url result
    ++ js " (" ++ ms_to_js (ms result) ++ js " ms, status="
    ++ num_to_js (status result) ++ js ")".

Definition JSON_parse_M (data : list N) : M json :=
  match JSON_parse data with
  | Some v => mret v
  | None => throw (mkError (js "SyntaxError") (js "Unexpected token in JSON"))
  end.

(** [new Date().toISOString()] and
    [new Date().toLocaleString('en-US', { timeZone: ..., hour12: false })]. *)
Definition date_iso : M (list N) := λ w, (Ok (toISOString w (clock w)), w).
Definition date_locale : M (list N) := λ w, (Ok (toLocaleString w (clock w)), w).

Section Shared.
Context (env : Env) (STATE_FILE : list N).

Definition DISCORD_WEBHOOK_URL : list N :=
  or_else (env_DISCORD_WEBHOOK_URL env) [].

(** The call itself is recorded in the trace ([EvNotify]) before anything
    else, so that a delivery attempt is observable when no webhook is
    configured. *)
Definition notify (message : list N) : M unit :=
  _ ← emit (EvNotify message);
  if truthy_str DISCORD_WEBHOOK_URL then
    try_catch
      (fetch_post DISCORD_WEBHOOK_URL (JSON_stringify_content message))
      (λ _, mret tt)
  else mret tt.

Definition loadPreviousState : M json :=
  try_catch
    (data ← readFileSync STATE_FILE; JSON_parse_M data)
    (λ _, mret (JObj [])).

(** [savePreviousState] of [src/monitor.mjs] and [part_001]. *)
Definition savePreviousState (state : State) : M unit :=
  try_catch
    (writeFileSync STATE_FILE (JSON_stringify_state state))
    (λ err, console_warn (js "Could not save state: " ++ err_message err)).

(** [const currentState = {}; results.forEach(r => currentState[r.url] = r.up)]. *)
Definition currentState_of (results : list Outcome) : State :=
  foldl (λ st r, set_prop st (url r) (up r)) [] results.

Definition forceReport : bool :=
  bool_decide (env_FORCE_STATUS_REPORT env = Some (js "true")).
End Shared.

#[global] Instance Result_ret : MRet Result := λ A a, Ok a.
#[global] Instance Result_bind : MBind Result := λ A B f r,
  match r with
  | Ok a => f a
  | Throw e => Throw e
  end.

Definition DEFAULT_STATE_FILE : list N := js "/tmp/monitor-state.json".

(** [console.log(new Date().toISOString(), "\n" + lines.join("\n"))]. *)
Definition log_summary (results : list Outcome) : M unit :=
  let lines := fmt <$> results in
  iso ← date_iso;
  console_log (iso ++ js " " ++ [10] ++ join_with [10] lines).

(** ** [src/monitor.mjs] *)

Module Monitor.

Definition STATE_FILE : list N := DEFAULT_STATE_FILE.

Definition TARGETS (env : Env) : list Target :=
  target_entry "Production" (env_PROD_MONITOR_URL env) 200 8000
  ++ target_entry "Staging" (env_STAGING_MONITOR_URL env) 200 8000
  ++ target_entry "Development" (env_DEV_MONITOR_URL env) 200 6000.

Definition up_line (service : Outcome) : list N :=
  check_mark ++ js " **" ++ name service ++ js "** - " ++ url service
  ++ js " (" ++ ms_to_js (ms service) ++ js " ms, status="
  ++ num_to_js (status service) ++ js ")" ++ [10].

Definition down_line (service : Outcome) : list N :=
  cross_mark ++ js " **" ++ name service ++ js "** - " ++ url service
  ++ js " (status=" ++ num_to_js (status service) ++ js ", error="
  ++ error_or_na (error service) ++ js ")" ++ [10].

Definition formatStatusMessage (results : list Outcome)
    (timestamp : list N) (executionTime : Z) : list N :=
  let upServices := List.filter (λ r, up r) results in
  let downServices := List.filter (λ r, negb (up r)) results in
  let message := bar_chart ++ js " **SERVICE STATUS UPDATES**" ++ [10; 10] in
  let message :=
    if (0 <? length upServices)%nat
    then foldl (λ msg service, msg ++ up_line service)
           (message ++ green_circle ++ js " **Services Up**" ++ [10]) upServices
    else message in
  let message :=
    if (0 <? length downServices)%nat
    then
      let message := if (0 <? length upServices)%nat then message ++ [10] else message in
      foldl (λ msg service, msg ++ down_line service)
        (message ++ red_circle ++ js " **Services Down**" ++ [10]) downServices
    else message in
  message ++ [10] ++ alarm_clock ++ js " **" ++ timestamp ++ js " ART** | "
  ++ clock_face ++ js " Execution time: " ++ num_to_js executionTime ++ js "ms".

Fixpoint hasChanges (currentResults : list Outcome) (previousState : json)
    : Result bool :=
  match currentResults with
  | [] => mret false
  | result :: rest =>
      wasUp ← get_prop previousState (url result);
      let isUp := up result in
      match wasUp with
      | None => mret true
      | Some v =>
          if strict_neq_bool v isUp then mret true
          else hasChanges rest previousState
      end
  end.

Definition main (env : Env) : M unit :=
  startTime ← now;
  results ← mapM checkWithRetries (TARGETS env);
  endTime ← now;
  let executionTime := (endTime - startTime)%Z in
  _ ← log_summary results;
  previousState ← loadPreviousState STATE_FILE;
  shouldNotify ← lift_result (hasChanges results previousState);
  let currentState := currentState_of results in
  _ ← savePreviousState STATE_FILE currentState;
  let forceReport := forceReport env in
  timestamp ← date_locale;
  if shouldNotify || forceReport then
    let statusMessage := formatStatusMessage results timestamp executionTime in
    _ ← notify env statusMessage;
    if forceReport then console_log (js "Manual status report sent to Discord")
    else console_log (js "Status notification sent to Discord")
  else
    console_log (js "All services up and no changes detected - no notifications sent").

(** [main().catch(async (e) => { ... process.exit(1) })]. *)
Definition run (env : Env) : M unit :=
  try_catch (main env)
    (λ e,
     _ ← console_error (js "Fatal: " ++ String_of_error e);
     timestamp ← date_locale;
     _ ← notify env (cross_mark ++ js " **Monitor failed**: " ++ error_text e
                     ++ [10; 10] ++ alarm_clock ++ js " **" ++ timestamp ++ js " ART**");
     process_exit 1).

End Monitor.

(** ** [src/unnamed/part_001] *)

Module Part001.

Definition STATE_FILE : list N := DEFAULT_STATE_FILE.

Definition TARGETS (env : Env) : list Target := Monitor.TARGETS env.

Inductive ChangeType : Type := initial_down | recovered | went_down.

Record Change : Type := mkChange { type : ChangeType; result : Outcome }.

(** The loop of [detectChanges]; [changes.push(c)] appends. *)
Fixpoint detect_loop (currentResults : list Outcome) (previousState : json)
    (changes : list Change) : Result (list Change) :=
  match currentResults with
  | [] => mret changes
  | result :: rest =>
      wasUp ← get_prop previousState (url result);
      let isUp := up result in
      match wasUp with
      | None =>
          if negb isUp
          then detect_loop rest previousState (changes ++ [mkChange initial_down result])
          else detect_loop rest previousState changes
      | Some v =>
          if strict_neq_bool v isUp then
            if isUp
            then detect_loop rest previousState (changes ++ [mkChange recovered result])
            else detect_loop rest previousState (changes ++ [mkChange went_down result])
          else detect_loop rest previousState changes
      end
  end.

Definition detectChanges (currentResults : list Outcome) (previousState : json)
    : Result (list Change) :=
  detect_loop currentResults previousState [].

Definition change_message (change : Change) : list N :=
  match type change with
  | initial_down =>
      rotating_light ++ js " **INITIAL CHECK - SERVICE DOWN**" ++ [10] ++ fmt (result change)
  | went_down =>
      red_circle ++ js " **SERVICE WENT DOWN**" ++ [10] ++ fmt (result change)
  | recovered =>
      green_circle ++ js " **SERVICE RECOVERED**" ++ [10] ++ fmt (result change)
  end.

Definition current_status_report (results : list Outcome) : list N :=
  join_with [10] ([bar_chart ++ js " **CURRENT STATUS REPORT**"; []] ++ (fmt <$> results)).

Definition main (env : Env) : M unit :=
  results ← mapM checkWithRetries (TARGETS env);
  _ ← log_summary results;
  previousState ← loadPreviousState STATE_FILE;
  changes ← lift_result (detectChanges results previousState);
  let currentState := currentState_of results in
  _ ← savePreviousState STATE_FILE currentState;
  let forceReport := forceReport env in
  if (0 <? length changes)%nat then
    let messages := foldl (λ msgs change, msgs ++ [change_message change]) [] changes in
    if (0 <? length messages)%nat then notify env (join_with [10; 10] messages)
    else mret tt
  else if forceReport then
    let statusMessage := current_status_report results in
    _ ← notify env statusMessage;
    console_log (js "Manual status report sent to Discord")
  else
    console_log (js "No status changes detected - no notifications sent").

Definition run (env : Env) : M unit :=
  try_catch (main env)
    (λ e,
     _ ← console_error (js "Fatal: " ++ String_of_error e);
     _ ← notify env (cross_mark ++ js " Monitor failed: " ++ error_text e);
     process_exit 1).

End Part001.

(** ** [src/unnamed/part_002] *)

Module Part002.

(** [process.env.STATE_FILE_PATH || "/tmp/monitor-state.json"]. *)
Definition STATE_FILE (env : Env) : list N :=
  or_else (env_STATE_FILE_PATH env) DEFAULT_STATE_FILE.

Definition TARGETS (env : Env) : list Target :=
  target_entry "Production" (env_PROD_MONITOR_URL env) 200 8000
  ++ target_entry "Development" (env_DEV_MONITOR_URL env) 200 6000.

Definition savePreviousState (env : Env) (state : State) : M unit :=
  try_catch
    (_ ← try_catch (mkdirSync (dirname (STATE_FILE env))) (λ _, mret tt);
     writeFileSync (STATE_FILE env) (JSON_stringify_state state))
    (λ err, console_warn (js "Could not save state: " ++ err_message err)).

Inductive ChangeKind : Type := recovered | down.

(** [{ ...result, previousState: wasUp, changeType: ... }]. *)
Record ChangedService : Type := mkChanged {
  service : Outcome;
  previousState : Value;
  changeType : ChangeKind
}.

Fixpoint changed_loop (currentResults : list Outcome) (previous : json)
    (changes : list ChangedService) : Result (list ChangedService) :=
  match currentResults with
  | [] => mret changes
  | result :: rest =>
      wasUp ← get_prop previous (url result);
      let isUp := up result in
      match wasUp with
      | None => changed_loop rest previous changes
      | Some v =>
          if strict_neq_bool v isUp
          then changed_loop rest previous
                 (changes ++ [mkChanged result v (if isUp then recovered else down)])
          else changed_loop rest previous changes
      end
  end.

Definition getChangedServices (currentResults : list Outcome) (previous : json)
    : Result (list ChangedService) :=
  changed_loop currentResults previous [].

Definition hasChanges (currentResults : list Outcome) (previous : json)
    : Result bool :=
  changes ← getChangedServices currentResults previous;
  mret (0 <? length changes)%nat.

(** The lines of [formatStatusMessage]: one per service, in the full report
    and in the changes-only report. *)
Definition up_line (s : Outcome) : list N :=
check_mark ++ js " **" ++ name s ++ js "** - " ++ url s
++ js " (" ++ ms_to_js (ms s) ++ js " ms, status="
++ num_to_js (status s) ++ js ")" ++ [10].

Definition down_line (s : Outcome) : list N :=
cross_mark ++ js " **" ++ name s ++ js "** - " ++ url s
++ js " (status=" ++ num_to_js (status s) ++ js ", error="
++ error_or_na (error s) ++ js ")" ++ [10].

Definition recovered_line (s : ChangedService) : list N :=
check_mark ++ js " **" ++ name (service s) ++ js "** is back online - "
++ url (service s) ++ js " (" ++ ms_to_js (ms (service s)) ++ js " ms, status="
++ num_to_js (status (service s)) ++ js ")" ++ [10].

Definition went_down_line (s : ChangedService) : list N :=
cross_mark ++ js " **" ++ name (service s) ++ js "** went down - "
++ url (service s) ++ js " (status=" ++ num_to_js (status (service s))
++ js ", error=" ++ error_or_na (error (service s)) ++ js ")" ++ [10].

Definition is_recovered (s : ChangedService) : bool :=
match changeType s with recovered => true | down => false end.

Definition is_down (s : ChangedService) : bool :=
match changeType s with down => true | recovered => false end.

Definition footer (timestamp : list N) (executionTime : Z) : list N :=
[10] ++ alarm_clock ++ js " **" ++ timestamp ++ js " ART** | "
++ clock_face ++ js " Execution time: " ++ num_to_js executionTime ++ js "ms".

Definition formatStatusMessage (results : list Outcome) (timestamp : list N)
    (executionTime : Z) (isFullReport : bool)
    (changedServices : list ChangedService) : list N :=
if isFullReport then
  let upServices := List.filter (λ r, up r) results in
  let downServices := List.filter (λ r, negb (up r)) results in
  let message := bar_chart ++ js " **SERVICE STATUS REPORT**" ++ [10; 10] in
  let message :=
    if (0 <? length upServices)%nat
    then foldl (λ msg s, msg ++ up_line s)
           (message ++ green_circle ++ js " **Services Up**" ++ [10]) upServices
    else message in
  let message :=
    if (0 <? length downServices)%nat
    then
      let message := if (0 <? length upServices)%nat then message ++ [10] else message in
      foldl (λ msg s, msg ++ down_line s)
        (message ++ red_circle ++ js " **Services Down**" ++ [10]) downServices
    else message in
  message ++ footer timestamp executionTime
else
  let message := bell ++ js " **SERVICE STATUS CHANGES**" ++ [10; 10] in
  let recoveredServices := List.filter is_recovered changedServices in
  let downServices := List.filter is_down changedServices in
  let message :=
    if (0 <? length recoveredServices)%nat
    then foldl (λ msg s, msg ++ recovered_line s)
           (message ++ party_popper ++ js " **Services Recovered**" ++ [10])
           recoveredServices
    else message in
  let message :=
    if (0 <? length downServices)%nat
    then
      let message :=
        if (0 <? length recoveredServices)%nat then message ++ [10] else message in
      foldl (λ msg s, msg ++ went_down_line s)
        (message ++ rotating_light ++ js " **Services Down**" ++ [10]) downServices
    else message in
  message ++ footer timestamp executionTime.

Definition main (env : Env) : M unit :=
startTime ← now;
results ← mapM checkWithRetries (TARGETS env);
endTime ← now;
let executionTime := (endTime - startTime)%Z in
_ ← log_summary results;
previous ← loadPreviousState (STATE_FILE env);
changedServices ← lift_result (getChangedServices results previous);
let shouldNotify := (0 <? length changedServices)%nat in
let currentState := currentState_of results in
_ ← savePreviousState env currentState;
let forceReport := forceReport env in
timestamp ← date_locale;
if shouldNotify || forceReport then
  let isFullReport := forceReport in
  let statusMessage :=
    formatStatusMessage results timestamp executionTime isFullReport changedServices in
  _ ← notify env statusMessage;
  if forceReport then console_log (js "Manual status report sent to Discord")
  else console_log (js "Status change notification sent to Discord")
else
  console_log (js "No status changes detected - no notifications sent").

Definition run (env : Env) : M unit :=
try_catch (main env)
  (λ e,
   _ ← console_error (js "Fatal: " ++ String_of_error e);
   timestamp ← date_locale;
   _ ← notify env (cross_mark ++ js " **Monitor failed**: " ++ error_text e
                   ++ [10; 10] ++ alarm_clock ++ js " **" ++ timestamp ++ js " ART**");
   process_exit 1).

End Part002.

(** ** Definitions used to state the properties *)

Definition members_of (l : list (list N * bool)) : list (list N * json) :=
  (λ kb : list N * bool, (kb.1, JBool kb.2)) <$> l.

(** What a plain object inherits under a key: the properties of
    [Object.prototype]. *)
Definition object_inherits (key : list N) : option Value :=
  inherited [Object_prototype] key.

(** What a plain object answers to a property read: the boolean it holds
    under the key, or what it inherits.  For a mapping, and for the
    properties of a [State], the last one of a name counting. *)
Definition read_mapping (m : gmap (list N) bool) (key : list N) : option Value :=
  match m !! key with
  | Some b => Some (Data (JBool b))
  | None => object_inherits key
  end.

Definition own_value (key : list N) (state : State) : option bool :=
  snd <$> last (filter (λ kb, kb.1 = key) state).

Definition read_state (state : State) (key : list N) : option Value :=
  match own_value key state with
  | Some b => Some (Data (JBool b))
  | None => object_inherits key
  end.

#[global] Arguments object_inherits : simpl never.

(** What [detectChanges] adds for one outcome, by what the prior state holds
    for its URL: nothing of its own and nothing inherited, a boolean of its
    own, or only something inherited, which is no boolean. *)
Definition spec_transition (m : gmap (list N) bool) (r : Outcome)
    : option Part001.Change :=
  match m !! url r with
  | None =>
      match object_inherits (url r) with
      | None => if up r then None else Some (Part001.mkChange Part001.initial_down r)
      | Some _ =>
          Some (Part001.mkChange (if up r then Part001.recovered else Part001.went_down) r)
      end
  | Some true => if up r then None else Some (Part001.mkChange Part001.went_down r)
  | Some false => if up r then Some (Part001.mkChange Part001.recovered r) else None
  end.

(** What [getChangedServices] records for one outcome. *)
Definition spec_changed (m : gmap (list N) bool) (r : Outcome)
    : option Part002.ChangedService :=
  match m !! url r with
  | None =>
      match object_inherits (url r) with
      | None => None
      | Some v =>
          Some (Part002.mkChanged r v (if up r then Part002.recovered else Part002.down))
      end
  | Some true =>
      if up r then None else Some (Part002.mkChanged r (JBool true) Part002.down)
  | Some false =>
      if up r then Some (Part002.mkChanged r (JBool false) Part002.recovered) else None
  end.

(** The events a run has added to the trace. *)
Definition new_events (w w' : World) : list Event :=
  drop (length (trace w)) (trace w').

(** The messages handed to [notify], the bodies posted to the webhook, the
    write attempts on the state file and the GETs issued, in order. *)
Definition notifications (evs : list Event) : list (list N) :=
  omap (λ e, match e with EvNotify m => Some m | _ => None end) evs.

Definition posts (evs : list Event) : list (list N * list N) :=
  omap (λ e, match e with EvPost u b => Some (u, b) | _ => None end) evs.

Definition writes (evs : list Event) : list (list N * list N) :=
  omap (λ e, match e with EvWriteFile p d => Some (p, d) | _ => None end) evs.

Definition fetches (evs : list Event) : list (list N) :=
  omap (λ e, match e with EvFetch u => Some u | _ => None end) evs.

Definition body_reads (evs : list Event) : list (list N) :=
  omap (λ e, match e with EvText u => Some u | _ => None end) evs.

Definition waits (evs : list Event) : list Z :=
  omap (λ e, match e with EvWait d => Some d | _ => None end) evs.

Definition warnings (evs : list Event) : list (list N) :=
  omap (λ e, match e with EvWarn l => Some l | _ => None end) evs.

(** The text [readFileSync] returns, if it returns. *)
Definition readable_data (f : FileSystem) : option (list N) :=
  match file_content f with
  | Some data => if dir_exists f && file_readable f then Some data else None
  | None => None
  end.

(** The prior state a run starts from: what [loadPreviousState] returns. *)
Definition stored_state (f : FileSystem) : json :=
  match readable_data f with
  | Some data =>
      match JSON_parse data with
      | Some v => v
      | None => JObj []
      end
  | None => JObj []
  end.

(** Whether [writeFileSync] goes through. *)
Definition can_write (f : FileSystem) : bool := dir_exists f && file_writable f.

(** The error that ends a write of the state file, if one does: the
    directory is missing, the file cannot be opened, or the device fails
    while the text is written. *)
Definition write_error (path : list N) (f : FileSystem) : option JSError :=
  if negb (dir_exists f)
  then Some (fs_error "ENOENT: no such file or directory" "open" path)
  else if negb (file_openable f)
  then Some (fs_error "EACCES: permission denied" "open" path)
  else snd <$> write_fault f.

(** The warning [savePreviousState] logs for a write that failed. *)
Definition save_warnings (path : list N) (f : FileSystem) : list Event :=
  match write_error path f with
  | Some e => [EvWarn (js "Could not save state: " ++ err_message e)]
  | None => []
  end.

(** What the file holds after a write of [data] was attempted: its former
    content when it could not be opened, otherwise as much of [data] as was
    written. *)
Definition content_after_write (data : list N) (f : FileSystem) : option (list N) :=
  if dir_exists f && file_openable f then
    match write_fault f with
    | None => Some data
    | Some (written, _) => Some (take written data)
    end
  else file_content f.

Definition fs_after_write (data : list N) (f : FileSystem) : FileSystem :=
  mkFS (dir_exists f) (dir_creatable f) (file_readable f) (file_openable f)
    (write_fault f) (content_after_write data f).

(** The file system after [part_002] tried to create the directory. *)
Definition after_mkdir (f : FileSystem) : FileSystem :=
  mkFS (dir_exists f || dir_creatable f) (dir_creatable f) (file_readable f)
    (file_openable f) (write_fault f) (file_content f).

(** What one probe gets to see of the network: a response that completed
    before the abort timer (with its body when a body is to be read), or the
    error that ended the attempt. *)
Inductive Observation : Type :=
  | Completed (status elapsed : Z) (body : option (list N))
  | Failed (err : JSError).

(** What a target asks to be checked.  A setting JavaScript takes for false
    asks for nothing: [null] and [0] for the status, [null] and the empty
    string for the text. *)
Definition wanted_status (target : Target) : option Z :=
  match expectStatus target with
  | Some n => if decide (n = 0%Z) then None else Some n
  | None => None
  end.

Definition wanted_text (target : Target) : option (list N) :=
  match expectText target with
  | Some (c :: pattern) => Some (c :: pattern)
  | Some [] | None => None
  end.

(** The time after which a probe is aborted: [timeoutMs], or one millisecond
    when [timeoutMs] is not a delay a timer accepts. *)
Definition abort_after (target : Target) : Z :=
  if decide (1 ≤ timeoutMs target ≤ 2147483647)%Z then timeoutMs target else 1%Z.

Definition observe (target : Target) (w : World) : Observation :=
  match next_reply w (t_url target) with
  | NetFail e => Failed e
  | Response delay st body =>
      if (delay <? abort_after target)%Z then
        match wanted_text target with
        | None => Completed st delay None
        | Some _ =>
            match body with
            | BodyFail e => Failed e
            | BodyText bd text =>
                if (delay + bd <? abort_after target)%Z
                then Completed st delay (Some text)
                else Failed AbortError
            end
        end
      else Failed AbortError
  end.

(** The status check: equality with the expected status when one is set,
    the 2xx class otherwise. *)
Definition status_matches (target : Target) (st : Z) : Prop :=
  match wanted_status target with
  | Some n => st = n
  | None => (200 ≤ st ≤ 299)%Z
  end.

(** [pattern] occurs in [text] up to letter case: the lower-case form of the
    pattern is a substring of the lower-case form of the text. *)
Definition occurs_ignoring_case (w : World) (pattern text : list N) : Prop :=
  ∃ pre post, toLowerCase w text = pre ++ toLowerCase w pattern ++ post.

Definition body_matches (w : World) (target : Target) (body : option (list N)) : Prop :=
  match wanted_text target, body with
  | Some pattern, Some text => occurs_ignoring_case w pattern text
  | _, _ => True
  end.

(** Whether the probe reads the body: a pattern is configured and the head
    of a response arrived before the abort timer. *)
Definition reads_body (target : Target) (w : World) : bool :=
  match wanted_text target, next_reply w (t_url target) with
  | Some _, Response delay _ _ => (delay <? abort_after target)%Z
  | _, _ => false
  end.

(** The outcome record the specification prescribes for an observation. *)
Definition outcome_matches (w : World) (target : Target) (obs : Observation)
    (o : Outcome) : Prop :=
  name o = t_name target ∧ url o = t_url target ∧
  match obs with
  | Completed st elapsed body =>
      (up o = true ↔ status_matches target st ∧ body_matches w target body)
      ∧ status o = st ∧ ms o = Some elapsed
      ∧ slow o = bool_decide (elapsed > SLOW_THRESHOLD_MS)%Z ∧ error o = None
  | Failed e =>
      up o = false ∧ status o = 0%Z ∧ ms o = None ∧ slow o = false
      ∧ error o = Some (if decide (err_message e = []) then String_of_error e
                        else err_message e)
  end.

(** The events of one probe. *)
Definition probe_events (target : Target) (w : World) : list Event :=
  [EvSetTimeout (timeoutMs target); EvFetch (t_url target)]
  ++ (if reads_body target w then [EvText (t_url target)] else [])
  ++ [EvClearTimeout].

(** What a run leaves untouched while it probes. *)
Definition same_surroundings (w w' : World) : Prop :=
  fs w' = fs w ∧ webhook w' = webhook w
  ∧ toISOString w' = toISOString w ∧ toLocaleString w' = toLocaleString w.

(** The attempts of one retried probe: runs of [checkOnce] with exactly one
    cooldown between two consecutive runs and none after the last. *)
Inductive Attempts (target : Target) : World → list Outcome → World → Prop :=
  | attempts_last w o w' :
      checkOnce target w = (Ok o, w') →
      Attempts target w [o] w'
  | attempts_retry w o w1 w2 os w' :
      checkOnce target w = (Ok o, w1) →
      wait COOLDOWN_MS w1 = (Ok tt, w2) →
      Attempts target w2 os w' →
      Attempts target w (o :: os) w'.

(** The events probing can produce. *)
Definition probe_event (e : Event) : Prop :=
  match e with
  | EvSetTimeout _ | EvClearTimeout | EvFetch _ | EvText _ | EvWait _ => True
  | _ => False
  end.

(** A run that only probes: it extends the trace by probe events and leaves
    the file system, the webhook and the date formats alone. *)
Definition probes_only (w w' : World) : Prop :=
  same_surroundings w w'
  ∧ ∃ d, trace w' = trace w ++ d ∧ Forall probe_event d.

(** The world [savePreviousState] leaves. *)
Definition saved (path : list N) (state : State) (w : World) : World :=
  (savePreviousState path state w).2.

(** The events of [notify]. *)
Definition notify_events (env : Env) (message : list N) : list Event :=
  EvNotify message
  :: (if truthy_str (DISCORD_WEBHOOK_URL env)
      then [EvPost (DISCORD_WEBHOOK_URL env) (JSON_stringify_content message)]
      else []).

(** The events [Monitor.main] adds after the probing phase, when the change
    gate returned [changed]. *)
Definition monitor_tail_events (env : Env) (results : list Outcome)
    (w w1 : World) (changed : bool) : list Event :=
  [EvLog (toISOString w1 (clock w1) ++ js " " ++ [10] ++ join_with [10] (fmt <$> results));
   EvReadFile Monitor.STATE_FILE;
   EvWriteFile Monitor.STATE_FILE (JSON_stringify_state (currentState_of results))]
  ++ save_warnings Monitor.STATE_FILE (fs w1)
  ++ (if changed || forceReport env
      then notify_events env
             (Monitor.formatStatusMessage results (toLocaleString w1 (clock w1))
                (clock w1 - clock w))
           ++ [EvLog (if forceReport env
                      then js "Manual status report sent to Discord"
                      else js "Status notification sent to Discord")]
      else [EvLog (js "All services up and no changes detected - no notifications sent")]).

(** The transition the specification names for a known prior value. *)
Definition transition_kind (prior current : bool) : option Part001.ChangeType :=
  match prior, current with
  | true, false => Some Part001.went_down
  | false, true => Some Part001.recovered
  | _, _ => None
  end.

(** The same for [getChangedServices], whose kinds are [recovered] and
    [down]. *)
Definition changed_kind (prior current : bool) : option Part002.ChangeKind :=
  match prior, current with
  | true, false => Some Part002.down
  | false, true => Some Part002.recovered
  | _, _ => None
  end.

(** An outcome the prior state does not account for: its URL is absent, or
    recorded with the other boolean. *)
Definition unaccounted (m : gmap (list N) bool) (r : Outcome) : Prop :=
  m !! url r = None ∨ m !! url r = Some (negb (up r)).

(** The message [Part001.main] builds from the detected changes. *)
Definition changes_message (changes : list Part001.Change) : list N :=
  join_with [10; 10] (Part001.change_message <$> changes).

(** The events [Part001.main] adds after the probing phase, when
    [detectChanges] returned [changes]. *)
Definition part001_tail_events (env : Env) (results : list Outcome)
    (w1 : World) (changes : list Part001.Change) : list Event :=
  [EvLog (toISOString w1 (clock w1) ++ js " " ++ [10] ++ join_with [10] (fmt <$> results));
   EvReadFile Part001.STATE_FILE;
   EvWriteFile Part001.STATE_FILE (JSON_stringify_state (currentState_of results))]
  ++ save_warnings Part001.STATE_FILE (fs w1)
  ++ match changes with
     | _ :: _ => notify_events env (changes_message changes)
     | [] =>
         if forceReport env
         then notify_events env (Part001.current_status_report results)
              ++ [EvLog (js "Manual status report sent to Discord")]
         else [EvLog (js "No status changes detected - no notifications sent")]
     end.

(** ** Definitions used to state further properties *)

(** The shape of every outcome a probe returns: an error message goes with
    a down outcome of status 0 without latency; otherwise the latency is
    known, the slow flag follows it, and an up outcome has a non-zero
    status. *)
Definition outcome_wf (o : Outcome) : Prop :=
  match error o with
  | Some _ => up o = false ∧ status o = 0%Z ∧ ms o = None ∧ slow o = false
  | None =>
      ∃ elapsed, ms o = Some elapsed
                 ∧ slow o = bool_decide (elapsed > SLOW_THRESHOLD_MS)%Z
                 ∧ (up o = true → status o ≠ 0%Z)
  end.

(** The URL a variable of the environment configures, if any. *)
Definition configured (v : option (list N)) : option (list N) :=
  match v with
  | Some s => if truthy_str s then Some s else None
  | None => None
  end.

Definition is_null (v : json) : bool :=
  match v with
  | JNull => true
  | _ => false
  end.

(** The error raised by a property read on [null]. *)
Definition null_read_error (key : list N) : JSError :=
  TypeError (js "Cannot read properties of null (reading '" ++ key ++ js "')").

(** An outcome the prior state [prev] does not record with its own [up]. *)
Definition unrecorded (prev : json) (r : Outcome) : Prop :=
  get_prop prev (url r) ≠ Ok (Some (Data (JBool (up r)))).

Definition is_initial_down (c : Part001.Change) : bool :=
  match Part001.type c with
  | Part001.initial_down => true
  | _ => false
  end.

(** The outcomes agree on every URL they share. *)
Definition consistent (rs : list Outcome) : Prop :=
  ∀ r r', r ∈ rs → r' ∈ rs → url r = url r' → up r = up r'.

(** The world [Part002.savePreviousState] leaves. *)
Definition saved2 (env : Env) (state : State) (w : World) : World :=
  (Part002.savePreviousState env state w).2.

(** The events [Part002.main] adds after the probing phase, when
    [getChangedServices] returned [changed]. *)
Definition part002_tail_events (env : Env) (results : list Outcome)
    (w w1 : World) (changed : list Part002.ChangedService) : list Event :=
  [EvLog (toISOString w1 (clock w1) ++ js " " ++ [10] ++ join_with [10] (fmt <$> results));
   EvReadFile (Part002.STATE_FILE env);
   EvMkdir (dirname (Part002.STATE_FILE env));
   EvWriteFile (Part002.STATE_FILE env) (JSON_stringify_state (currentState_of results))]
  ++ save_warnings (Part002.STATE_FILE env) (after_mkdir (fs w1))
  ++ (if (0 <? length changed)%nat || forceReport env
      then notify_events env
             (Part002.formatStatusMessage results (toLocaleString w1 (clock w1))
                (clock w1 - clock w) (forceReport env) changed)
           ++ [EvLog (if forceReport env
                      then js "Manual status report sent to Discord"
                      else js "Status change notification sent to Discord")]
      else [EvLog (js "No status changes detected - no notifications sent")]).

(** The process exits recorded in a trace. *)
Definition exits (evs : list Event) : list Z :=
  omap (λ e, match e with EvExit c => Some c | _ => None end) evs.

Definition errors_logged (evs : list Event) : list (list N) :=
  omap (λ e, match e with EvError l => Some l | _ => None end) evs.

(** The message the failure handler of [src/monitor.mjs] and [part_002]
    sends, and the one of [part_001]. *)
Definition failure_message (e : JSError) (timestamp : list N) : list N :=
  cross_mark ++ js " **Monitor failed**: " ++ error_text e
  ++ [10; 10] ++ alarm_clock ++ js " **" ++ timestamp ++ js " ART**".

Definition part001_failure_message (e : JSError) : list N :=
  cross_mark ++ js " Monitor failed: " ++ error_text e.

(** The events of a failure handler that sends [message]. *)
Definition failure_events (env : Env) (e : JSError) (message : list N) : list Event :=
  EvError (js "Fatal: " ++ String_of_error e) :: notify_events env message ++ [EvExit 1].

(** The events [main] adds after the probing phase before the change gate
    runs. *)
Definition gate_prefix (path : list N) (results : list Outcome) (w1 : World) : list Event :=
  [EvLog (toISOString w1 (clock w1) ++ js " " ++ [10] ++ join_with [10] (fmt <$> results));
   EvReadFile path].

(** A run that cannot pass the change gate: the state file holds [null] and
    there is a target to look up. *)
Definition doomed (f : FileSystem) (targets : list Target) : bool :=
  is_null (stored_state f) && match targets with [] => false | _ :: _ => true end.

(** What a run that ended in the failure handler on error [e] leaves: from
    world [w] it reached [w'], sent [message] and nothing else, wrote nothing,
    logged one error, exited with code 1 as its last action, and left a file
    system on which the next run fails in the same way. *)
Definition crashed (targets : list Target) (w w' : World)
    (message : list N) : Prop :=
  let d := new_events w w' in
  fs w' = fs w
  ∧ writes d = []
  ∧ notifications d = [message]
  ∧ length (errors_logged d) = 1%nat
  ∧ last d = Some (EvExit 1)
  ∧ doomed (fs w') targets = true.

(** What a run that passed the change gate leaves: from world [w] it
    reached [w'] with exactly one write, of the outcomes' state to [path];
    [f] is the file system the write meets.  Where the write succeeds and
    the file can be read, the next run loads the state of these outcomes. *)
Definition persisted (path : list N) (f : FileSystem) (results : list Outcome)
    (w w' : World) : Prop :=
  let data := JSON_stringify_state (currentState_of results) in
  writes (new_events w w') = [(path, data)]
  ∧ fs w' = fs_after_write data f
  ∧ (can_write f = true → file_readable f = true →
     stored_state (fs w') = state_json (currentState_of results)).

(** The mapping a list of outcomes denotes: each URL with the [up] of the
    last outcome that carries it. *)
Definition recorded (results : list Outcome) : gmap (list N) bool :=
  foldl (λ st r, <[url r := up r]> st) ∅ results.

(** The key an assignment to a plain object cannot create. *)
Definition proto_key : list N := js "__proto__".

(** The GETs of a probing phase that tries each target the number of times
    [counts] gives for it. *)
Definition gets_per_target (targets : list Target) (counts : list nat)
    : list (list N) :=
  mjoin (zip_with (λ t n, replicate n (t_url t)) targets counts).

(** What the change gates look at in an outcome. *)
Definition verdict (r : Outcome) : list N * bool := (url r, up r).

(** Whether the headline of a [part_001] transition says the service is
    up. *)
Definition announces_up (c : Part001.Change) : bool :=
  match Part001.type c with
  | Part001.recovered => true
  | Part001.initial_down | Part001.went_down => false
  end.

(** A message that shows both the name and the URL of an outcome. *)
Definition shows (message : list N) (r : Outcome) : bool :=
  includes message (name r) && includes message (url r).

(** ** Sample configurations for the examples *)

(** A lower-casing that agrees with [String.prototype.toLowerCase] on text
    whose code units are all below U+0100, which is what the examples use. *)
Definition lower_latin1 (s : list N) : list N :=
  (λ c, if (65 <=? c) && (c <=? 90) then c + 32
        else if (192 <=? c) && (c <=? 222) && negb (c =? 215) then c + 32
        else c) <$> s.

Definition url_a : list N := js "https://a.example/health".
Definition url_b : list N := js "https://b.example/health".

(** Production and Development are configured, with or without the
    force-report flag. *)
Definition sample_env (force : bool) : Env :=
  mkEnv (Some url_a) None (Some url_b) (Some (js "https://hook.example/x"))
    (if force then Some (js "true") else None) None.

(** Nothing is configured. *)
Definition bare_env : Env := mkEnv None None None None None None.

(** Production answers 200 at once; Development fails, then times out, then
    answers 503. *)
Definition sample_net (u : list N) : list Reply :=
  if decide (u = url_a) then [Response 120 200 (BodyText 5 (js "ok"))]
  else if decide (u = url_b) then
    [NetFail (TypeError (js "fetch failed"));
     Response 7000 200 (BodyText 5 (js "ok"));
     Response 300 503 (BodyText 5 (js "unavailable"))]
  else [].

Definition sample_world (f : FileSystem) : World :=
  mkWorld sample_net [Some (TypeError (js "fetch failed"))] f 0
    (λ z, js "T" ++ num_to_js z) (λ z, js "L" ++ num_to_js z) lower_latin1 [].

(** A state file holding what a previous run saved, an absent one, and one
    in a location that cannot be written. *)
Definition fs_holding (state : State) : FileSystem :=
  mkFS true true true true None (Some (JSON_stringify_state state)).
Definition fs_fresh : FileSystem := mkFS true true true true None None.
Definition fs_readonly : FileSystem := mkFS true false true false None None.
Definition fs_no_parent : FileSystem := mkFS false true true true None None.

(** A device with no room left: the write of the state file fails after the
    first code unit. *)
Definition fs_full : FileSystem :=
  mkFS true true true true
    (Some (1%nat, mkError (js "Error") (js "ENOSPC: no space left on device, write")))
    (Some (js "{}")).

Definition outcome_a : Outcome :=
  mkOutcome (js "Production") url_a true 200 (Some 120%Z) false None.
Definition outcome_b : Outcome :=
  mkOutcome (js "Development") url_b false 503 (Some 300%Z) false None.

(** Both URL variables name the same endpoint, which answers the first GET
    and fails afterwards. *)
Definition twin_env : Env :=
  mkEnv (Some url_a) None (Some url_a) None None None.

Definition twin_world : World :=
  mkWorld (λ u, if decide (u = url_a) then [Response 120 200 (BodyText 5 (js "ok"))] else [])
    [] fs_fresh 0 (λ z, js "T" ++ num_to_js z) (λ z, js "L" ++ num_to_js z) lower_latin1 [].

(** A state file that holds the JSON text [null]. *)
Definition fs_null : FileSystem := mkFS true true true true None (Some (js "null")).

(** A target that expects the word "healthy" in the body, whatever the
    letter case, and the world that serves it. *)
Definition text_target : Target :=
  mkTarget (js "Docs") url_a (Some 200%Z) (Some (js "Healthy")) 8000.

Definition text_world : World :=
  mkWorld (λ u, if decide (u = url_a)
                then [Response 2600 200 (BodyText 40 (js "status: HEALTHY"))] else [])
    [] fs_fresh 0 (λ z, js "T" ++ num_to_js z) (λ z, js "L" ++ num_to_js z) lower_latin1 [].

(** One endpoint that answers 200 to two GETs in a row. *)
Definition steady_env : Env :=
  mkEnv (Some url_a) None None (Some (js "https://hook.example/x")) None None.

Definition steady_world : World :=
  mkWorld (λ u, if decide (u = url_a)
                then [Response 120 200 (BodyText 5 (js "ok"));
                      Response 90 200 (BodyText 5 (js "ok"))]
                else [])
    [None; None] fs_fresh 0
    (λ z, js "T" ++ num_to_js z) (λ z, js "L" ++ num_to_js z) lower_latin1 [].

(** * Properties *)

(** ** Reading a dictionary back through [get_prop] *)

Lemma member_lookup_members (l : list (list N * bool)) (k : list N) :
  NoDup l.*1 →
  member_lookup k (members_of l) = JBool <$> (list_to_map l : gmap (list N) bool) !! k.
Proof.
  induction l as [|[k' b] l IH]; intros Hnd; simpl.
  - by rewrite lookup_empty.
  - apply NoDup_cons in Hnd as [Hk' Hnd]. rewrite (IH Hnd).
    destruct ((list_to_map l : gmap (list N) bool) !! k) as [b'|] eqn:Hl; simpl.
    + assert (k' ≠ k) as Hne.
      { intros ->. apply Hk'. apply elem_of_list_to_map_2 in Hl.
        apply list_elem_of_fmap. by exists (k, b'). }
      by rewrite lookup_insert_ne, Hl.
    + destruct (decide (k' = k)) as [->|Hne].
      * by rewrite lookup_insert_eq.
      * by rewrite lookup_insert_ne, Hl.
Qed.

Lemma get_prop_obj (m : gmap (list N) bool) (k : list N) :
  get_prop (obj m) k = Ok (read_mapping m k).
Proof.
  unfold obj, read_mapping, object_inherits; cbn [get_prop].
  fold (members_of (map_to_list m)).
  rewrite member_lookup_members by apply NoDup_fst_map_to_list.
  rewrite list_to_map_to_list. by destruct (m !! k).
Qed.

Lemma member_lookup_own (state : State) (k : list N) :
  member_lookup k (members_of state) = JBool <$> own_value k state.
Proof.
  unfold own_value. induction state as [|[k' b] state IH]; [done|].
  cbn [members_of fmap list_fmap member_lookup]. fold (members_of state).
  rewrite IH. cbn [fst snd]. destruct (decide (k' = k)) as [->|Hne].
  - rewrite filter_cons_True by done.
    destruct (filter (λ kb : list N * bool, kb.1 = k) state) as [|x l] eqn:Hf; [done|].
    change (last ((k, b) :: x :: l)) with (last (x :: l)).
    destruct (last (x :: l)) eqn:E; [done|]. by apply last_None in E.
  - rewrite filter_cons_False by done.
    by destruct (last (filter (λ kb : list N * bool, kb.1 = k) state)).
Qed.

Lemma get_prop_state (state : State) (k : list N) :
  get_prop (state_json state) k = Ok (read_state state k).
Proof.
  unfold state_json, read_state, object_inherits; cbn [get_prop].
  fold (members_of state). rewrite member_lookup_own.
  by destruct (own_value k state).
Qed.

(** What is inherited is never a boolean. *)
Lemma inherited_builtin (chain : list (list (list N))) (k : list N) (v : Value) :
  inherited chain k = Some v → v = Builtin k.
Proof. unfold inherited. case_bool_decide; [by intros [= <-]|done]. Qed.

Lemma object_inherits_builtin (k : list N) (v : Value) :
  object_inherits k = Some v → v = Builtin k.
Proof. apply inherited_builtin. Qed.

(** ** Change detection *)

Lemma detect_loop_cons (r : Outcome) (rs : list Outcome) (prev : json)
    (acc : list Part001.Change) :
  Part001.detect_loop (r :: rs) prev acc =
  match get_prop prev (url r) with
  | Throw e => Throw e
  | Ok None =>
      Part001.detect_loop rs prev
        (if up r then acc else acc ++ [Part001.mkChange Part001.initial_down r])
  | Ok (Some v) =>
      Part001.detect_loop rs prev
        (if strict_neq_bool v (up r)
         then acc ++ [Part001.mkChange
                        (if up r then Part001.recovered else Part001.went_down) r]
         else acc)
  end.
Proof.
  simpl. destruct (get_prop prev (url r)) as [[v|]|]; simpl; [|by destruct (up r)|done].
  destruct (strict_neq_bool v (up r)); [by destruct (up r)|done].
Qed.

Lemma changed_loop_cons (r : Outcome) (rs : list Outcome) (prev : json)
    (acc : list Part002.ChangedService) :
  Part002.changed_loop (r :: rs) prev acc =
  match get_prop prev (url r) with
  | Throw e => Throw e
  | Ok None => Part002.changed_loop rs prev acc
  | Ok (Some v) =>
      Part002.changed_loop rs prev
        (if strict_neq_bool v (up r)
         then acc ++ [Part002.mkChanged r v
                        (if up r then Part002.recovered else Part002.down)]
         else acc)
  end.
Proof.
  simpl. destruct (get_prop prev (url r)) as [[v|]|]; simpl; [|done..].
  by destruct (strict_neq_bool v (up r)).
Qed.

Lemma detect_loop_spec (m : gmap (list N) bool) (rs : list Outcome)
    (acc : list Part001.Change) :
  Part001.detect_loop rs (obj m) acc = Ok (acc ++ omap (spec_transition m) rs).
Proof.
  revert acc. induction rs as [|r rs IH]; intros acc.
  - simpl. by rewrite app_nil_r.
  - rewrite detect_loop_cons, get_prop_obj. simpl omap.
    unfold spec_transition at 1, read_mapping.
    destruct (m !! url r) as [[]|];
      [| |destruct (object_inherits (url r)) as [v|] eqn:Hi;
          [apply object_inherits_builtin in Hi as ->|]];
      destruct (up r); simpl; rewrite IH, <- ?app_assoc; reflexivity.
Qed.

Lemma detectChanges_spec (m : gmap (list N) bool) (rs : list Outcome) :
  Part001.detectChanges rs (obj m) = Ok (omap (spec_transition m) rs).
Proof. apply detect_loop_spec. Qed.

Lemma changed_loop_spec (m : gmap (list N) bool) (rs : list Outcome)
    (acc : list Part002.ChangedService) :
  Part002.changed_loop rs (obj m) acc = Ok (acc ++ omap (spec_changed m) rs).
Proof.
  revert acc. induction rs as [|r rs IH]; intros acc.
  - simpl. by rewrite app_nil_r.
  - rewrite changed_loop_cons, get_prop_obj. simpl omap.
    unfold spec_changed at 1, read_mapping.
    destruct (m !! url r) as [[]|];
      [| |destruct (object_inherits (url r)) as [v|] eqn:Hi;
          [apply object_inherits_builtin in Hi as ->|]];
      destruct (up r); simpl; rewrite IH, <- ?app_assoc; reflexivity.
Qed.

Lemma getChangedServices_spec (m : gmap (list N) bool) (rs : list Outcome) :
  Part002.getChangedServices rs (obj m) = Ok (omap (spec_changed m) rs).
Proof. apply changed_loop_spec. Qed.

(** ** [JSON.parse] inverts [JSON.stringify] on dictionaries of booleans *)

Lemma hex_value_digit (n : N) : n < 16 → hex_value (hex_digit n) = Some n.
Proof.
  intros H. destruct n as [|p]; [reflexivity|].
  do 4 (destruct p as [p|p|]; try reflexivity); exfalso; lia.
Qed.

Lemma hex4_value (c : N) :
  c < 65536 →
  4096 * (c / 4096 mod 16) + 256 * (c / 256 mod 16) + 16 * (c / 16 mod 16) + c mod 16 = c.
Proof.
  intros H.
  replace (c / 256) with (c / 16 / 16)
    by (rewrite N.Div0.div_div; reflexivity).
  replace (c / 4096) with (c / 16 / 16 / 16)
    by (rewrite !N.Div0.div_div; reflexivity).
  assert (16 ≠ 0) as H16 by lia.
  pose proof (N.div_mod c 16 H16) as E1. pose proof (N.mod_lt c 16 H16) as L1.
  pose proof (N.div_mod (c / 16) 16 H16) as E2.
  pose proof (N.mod_lt (c / 16) 16 H16) as L2.
  pose proof (N.div_mod (c / 16 / 16) 16 H16) as E3.
  pose proof (N.mod_lt (c / 16 / 16) 16 H16) as L3.
  pose proof (N.div_mod (c / 16 / 16 / 16) 16 H16) as E4.
  pose proof (N.mod_lt (c / 16 / 16 / 16) 16 H16) as L4.
  generalize dependent (c / 16 / 16 / 16 mod 16).
  generalize dependent (c / 16 / 16 / 16 / 16).
  generalize dependent (c / 16 / 16 mod 16).
  generalize dependent (c / 16 / 16 / 16).
  generalize dependent (c / 16 mod 16).
  generalize dependent (c / 16 / 16).
  generalize dependent (c mod 16).
  generalize dependent (c / 16).
  intros. lia.
Qed.

Lemma parse_chars_escape (c : N) (t cs rest : list N) :
  c < 65536 →
  parse_chars t = Some (cs, rest) →
  parse_chars (unicode_escape c ++ t) = Some (c :: cs, rest).
Proof.
  intros Hc Ht. unfold unicode_escape.
  cbn -[N.div N.modulo N.mul N.add hex_digit hex_value].
  rewrite !hex_value_digit by (apply N.mod_lt; lia).
  by rewrite Ht, hex4_value.
Qed.

Lemma parse_chars_raw (c : N) (t cs rest : list N) :
  c ≠ 34 → c ≠ 92 → 32 ≤ c →
  parse_chars t = Some (cs, rest) →
  parse_chars (c :: t) = Some (c :: cs, rest).
Proof.
  intros H1 H2 H3 Ht. cbn [parse_chars].
  destruct (N.eqb_spec c 34); [done|]. destruct (N.eqb_spec c 92); [done|].
  destruct (N.ltb_spec c 32); [lia|]. by rewrite Ht.
Qed.

Lemma parse_chars_unit (c : N) (t cs rest : list N) :
  parse_chars t = Some (cs, rest) →
  parse_chars (quote_unit c ++ t) = Some (c :: cs, rest).
Proof.
  intros Ht. unfold quote_unit.
  repeat (match goal with
          | |- context [N.eqb c ?k] => destruct (N.eqb_spec c k) as [->|?]
          end; [cbn; by rewrite Ht|]).
  destruct (N.ltb_spec c 32).
  - apply parse_chars_escape; [lia|done].
  - by apply parse_chars_raw.
Qed.

Lemma parse_chars_quote_units (s rest : list N) :
  parse_chars (quote_units s ++ 34 :: rest) = Some (s, rest).
Proof.
  remember (length s) as n eqn:Hn.
  revert s Hn. induction (lt_wf n) as [n _ IH]; intros s ->.
  destruct s as [|c r]; [reflexivity|]. cbn [quote_units].
  destruct (is_high_surrogate c) eqn:Hh.
  - unfold is_high_surrogate in Hh. apply andb_prop in Hh as [Hh1 Hh2].
    apply N.leb_le in Hh1, Hh2.
    destruct r as [|d r'].
    + apply parse_chars_escape; [lia|reflexivity].
    + destruct (is_low_surrogate d) eqn:Hl.
      * unfold is_low_surrogate in Hl. apply andb_prop in Hl as [Hl1 Hl2].
        apply N.leb_le in Hl1, Hl2.
        rewrite <- !app_comm_cons.
        apply parse_chars_raw; [lia..|]. apply parse_chars_raw; [lia..|].
        eapply IH; [|reflexivity]. simpl; lia.
      * rewrite <- app_assoc. apply parse_chars_escape; [lia|].
        eapply IH; [|reflexivity]. simpl; lia.
  - destruct (is_low_surrogate c) eqn:Hl.
    + unfold is_low_surrogate in Hl. apply andb_prop in Hl as [Hl1 Hl2].
      apply N.leb_le in Hl1, Hl2.
      rewrite <- app_assoc. apply parse_chars_escape; [lia|].
      eapply IH; [|reflexivity]. simpl; lia.
    + rewrite <- app_assoc. apply parse_chars_unit.
      eapply IH; [|reflexivity]. simpl; lia.
Qed.

Lemma stringify_member_shape (k : list N) (b : bool) (t : list N) :
  stringify_member (k, b) ++ t =
  32 :: 32 :: 34 :: (quote_units k ++ 34 :: 58 :: 32 :: (bool_to_js b ++ t)).
Proof.
  unfold stringify_member, quote. simpl. rewrite <- !app_assoc. reflexivity.
Qed.

Lemma parse_members_step (f : nat) (k : list N) (b : bool) (t : list N) :
  parse_members (S (S f)) (stringify_member (k, b) ++ t) =
  match skip_ws t with
  | c3 :: r4 =>
      if c3 =? 125 then Some ([(k, JBool b)], r4)
      else if c3 =? 44 then
        match parse_members (S f) r4 with
        | Some (ms, rest) => Some ((k, JBool b) :: ms, rest)
        | None => None
        end
      else None
  | [] => None
  end.
Proof.
  rewrite stringify_member_shape.
  cbn [parse_members skip_ws]. change (is_ws 32) with true. cbn iota.
  change (is_ws 34) with false. cbn iota. change (34 =? 34) with true. cbn iota.
  rewrite parse_chars_quote_units.
  destruct b; reflexivity.
Qed.

Lemma parse_members_skip (f : nat) (t : list N) :
  parse_members f (10 :: t) = parse_members f t.
Proof. destruct f; reflexivity. Qed.

Lemma parse_members_render (kvs : list (list N * bool)) (f : nat) (t : list N) :
  kvs ≠ [] → (length kvs < f)%nat →
  parse_members f (join_with [44; 10] (stringify_member <$> kvs) ++ 10 :: 125 :: t)
  = Some (members_of kvs, t).
Proof.
  revert f. induction kvs as [|[k b] kvs IH]; intros f Hne Hlen; [done|].
  destruct f as [|[|f]]; [simpl in Hlen; lia..|].
  destruct kvs as [|kb kvs].
  - simpl join_with. rewrite parse_members_step. reflexivity.
  - change (join_with [44; 10] (stringify_member <$> (k, b) :: kb :: kvs))
      with (stringify_member (k, b) ++ [44; 10]
            ++ join_with [44; 10] (stringify_member <$> kb :: kvs)).
    rewrite <- !app_assoc. rewrite parse_members_step.
    cbn [app skip_ws]. change (is_ws 44) with false. cbn iota.
    change (44 =? 125) with false. change (44 =? 44) with true. cbn iota.
    rewrite parse_members_skip, IH; [reflexivity|done|simpl in *; lia].
Qed.

Lemma join_with_length (kvs : list (list N * bool)) :
  (length kvs ≤ length (join_with [44%N; 10%N] (stringify_member <$> kvs)))%nat.
Proof.
  induction kvs as [|[k b] [|kb kvs] IH]; [simpl; lia| |].
  - unfold stringify_member; simpl. lia.
  - change (join_with [44; 10] (stringify_member <$> (k, b) :: kb :: kvs))
      with (stringify_member (k, b) ++ [44; 10]
            ++ join_with [44; 10] (stringify_member <$> kb :: kvs)).
    rewrite !length_app. simpl in *. lia.
Qed.

(** Parsing the text written for an object gives its properties back, in
    the order written. *)
Lemma JSON_parse_stringify_state (state : State) :
  JSON_parse (JSON_stringify_state state) = Some (state_json state).
Proof.
  unfold JSON_parse, JSON_stringify_state, state_json. fold (members_of state).
  destruct state as [|kb kvs]; [reflexivity|].
  set (body := join_with [44; 10] (stringify_member <$> kb :: kvs)).
  assert (parse_members (length (js "{" ++ [10] ++ body ++ [10] ++ js "}"))
            (body ++ 10 :: 125 :: []) = Some (members_of (kb :: kvs), [])) as Hm.
  { apply parse_members_render; [done|].
    pose proof (join_with_length (kb :: kvs)). fold body in H.
    rewrite !length_app. simpl in *. lia. }
  assert (∃ t, body = 32 :: 32 :: 34 :: t) as [t Hb].
  { subst body. destruct kb as [k b].
    destruct kvs; simpl; unfold stringify_member, quote; simpl; eauto. }
  change (js "{" ++ [10] ++ body ++ [10] ++ js "}")
    with (123 :: 10 :: (body ++ 10 :: 125 :: [])) in *.
  cbn [parse_value skip_ws]. change (is_ws 123) with false. cbn iota.
  change (123 =? 123) with true. cbn iota.
  rewrite parse_members_skip, Hm. rewrite Hb. reflexivity.
Qed.

(** ** Running the effects *)

Lemma new_events_app (w w' : World) (d : list Event) :
  trace w' = trace w ++ d → new_events w w' = d.
Proof. intros H. unfold new_events. by rewrite H, drop_app_length. Qed.

Lemma loadPreviousState_eq (path : list N) (w : World) :
  loadPreviousState path w =
  (Ok (stored_state (fs w)), with_trace (trace w ++ [EvReadFile path]) w).
Proof.
  unfold loadPreviousState, try_catch, stored_state, readable_data.
  unfold mbind, M_bind, readFileSync, JSON_parse_M.
  destruct (file_content (fs w)) as [data|]; [|reflexivity].
  destruct (dir_exists (fs w) && file_readable (fs w)); [|reflexivity].
  destruct (JSON_parse data); reflexivity.
Qed.

Lemma saved_eq (path : list N) (state : State) (w : World) :
  savePreviousState path state w = (Ok tt, saved path state w).
Proof.
  unfold saved, savePreviousState, try_catch, writeFileSync.
  destruct (dir_exists (fs w)), (file_openable (fs w)), (write_fault (fs w)) as [[n e]|];
    reflexivity.
Qed.

Lemma saved_world (path : list N) (state : State) (w : World) :
  let data := JSON_stringify_state state in
  trace (saved path state w) =
    trace w ++ EvWriteFile path data :: save_warnings path (fs w)
  ∧ fs (saved path state w) = fs_after_write data (fs w)
  ∧ webhook (saved path state w) = webhook w
  ∧ clock (saved path state w) = clock w
  ∧ toLocaleString (saved path state w) = toLocaleString w.
Proof.
  intros data. subst data.
  unfold saved, savePreviousState, try_catch, writeFileSync, console_warn, emit,
    save_warnings, write_error, fs_after_write, content_after_write.
  destruct (fs w) as [de dc fr fo wf fc] eqn:Hfs.
  cbn [dir_exists dir_creatable file_readable file_openable write_fault file_content].
  destruct de, fo, wf as [[n e]|]; cbn; rewrite ?Hfs, <- ?app_assoc; by auto.
Qed.

Lemma notify_eq (env : Env) (message : list N) (w : World) :
  notify env message w =
  (Ok tt,
   if truthy_str (DISCORD_WEBHOOK_URL env)
   then with_webhook (tail (webhook w))
          (with_trace (trace w ++ [EvNotify message;
                                   EvPost (DISCORD_WEBHOOK_URL env)
                                     (JSON_stringify_content message)]) w)
   else with_trace (trace w ++ [EvNotify message]) w).
Proof.
  unfold notify, mbind, M_bind, emit.
  destruct (truthy_str (DISCORD_WEBHOOK_URL env)); [|reflexivity].
  unfold try_catch, fetch_post, with_webhook, with_trace; simpl.
  rewrite <- app_assoc.
  destruct (webhook w) as [|[e|] h]; reflexivity.
Qed.

(** ** Substring search *)

Lemma starts_with_spec (p s : list N) :
  starts_with p s = true ↔ ∃ post, s = p ++ post.
Proof.
  revert s. induction p as [|a p IH]; intros s; simpl.
  - split; eauto.
  - destruct s as [|b s]; simpl.
    + split; [done|]. intros [post ?]; discriminate.
    + rewrite andb_true_iff, IH, N.eqb_eq. split.
      * intros [-> [post ->]]. eauto.
      * intros [post [= -> ->]]. eauto.
Qed.

Lemma includes_spec (s p : list N) :
  includes s p = true ↔ ∃ pre post, s = pre ++ p ++ post.
Proof.
  induction s as [|c s IH]; simpl.
  - rewrite orb_false_r, starts_with_spec. split.
    + intros [post H]. by exists [], post.
    + intros (pre & post & H). symmetry in H.
      apply app_eq_nil in H as [-> H]. apply app_eq_nil in H as [-> ->]. by exists [].
  - rewrite orb_true_iff, starts_with_spec, IH. split.
    + intros [[post H]|(pre & post & ->)].
      * by exists [], post.
      * by exists (c :: pre), post.
    + intros ([|c' pre] & post & H).
      * left. by exists post.
      * right. injection H as -> ->. by exists pre, post.
Qed.

(** The test of [checkOnce] on the body is a search for the lower-case
    pattern in the lower-case text. *)
Lemma includes_lower_spec (w : World) (text pattern : list N) :
  includes (toLowerCase w text) (toLowerCase w pattern) = true
  ↔ occurs_ignoring_case w pattern text.
Proof. apply includes_spec. Qed.

(** ** One probe *)

(** What [checkOnce] tests is what the target asks for. *)
Lemma status_expected_wanted (target : Target) :
  status_expected target = wanted_status target.
Proof.
  unfold status_expected, wanted_status. destruct (expectStatus target) as [n|]; [|done].
  destruct (Z.eqb_spec n 0); by case_decide.
Qed.

Lemma text_expected_wanted (target : Target) :
  text_expected target = wanted_text target.
Proof.
  unfold text_expected, wanted_text. by destruct (expectText target) as [[|c p]|].
Qed.

Lemma timer_delay_abort_after (target : Target) :
  (if (timeoutMs target <? 1)%Z || (2147483647 <? timeoutMs target)%Z
   then 1%Z else timeoutMs target) = abort_after target.
Proof.
  unfold abort_after.
  destruct (Z.ltb_spec (timeoutMs target) 1), (Z.ltb_spec 2147483647 (timeoutMs target));
    case_decide; simpl; lia.
Qed.

Lemma status_matches_decide (target : Target) (st : Z) :
  match status_expected target with
  | Some n => (st =? n)%Z
  | None => ((200 <=? st) && (st <=? 299))%Z
  end = true ↔ status_matches target st.
Proof.
  unfold status_matches. rewrite status_expected_wanted.
  destruct (wanted_status target).
  - apply Z.eqb_eq.
  - rewrite andb_true_iff, !Z.leb_le. tauto.
Qed.

Lemma error_text_spec (e : JSError) :
  error_text e =
  if decide (err_message e = []) then String_of_error e else err_message e.
Proof.
  unfold error_text, truthy_str. case_bool_decide; by case_decide.
Qed.

(** The probe returned: what is left is to compare the outcome and the world
    with what the observation prescribes. *)
Ltac probe_done :=
  eexists _, _; split; [reflexivity|]; unfold outcome_matches;
  cbn [name url up status ms slow error trace fs webhook toISOString
       toLocaleString with_trace with_clock with_net consume_reply].

Lemma checkOnce_run (target : Target) (w : World) :
  ∃ o w',
    checkOnce target w = (Ok o, w')
    ∧ outcome_matches w target (observe target w) o
    ∧ trace w' = trace w ++ probe_events target w
    ∧ same_surroundings w w'.
Proof.
  pose proof (status_matches_decide target) as Hst.
  unfold checkOnce, setTimeout_abort, now, try_finally, try_catch, fetch,
    clearTimeout, emit, observe, probe_events, reads_body,
    same_surroundings, String_toLowerCase.
  unfold mbind, M_bind, mret, M_ret. simpl.
  rewrite timer_delay_abort_after, text_expected_wanted.
  set (limit := abort_after target) in *.
  change (next_reply (with_trace (trace w ++ [EvSetTimeout (timeoutMs target)]) w)
            (t_url target)) with (next_reply w (t_url target)).
  destruct (next_reply w (t_url target)) as [delay st body|e]; simpl.
  2:{ probe_done.
      rewrite <- !app_assoc, <- error_text_spec.
      destruct (wanted_text target); simpl; auto 10. }
  replace (clock w + delay <? clock w + limit)%Z
    with (delay <? limit)%Z
    by (destruct (Z.ltb_spec delay limit);
        destruct (Z.ltb_spec (clock w + delay) (clock w + limit)); lia).
  destruct (delay <? limit)%Z eqn:Hd; simpl.
  2:{ probe_done.
      rewrite <- !app_assoc, <- error_text_spec.
      destruct (wanted_text target); simpl; auto 10. }
  replace (clock w + delay - clock w)%Z with delay by lia.
  specialize (Hst st).
  unfold res_ok. simpl.
  destruct (wanted_text target) as [pattern|] eqn:Hp; simpl.
  2:{ probe_done. rewrite <- !app_assoc.
      split_and!; try done.
      - rewrite andb_true_r, Hst. unfold body_matches. rewrite Hp. tauto.
      - unfold SLOW_THRESHOLD_MS.
        destruct (Z.gtb_spec delay 2500); [by rewrite bool_decide_eq_true_2 by lia|].
        by rewrite bool_decide_eq_false_2 by lia. }
  unfold res_text; simpl.
  destruct body as [bd text|e]; simpl.
  2:{ probe_done.
      rewrite <- !app_assoc, <- error_text_spec. auto 10. }
  replace (clock w + delay + bd <? clock w + limit)%Z
    with (delay + bd <? limit)%Z
    by (destruct (Z.ltb_spec (delay + bd) limit);
        destruct (Z.ltb_spec (clock w + delay + bd) (clock w + limit)); lia).
  destruct (delay + bd <? limit)%Z; simpl.
  2:{ probe_done.
      rewrite <- !app_assoc, <- error_text_spec. auto 10. }
  probe_done. rewrite <- !app_assoc.
  split_and!; try done.
  - rewrite andb_true_iff, Hst. unfold body_matches. rewrite Hp.
    by rewrite includes_lower_spec.
  - unfold SLOW_THRESHOLD_MS.
    destruct (Z.gtb_spec delay 2500); [by rewrite bool_decide_eq_true_2 by lia|].
    by rewrite bool_decide_eq_false_2 by lia.
Qed.

(** ** The retry loop *)

Lemma probes_only_refl (w : World) : probes_only w w.
Proof.
  split; [by repeat split|]. exists []. by rewrite app_nil_r.
Qed.

Lemma probes_only_trans (w1 w2 w3 : World) :
  probes_only w1 w2 → probes_only w2 w3 → probes_only w1 w3.
Proof.
  intros [(? & ? & ? & ?) (d1 & E1 & F1)] [(? & ? & ? & ?) (d2 & E2 & F2)].
  split; [repeat split; congruence|].
  exists (d1 ++ d2). rewrite E2, E1, app_assoc. split; [done|].
  by apply Forall_app.
Qed.

Lemma checkOnce_probes_only (target : Target) (w w' : World) (o : Outcome) :
  checkOnce target w = (Ok o, w') → probes_only w w'.
Proof.
  intros H. destruct (checkOnce_run target w) as (o' & w'' & H' & _ & Ht & Hs).
  rewrite H in H'. injection H' as -> ->.
  split; [done|]. eexists; split; [done|].
  unfold probe_events. destruct (reads_body target w); repeat constructor.
Qed.

Lemma wait_probes_only (d : Z) (w : World) : probes_only w (wait d w).2.
Proof.
  split; [by repeat split|]. exists [EvWait d]. split; [done|]. by repeat constructor.
Qed.

Lemma Attempts_probes_only (target : Target) (w w' : World) (os : list Outcome) :
  Attempts target w os w' → probes_only w w'.
Proof.
  induction 1 as [w o w' H|w o w1 w2 os w' H Hw _ IH].
  - by eapply checkOnce_probes_only.
  - eapply probes_only_trans; [by eapply checkOnce_probes_only|].
    eapply probes_only_trans; [|exact IH].
    pose proof (wait_probes_only COOLDOWN_MS w1) as Hp. by rewrite Hw in Hp.
Qed.

(** The GETs and the cooldowns on the trace of a sequence of attempts. *)
Lemma Attempts_trace (target : Target) (w w' : World) (os : list Outcome) :
  Attempts target w os w' →
  ∃ d, trace w' = trace w ++ d
       ∧ fetches d = replicate (length os) (t_url target)
       ∧ waits d = replicate (length os - 1) COOLDOWN_MS.
Proof.
  assert (∀ w0, fetches (probe_events target w0) = [t_url target]
                ∧ waits (probe_events target w0) = []) as Hpe.
  { intros w0. unfold probe_events. by destruct (reads_body target w0). }
  induction 1 as [w o w' H|w o w1 w2 os w' H Hw Hat IH].
  - destruct (checkOnce_run target w) as (o' & w'' & H' & _ & Ht & _).
    rewrite H in H'. injection H' as -> ->.
    exists (probe_events target w). split; [done|]. apply Hpe.
  - destruct (checkOnce_run target w) as (o' & w'' & H' & _ & Ht & _).
    rewrite H in H'. injection H' as -> ->.
    destruct IH as (d & Hd & Hf & Hwt).
    injection Hw as <-. simpl in Hd. rewrite Ht in Hd.
    exists (probe_events target w ++ [EvWait COOLDOWN_MS] ++ d).
    split; [by rewrite Hd, <- !app_assoc|].
    unfold fetches, waits in *. rewrite !omap_app, Hf, Hwt.
    destruct (Hpe w) as [-> ->]. simpl.
    split; [done|]. inversion Hat; simpl; by rewrite ?Nat.sub_0_r.
Qed.

Lemma retry_from_run (target : Target) (fuel : nat) (i : Z) (w : World) :
  (i + Z.of_nat fuel = RETRIES)%Z →
  ∃ os o w',
    retry_from fuel i target w = (Ok o, w')
    ∧ Attempts target w os w'
    ∧ (length os ≤ fuel + 1)%nat
    ∧ last os = Some o
    ∧ Forall (λ o', up o' = false) (removelast os)
    ∧ (up o = false → length os = (fuel + 1)%nat).
Proof.
  revert i w. induction fuel as [|fuel IH]; intros i w Hi;
    destruct (checkOnce_run target w) as (o1 & w1 & H1 & _);
    cbn [retry_from]; unfold mbind, M_bind; rewrite H1;
    destruct (up o1) eqn:Hup.
  - exists [o1], o1, w1. split_and!;
      [done|by apply attempts_last|simpl; lia|done|by apply Forall_nil|first [done|congruence]].
  - replace (i <? RETRIES)%Z with false by (symmetry; apply Z.ltb_ge; lia).
    replace (i + 1 <=? RETRIES)%Z with false by (symmetry; apply Z.leb_gt; lia).
    exists [o1], o1, w1. split_and!;
      [done|by apply attempts_last|simpl; lia|done|by apply Forall_nil|first [done|congruence]].
  - exists [o1], o1, w1. split_and!;
      [done|by apply attempts_last|simpl; lia|done|by apply Forall_nil|first [done|congruence]].
  - replace (i <? RETRIES)%Z with true by (symmetry; apply Z.ltb_lt; lia).
    replace (i + 1 <=? RETRIES)%Z with true by (symmetry; apply Z.leb_le; lia).
    set (w2 := (wait COOLDOWN_MS w1).2).
    assert (wait COOLDOWN_MS w1 = (Ok tt, w2)) as Hw by reflexivity.
    destruct (IH (i + 1)%Z w2) as (os & o & w' & Hr & Ha & Hl & Hlast & Hf & Hall);
      [lia|].
    exists (o1 :: os), o, w'. rewrite Hw, Hr.
    assert (os ≠ []) as Hne by (by inversion Ha).
    split_and!.
    + done.
    + by eapply attempts_retry.
    + simpl; lia.
    + by destruct os.
    + destruct os; [done|]. simpl. by constructor.
    + intros Ho. simpl. by rewrite (Hall Ho).
Qed.

(** C3. [checkWithRetries] always returns an outcome and never throws.  It
    makes between one and [RETRIES + 1] attempts; every attempt but the last
    found the target down; the outcome returned is that of the last attempt,
    which is up or is attempt number [RETRIES + 1]; one cooldown of
    [COOLDOWN_MS] is waited between two consecutive attempts and none after
    the last one, as the GETs and the waits on the trace show. *)
Theorem checkWithRetries_attempts (target : Target) (w : World) :
  ∃ os o w',
    checkWithRetries target w = (Ok o, w')
    ∧ Attempts target w os w'
    ∧ (1 ≤ length os ≤ Z.to_nat RETRIES + 1)%nat
    ∧ last os = Some o
    ∧ Forall (λ o', up o' = false) (removelast os)
    ∧ (up o = true ∨ length os = (Z.to_nat RETRIES + 1)%nat)
    ∧ fetches (new_events w w') = replicate (length os) (t_url target)
    ∧ waits (new_events w w') = replicate (length os - 1) COOLDOWN_MS.
Proof.
  destruct (retry_from_run target (Z.to_nat RETRIES) 0 w)
    as (os & o & w' & Hr & Ha & Hl & Hlast & Hf & Hall); [reflexivity|].
  exists os, o, w'. destruct (Attempts_trace _ _ _ _ Ha) as (d & Hd & Hfe & Hwa).
  rewrite (new_events_app _ _ _ Hd).
  split_and!; try done.
  - destruct os; [done|simpl; lia].
  - destruct (up o); [by left|right; by apply Hall].
Qed.

Lemma Attempts_fields (target : Target) (w w' : World) (os : list Outcome) :
  Attempts target w os w' →
  Forall (λ o, name o = t_name target ∧ url o = t_url target) os.
Proof.
  induction 1 as [w o w' H|w o w1 w2 os w' H Hw _ IH];
    destruct (checkOnce_run target w) as (o' & w'' & H' & (? & ? & _) & _);
    rewrite H in H'; injection H' as -> ->; by repeat constructor.
Qed.

Lemma checkWithRetries_run (target : Target) (w : World) :
  ∃ o w',
    checkWithRetries target w = (Ok o, w')
    ∧ probes_only w w' ∧ url o = t_url target.
Proof.
  destruct (retry_from_run target (Z.to_nat RETRIES) 0 w)
    as (os & o & w' & Hr & Ha & _ & Hlast & _); [reflexivity|].
  exists o, w'. split_and!; [done|by eapply Attempts_probes_only|].
  apply Attempts_fields in Ha. apply last_Some_elem_of in Hlast.
  rewrite Forall_forall in Ha. by apply Ha.
Qed.

(** The probing phase of [main]. *)
Lemma probe_all_run (targets : list Target) (w : World) :
  ∃ results w',
    mapM checkWithRetries targets w = (Ok results, w')
    ∧ probes_only w w' ∧ url <$> results = t_url <$> targets.
Proof.
  revert w. induction targets as [|t ts IH]; intros w.
  - exists [], w. split_and!; [done|apply probes_only_refl|done].
  - destruct (checkWithRetries_run t w) as (o & w1 & Ho & Hp1 & Hu).
    destruct (IH w1) as (rs & w2 & Hrs & Hp2 & Hus).
    exists (o :: rs), w2. split_and!.
    + cbn [mapM]. unfold mbind, M_bind. by rewrite Ho, Hrs.
    + by eapply probes_only_trans.
    + rewrite !fmap_cons. by rewrite Hu, Hus.
Qed.

(** ** The orchestration of [src/monitor.mjs] *)

Lemma bind_ok {A B} (m : M A) (f : A → M B) (w w' : World) (a : A) :
  m w = (Ok a, w') → (m ≫= f) w = f a w'.
Proof. intros H. unfold mbind, M_bind. by rewrite H. Qed.

Lemma log_summary_eq (results : list Outcome) (w : World) :
  log_summary results w =
  (Ok tt, with_trace (trace w ++ [EvLog (toISOString w (clock w) ++ js " " ++ [10]
                                        ++ join_with [10] (fmt <$> results))]) w).
Proof. reflexivity. Qed.

Lemma saved_trace (path : list N) (state : State) (w : World) :
  trace (saved path state w) =
  trace w ++ EvWriteFile path (JSON_stringify_state state) :: save_warnings path (fs w).
Proof. apply saved_world. Qed.

Lemma saved_fs (path : list N) (state : State) (w : World) :
  fs (saved path state w) = fs_after_write (JSON_stringify_state state) (fs w).
Proof. apply saved_world. Qed.

Lemma saved_content (path : list N) (state : State) (w : World) :
  file_content (fs (saved path state w)) =
  content_after_write (JSON_stringify_state state) (fs w).
Proof. by rewrite saved_fs. Qed.

Lemma saved_surroundings (path : list N) (state : State) (w : World) :
  webhook (saved path state w) = webhook w
  ∧ clock (saved path state w) = clock w
  ∧ toLocaleString (saved path state w) = toLocaleString w.
Proof. apply saved_world. Qed.

(** A write goes through exactly when no error ends it. *)
Lemma can_write_no_error (path : list N) (f : FileSystem) :
  can_write f = true ↔ write_error path f = None.
Proof.
  unfold can_write, file_writable, write_error.
  destruct (dir_exists f), (file_openable f), (write_fault f) as [[n e]|]; simpl;
    split; (done || discriminate).
Qed.

Lemma content_after_good_write (data : list N) (f : FileSystem) :
  can_write f = true → content_after_write data f = Some data.
Proof.
  unfold can_write, file_writable, content_after_write.
  by destruct (dir_exists f), (file_openable f), (write_fault f) as [[n e]|].
Qed.

Lemma notify_run (env : Env) (message : list N) (w : World) :
  ∃ w', notify env message w = (Ok tt, w')
        ∧ trace w' = trace w ++ notify_events env message
        ∧ fs w' = fs w.
Proof.
  rewrite notify_eq. eexists; split; [reflexivity|]. unfold notify_events.
  by destruct (truthy_str (DISCORD_WEBHOOK_URL env)).
Qed.

Lemma monitor_main_run (env : Env) (w w1 : World) (results : list Outcome)
    (changed : bool) :
  mapM checkWithRetries (Monitor.TARGETS env) w = (Ok results, w1) →
  Monitor.hasChanges results (stored_state (fs w1)) = Ok changed →
  ∃ w',
    Monitor.main env w = (Ok tt, w')
    ∧ trace w' = trace w1 ++ monitor_tail_events env results w w1 changed
    ∧ fs w' = fs_after_write (JSON_stringify_state (currentState_of results)) (fs w1).
Proof.
  intros Hprobe Hgate. unfold Monitor.main.
  erewrite (bind_ok now) by reflexivity.
  erewrite bind_ok by exact Hprobe.
  erewrite (bind_ok now) by reflexivity.
  erewrite bind_ok by apply log_summary_eq.
  erewrite bind_ok by apply loadPreviousState_eq.
  cbn [fs with_trace]. rewrite Hgate.
  erewrite (bind_ok (lift_result _)) by reflexivity.
  erewrite bind_ok by apply saved_eq.
  set (w3 := with_trace _ (with_trace _ w1)).
  set (w4 := saved _ _ w3).
  erewrite (bind_ok date_locale) by reflexivity.
  destruct (saved_surroundings Monitor.STATE_FILE (currentState_of results) w3)
    as (Hh & Hc & Hl).
  fold w4 in Hh, Hc, Hl. rewrite Hl, Hc. cbn [toLocaleString clock w3 with_trace].
  pose proof (saved_trace Monitor.STATE_FILE (currentState_of results) w3) as Ht.
  pose proof (saved_fs Monitor.STATE_FILE (currentState_of results) w3) as Hf.
  fold w4 in Ht, Hf. cbn [trace fs w3 with_trace] in Ht, Hf.
  unfold monitor_tail_events.
  destruct (changed || forceReport env).
  - destruct (notify_run env
                (Monitor.formatStatusMessage results (toLocaleString w1 (clock w1))
                   (clock w1 - clock w)) w4) as (w5 & Hn & Hnt & Hnf).
    erewrite bind_ok by exact Hn.
    destruct (forceReport env);
      (eexists; split; [reflexivity|]; cbn [trace fs console_log emit with_trace];
       split; [rewrite Hnt, Ht, <- !app_assoc; reflexivity|by rewrite Hnf, Hf]).
  - eexists. split; [reflexivity|]. cbn [trace fs console_log emit with_trace].
    split; [|done]. rewrite Ht, <- !app_assoc. reflexivity.
Qed.

(** ** Claims on change detection *)

Lemma omap_cons_eq {A B} (f : A → option B) (x : A) (l : list A) :
  omap f (x :: l) = match f x with Some y => y :: omap f l | None => omap f l end.
Proof. reflexivity. Qed.

Lemma object_inherits_spec (k : list N) :
  object_inherits k = None ↔ k ∉ Object_prototype.
Proof.
  unfold object_inherits, inherited. cbn [mjoin list_join app].
  rewrite app_nil_r. case_bool_decide; split; (done || tauto).
Qed.

(** C1, as amended.  For an outcome whose URL is absent from the prior-state
    mapping and is not the name of a property that every object inherits
    (one of [Object_prototype]), wherever it stands among the outcomes:
    [detectChanges] adds no transition for it when it is up and exactly one
    [initial_down] transition when it is down; [getChangedServices] adds no
    entry for it, up or down. *)
Theorem absent_url_transitions (m : gmap (list N) bool)
    (before after : list Outcome) (r : Outcome) :
  m !! url r = None →
  url r ∉ Object_prototype →
  (∃ cs1 cs2,
     Part001.detectChanges before (obj m) = Ok cs1
     ∧ Part001.detectChanges after (obj m) = Ok cs2
     ∧ Part001.detectChanges (before ++ r :: after) (obj m) =
       Ok (cs1
           ++ (if up r then [] else [Part001.mkChange Part001.initial_down r])
           ++ cs2))
  ∧ (∃ cs1 cs2,
       Part002.getChangedServices before (obj m) = Ok cs1
       ∧ Part002.getChangedServices after (obj m) = Ok cs2
       ∧ Part002.getChangedServices (before ++ r :: after) (obj m) = Ok (cs1 ++ cs2)).
Proof.
  intros Habs Hown. apply object_inherits_spec in Hown. split.
  - exists (omap (spec_transition m) before), (omap (spec_transition m) after).
    rewrite !detectChanges_spec, omap_app. split_and!; try done.
    rewrite omap_cons_eq. unfold spec_transition at 2. rewrite Habs, Hown.
    by destruct (up r).
  - exists (omap (spec_changed m) before), (omap (spec_changed m) after).
    rewrite !getChangedServices_spec, omap_app. split_and!; try done.
    rewrite omap_cons_eq. unfold spec_changed at 2. by rewrite Habs, Hown.
Qed.

Lemma absent_url_transitions_witness :
  let r := mkOutcome (js "Production") (js "https://a.example") false 0 None false
             (Some (js "fetch failed")) in
  let m : gmap (list N) bool := {[ js "https://b.example" := true ]} in
  m !! url r = None
  ∧ (url r ∉ Object_prototype)
  ∧ Part001.detectChanges [r] (obj m) = Ok [Part001.mkChange Part001.initial_down r]
  ∧ Part002.getChangedServices [r] (obj m) = Ok [].
Proof.
  intros r m.
  assert (m !! url r = None) as Habs by (vm_compute; reflexivity).
  assert (url r ∉ Object_prototype) as Hown
    by (apply object_inherits_spec; vm_compute; reflexivity).
  destruct (absent_url_transitions m [] [] r Habs Hown)
    as ((a1 & a2 & Ha1 & Ha2 & Ha) & (b1 & b2 & Hb1 & Hb2 & Hb)).
  injection Ha1 as <-. injection Ha2 as <-. injection Hb1 as <-. injection Hb2 as <-.
  split; [exact Habs|]. split; [exact Hown|]. split; [exact Ha|exact Hb].
Defined.

(** A URL that is the name of an inherited property counts as known: with
    no prior state at all, [detectChanges] reports that it went down and
    [getChangedServices] reports it too. *)
Example inherited_name_is_prior_state :
  let r := mkOutcome (js "Production") (js "constructor") false 0 None false
             (Some (js "fetch failed")) in
  Part001.detectChanges [r] (JObj []) = Ok [Part001.mkChange Part001.went_down r]
  ∧ Part002.getChangedServices [r] (JObj [])
    = Ok [Part002.mkChanged r (Builtin (js "constructor")) Part002.down].
Proof. vm_compute. auto. Qed.

(** Counterexample to C1 as stated: [getChangedServices] produces no
    [initialDown] transition for a target that is down and has no prior
    state. *)
Lemma getChangedServices_skips_initial_down :
  let r := mkOutcome (js "Production") (js "https://a.example") false 500 (Some 12%Z)
             false None in
  (∅ : gmap (list N) bool) !! url r = None
  ∧ up r = false
  ∧ Part002.getChangedServices [r] (obj ∅) = Ok [].
Proof. vm_compute. auto. Qed.

(** C2.  For an outcome whose URL is present in the prior-state mapping,
    wherever it stands among the outcomes, the change detector adds exactly
    one [went_down] transition when the prior value is [true] and the outcome
    is down, exactly one [recovered] transition when the prior value is
    [false] and the outcome is up, and nothing when the prior value equals
    [up]; [getChangedServices] does the same with its kinds [down] and
    [recovered].  The transitions of the outcomes before it come first and
    those of the outcomes after it come last: the result follows the order of
    the outcomes. *)
Theorem present_url_transitions (m : gmap (list N) bool)
    (before after : list Outcome) (r : Outcome) (prior : bool) :
  m !! url r = Some prior →
  (∃ cs1 cs2,
     Part001.detectChanges before (obj m) = Ok cs1
     ∧ Part001.detectChanges after (obj m) = Ok cs2
     ∧ Part001.detectChanges (before ++ r :: after) (obj m) =
       Ok (cs1
           ++ match transition_kind prior (up r) with
              | Some kind => [Part001.mkChange kind r]
              | None => []
              end
           ++ cs2))
  ∧ (∃ cs1 cs2,
       Part002.getChangedServices before (obj m) = Ok cs1
       ∧ Part002.getChangedServices after (obj m) = Ok cs2
       ∧ Part002.getChangedServices (before ++ r :: after) (obj m) =
         Ok (cs1
             ++ match changed_kind prior (up r) with
                | Some kind => [Part002.mkChanged r (JBool prior) kind]
                | None => []
                end
             ++ cs2)).
Proof.
  intros Hp. split.
  - exists (omap (spec_transition m) before), (omap (spec_transition m) after).
    rewrite !detectChanges_spec, omap_app. split_and!; try done.
    rewrite omap_cons_eq. unfold spec_transition at 2. rewrite Hp.
    by destruct prior, (up r).
  - exists (omap (spec_changed m) before), (omap (spec_changed m) after).
    rewrite !getChangedServices_spec, omap_app. split_and!; try done.
    rewrite omap_cons_eq. unfold spec_changed at 2. rewrite Hp.
    by destruct prior, (up r).
Qed.

Lemma present_url_transitions_witness :
  let a := mkOutcome (js "Production") (js "https://a.example") false 500 (Some 20%Z)
             false None in
  let b := mkOutcome (js "Staging") (js "https://b.example") true 200 (Some 35%Z)
             false None in
  let c := mkOutcome (js "Development") (js "https://c.example") true 200 (Some 8%Z)
             false None in
  let m : gmap (list N) bool :=
    {[ js "https://a.example" := true; js "https://c.example" := false ]} in
  m !! url c = Some false
  ∧ Part001.detectChanges [a; b; c] (obj m) =
    Ok [Part001.mkChange Part001.went_down a; Part001.mkChange Part001.recovered c]
  ∧ Part002.getChangedServices [a; b; c] (obj m) =
    Ok [Part002.mkChanged a (JBool true) Part002.down;
        Part002.mkChanged c (JBool false) Part002.recovered].
Proof.
  intros a b c m.
  assert (m !! url c = Some false) as Hp by (vm_compute; reflexivity).
  destruct (present_url_transitions m [a; b] [] c false Hp)
    as [(a1 & a2 & Ha1 & Ha2 & Ha) (b1 & b2 & Hb1 & Hb2 & Hb)].
  split; [exact Hp|]. cbn [app] in Ha, Hb.
  split; [rewrite Ha|rewrite Hb]; f_equal.
  - assert (Ok a1 = Ok [Part001.mkChange Part001.went_down a]) as [= ->]
      by (rewrite <- Ha1; vm_compute; reflexivity).
    by injection Ha2 as <-.
  - assert (Ok b1 = Ok [Part002.mkChanged a (JBool true) Part002.down]) as [= ->]
      by (rewrite <- Hb1; vm_compute; reflexivity).
    by injection Hb2 as <-.
Defined.

(** ** The orchestration of [part_001] *)

Lemma foldl_push {A B} (f : A → B) (l : list A) (acc : list B) :
  foldl (λ msgs x, msgs ++ [f x]) acc l = acc ++ (f <$> l).
Proof.
  revert acc. induction l as [|x l IH]; intros acc; simpl.
  - by rewrite app_nil_r.
  - by rewrite IH, <- app_assoc.
Qed.

Lemma part001_main_run (env : Env) (w w1 : World) (results : list Outcome)
    (changes : list Part001.Change) :
  mapM checkWithRetries (Part001.TARGETS env) w = (Ok results, w1) →
  Part001.detectChanges results (stored_state (fs w1)) = Ok changes →
  ∃ w',
    Part001.main env w = (Ok tt, w')
    ∧ trace w' = trace w1 ++ part001_tail_events env results w1 changes
    ∧ fs w' = fs_after_write (JSON_stringify_state (currentState_of results)) (fs w1).
Proof.
  intros Hprobe Hgate. unfold Part001.main.
  erewrite bind_ok by exact Hprobe.
  erewrite bind_ok by apply log_summary_eq.
  erewrite bind_ok by apply loadPreviousState_eq.
  cbn [fs with_trace]. rewrite Hgate.
  erewrite (bind_ok (lift_result _)) by reflexivity.
  erewrite bind_ok by apply saved_eq.
  set (w3 := with_trace _ (with_trace _ w1)).
  set (w4 := saved _ _ w3).
  pose proof (saved_trace Part001.STATE_FILE (currentState_of results) w3) as Ht.
  pose proof (saved_fs Part001.STATE_FILE (currentState_of results) w3) as Hf.
  fold w4 in Ht, Hf. cbn [trace fs w3 with_trace] in Ht, Hf.
  unfold part001_tail_events.
  rewrite (foldl_push Part001.change_message changes []). cbn [app].
  rewrite length_fmap.
  destruct changes as [|c changes]; cbn [length Nat.ltb Nat.leb].
  - destruct (forceReport env).
    + destruct (notify_run env (Part001.current_status_report results) w4)
        as (w5 & Hn & Hnt & Hnf).
      erewrite bind_ok by exact Hn.
      eexists; split; [reflexivity|]; cbn [trace fs console_log emit with_trace].
      split; [rewrite Hnt, Ht, <- !app_assoc; reflexivity|by rewrite Hnf, Hf].
    + eexists; split; [reflexivity|]; cbn [trace fs console_log emit with_trace].
      split; [rewrite Ht, <- !app_assoc; reflexivity|done].
  - destruct (notify_run env (changes_message (c :: changes)) w4)
      as (w5 & Hn & Hnt & Hnf).
    exists w5. split; [exact Hn|].
    split; [rewrite Hnt, Ht, <- !app_assoc; reflexivity|by rewrite Hnf, Hf].
Qed.

(** ** What a run sends and writes *)

Lemma probe_events_silent (d : list Event) :
  Forall probe_event d →
  notifications d = [] ∧ writes d = [] ∧ posts d = [] ∧ warnings d = [].
Proof.
  induction 1 as [|e d He _ IH]; [done|].
  unfold notifications, writes, posts, warnings in *. rewrite !omap_cons_eq.
  by destruct e.
Qed.

Lemma notifications_notify_events (env : Env) (message : list N) :
  notifications (notify_events env message) = [message].
Proof.
  unfold notify_events. by destruct (truthy_str (DISCORD_WEBHOOK_URL env)).
Qed.

Lemma writes_notify_events (env : Env) (message : list N) :
  writes (notify_events env message) = [].
Proof.
  unfold notify_events. by destruct (truthy_str (DISCORD_WEBHOOK_URL env)).
Qed.

Lemma notifications_app (d1 d2 : list Event) :
  notifications (d1 ++ d2) = notifications d1 ++ notifications d2.
Proof. apply omap_app. Qed.

Lemma writes_app (d1 d2 : list Event) : writes (d1 ++ d2) = writes d1 ++ writes d2.
Proof. apply omap_app. Qed.

Ltac project_events :=
  rewrite ?notifications_app, ?writes_app,
    ?notifications_notify_events, ?writes_notify_events.

Lemma notifications_monitor_tail (env : Env) (results : list Outcome)
    (w w1 : World) (changed : bool) :
  notifications (monitor_tail_events env results w w1 changed) =
  if changed || forceReport env
  then [Monitor.formatStatusMessage results (toLocaleString w1 (clock w1))
          (clock w1 - clock w)]
  else [].
Proof.
  unfold monitor_tail_events, save_warnings.
  destruct (write_error Monitor.STATE_FILE (fs w1)), (changed || forceReport env);
    project_events; reflexivity.
Qed.

Lemma writes_monitor_tail (env : Env) (results : list Outcome)
    (w w1 : World) (changed : bool) :
  writes (monitor_tail_events env results w w1 changed) =
  [(Monitor.STATE_FILE, JSON_stringify_state (currentState_of results))].
Proof.
  unfold monitor_tail_events, save_warnings.
  destruct (write_error Monitor.STATE_FILE (fs w1)), (changed || forceReport env);
    project_events; reflexivity.
Qed.

Lemma notifications_part001_tail (env : Env) (results : list Outcome)
    (w1 : World) (changes : list Part001.Change) :
  notifications (part001_tail_events env results w1 changes) =
  match changes with
  | _ :: _ => [changes_message changes]
  | [] => if forceReport env then [Part001.current_status_report results] else []
  end.
Proof.
  unfold part001_tail_events, save_warnings.
  destruct (write_error Part001.STATE_FILE (fs w1)), changes, (forceReport env);
    project_events; reflexivity.
Qed.

Lemma writes_part001_tail (env : Env) (results : list Outcome)
    (w1 : World) (changes : list Part001.Change) :
  writes (part001_tail_events env results w1 changes) =
  [(Part001.STATE_FILE, JSON_stringify_state (currentState_of results))].
Proof.
  unfold part001_tail_events, save_warnings.
  destruct (write_error Part001.STATE_FILE (fs w1)), changes, (forceReport env);
    project_events; reflexivity.
Qed.

(** The probing phase, when its result is known. *)
Lemma probe_phase (targets : list Target) (w w1 : World) (results : list Outcome) :
  mapM checkWithRetries targets w = (Ok results, w1) →
  fs w1 = fs w
  ∧ url <$> results = t_url <$> targets
  ∧ ∃ d, trace w1 = trace w ++ d ∧ notifications d = [] ∧ writes d = [].
Proof.
  intros H. destruct (probe_all_run targets w) as (rs & w' & H' & [Hs (d & Hd & Hf)] & Hu).
  rewrite H in H'. injection H' as <- <-.
  destruct Hs as (? & _). destruct (probe_events_silent d Hf) as (? & ? & _).
  split_and!; try done. by exists d.
Qed.

(** The three messages are never empty. *)
Lemma formatStatusMessage_nonempty (results : list Outcome) (timestamp : list N)
    (executionTime : Z) :
  Monitor.formatStatusMessage results timestamp executionTime ≠ [].
Proof.
  unfold Monitor.formatStatusMessage. intros H.
  apply app_eq_nil in H as [_ H]. discriminate.
Qed.

Lemma current_status_report_nonempty (results : list Outcome) :
  Part001.current_status_report results ≠ [].
Proof. unfold Part001.current_status_report. simpl. discriminate. Qed.

Lemma changes_message_nonempty (c : Part001.Change) (cs : list Part001.Change) :
  changes_message (c :: cs) ≠ [].
Proof.
  unfold changes_message. rewrite fmap_cons.
  assert (∃ x t, Part001.change_message c = x :: t) as (x & t & ->).
  { unfold Part001.change_message. destruct (Part001.type c); simpl; eauto. }
  destruct (Part001.change_message <$> cs); simpl; discriminate.
Qed.

(** The state object built from the outcomes. *)
(** *** The mapping a list of outcomes denotes *)

Lemma recorded_snoc (rs : list Outcome) (r : Outcome) :
  recorded (rs ++ [r]) = <[url r := up r]> (recorded rs).
Proof. unfold recorded. by rewrite foldl_app. Qed.

Lemma recorded_lookup (results : list Outcome) (k : list N) :
  recorded results !! k = up <$> last (filter (λ r, url r = k) results).
Proof.
  induction results as [|r rs IH] using rev_ind; [done|].
  rewrite recorded_snoc, filter_app.
  destruct (decide (url r = k)) as [<-|Hne].
  - rewrite lookup_insert_eq. rewrite filter_cons_True by done.
    rewrite filter_nil. by rewrite last_snoc.
  - rewrite lookup_insert_ne by done. rewrite filter_cons_False by done.
    rewrite filter_nil. by rewrite app_nil_r.
Qed.

Lemma recorded_dom (results : list Outcome) :
  dom (recorded results) = list_to_set (url <$> results).
Proof.
  induction results as [|r rs IH] using rev_ind; [done|].
  rewrite recorded_snoc, dom_insert_L, IH, fmap_app, list_to_set_app_L.
  simpl. rewrite union_empty_r_L. apply union_comm_L.
Qed.

(** *** The object [main] builds *)

Lemma overwrite_keys (k : list N) (b : bool) (state : State) :
  (overwrite k b state).*1 = state.*1.
Proof.
  induction state as [|[k' v] state IH]; [done|]. cbn [overwrite].
  case_decide; cbn; by rewrite ?IH.
Qed.

Lemma overwrite_map (k : list N) (b : bool) (state : State) :
  k ∈ state.*1 →
  (list_to_map (overwrite k b state) : gmap (list N) bool)
  = <[k := b]> (list_to_map state).
Proof.
  induction state as [|[k' v] state IH]; intros Hin; [by apply elem_of_nil in Hin|].
  cbn [overwrite]. case_decide as Hk.
  - subst k'. cbn. by rewrite insert_insert_eq.
  - cbn in Hin. apply elem_of_cons in Hin as [->|Hin]; [done|].
    cbn. rewrite (IH Hin). by apply insert_insert_ne.
Qed.

Lemma insert_index_perm (n : N) (k : list N) (b : bool) (state : State) :
  insert_index n k b state ≡ₚ (k, b) :: state.
Proof.
  induction state as [|[k' v] state IH]; [done|]. cbn [insert_index].
  destruct (array_index k') as [m|]; [|done].
  destruct (m <? n); [|done]. rewrite IH. apply Permutation_swap.
Qed.

Lemma set_prop_new (state : State) (k : list N) (b : bool) :
  k ∉ state.*1 → k ≠ proto_key → set_prop state k b ≡ₚ (k, b) :: state.
Proof.
  intros Hk Hp. unfold set_prop. rewrite bool_decide_eq_false_2 by done.
  rewrite decide_False by done. destruct (array_index k).
  - apply insert_index_perm.
  - symmetry. apply Permutation_cons_append.
Qed.

(** The object holds each URL once, never holds [__proto__], and maps every
    other URL as the outcomes do. *)
Lemma currentState_of_snoc (rs : list Outcome) (r : Outcome) :
  currentState_of (rs ++ [r]) = set_prop (currentState_of rs) (url r) (up r).
Proof. unfold currentState_of. by rewrite foldl_app. Qed.

Lemma currentState_of_spec (rs : list Outcome) :
  NoDup (currentState_of rs).*1
  ∧ (proto_key ∉ (currentState_of rs).*1)
  ∧ (list_to_map (currentState_of rs) : gmap (list N) bool)
    = delete proto_key (recorded rs).
Proof.
  induction rs as [|r rs (Hnd & Hp & Hm)] using rev_ind.
  - split; [constructor|]. split; [apply not_elem_of_nil|].
    cbn. by rewrite delete_empty.
  - rewrite currentState_of_snoc, recorded_snoc.
    set (st := currentState_of rs) in *.
    destruct (decide (url r ∈ st.*1)) as [Hin|Hout].
    + unfold set_prop. rewrite bool_decide_eq_true_2 by done.
      rewrite overwrite_keys. split; [done|]. split; [done|].
      rewrite overwrite_map by done. rewrite Hm.
      assert (url r ≠ proto_key) as Hne by (intros E; rewrite E in Hin; done).
      by rewrite delete_insert_ne.
    + destruct (decide (url r = proto_key)) as [Hk|Hk].
      * unfold set_prop. rewrite bool_decide_eq_false_2 by done.
        rewrite decide_True by done. split; [done|]. split; [done|].
        rewrite Hm, Hk. by rewrite delete_insert_eq.
      * pose proof (set_prop_new st (url r) (up r) Hout Hk) as Hperm.
        assert ((set_prop st (url r) (up r)).*1 ≡ₚ url r :: st.*1) as Hkeys
          by (by rewrite Hperm).
        split; [rewrite Hkeys; by constructor|].
        split.
        { rewrite Hkeys. intros [E|E]%elem_of_cons; [by apply Hk|by apply Hp]. }
        assert (NoDup (set_prop st (url r) (up r)).*1) as Hnd'
          by (rewrite Hkeys; by constructor).
        rewrite (list_to_map_proper _ _ Hnd' Hperm).
        cbn. rewrite Hm. by rewrite delete_insert_ne.
Qed.

Lemma own_value_NoDup (state : State) (k : list N) :
  NoDup state.*1 → own_value k state = (list_to_map state : gmap (list N) bool) !! k.
Proof.
  intros Hnd. pose proof (member_lookup_own state k) as H1.
  pose proof (member_lookup_members state k Hnd) as H2. rewrite H1 in H2.
  destruct (own_value k state), (list_to_map state !! k); simpl in H2; congruence.
Qed.

Lemma currentState_of_own (rs : list Outcome) (k : list N) :
  own_value k (currentState_of rs) =
  if decide (k = proto_key) then None
  else up <$> last (filter (λ r, url r = k) rs).
Proof.
  destruct (currentState_of_spec rs) as (Hnd & _ & Hm).
  rewrite own_value_NoDup, Hm by done. case_decide as Hk.
  - subst k. apply lookup_delete_eq.
  - rewrite lookup_delete_ne by done. apply recorded_lookup.
Qed.

Lemma currentState_of_keys (rs : list Outcome) (k : list N) :
  k ∈ (currentState_of rs).*1 ↔ k ∈ url <$> rs ∧ k ≠ proto_key.
Proof.
  destruct (currentState_of_spec rs) as (Hnd & _ & Hm).
  assert (k ∈ (currentState_of rs).*1
          ↔ is_Some (((list_to_map (currentState_of rs)) : gmap (list N) bool) !! k))
    as ->.
  { split.
    - intros ((k' & b) & -> & Hin)%list_elem_of_fmap. exists b.
      by apply elem_of_list_to_map_1.
    - intros [b Hb]. apply elem_of_list_to_map_2 in Hb.
      apply list_elem_of_fmap. by exists (k, b). }
  rewrite Hm. destruct (decide (k = proto_key)) as [->|Hk].
  - rewrite lookup_delete_eq. split; [by intros [? ?]|by intros [_ ?]].
  - rewrite lookup_delete_ne by done.
    rewrite <- elem_of_dom, recorded_dom, elem_of_list_to_set. tauto.
Qed.

(** ** Claims on the orchestration *)

Lemma sample_probe (force : bool) (f : FileSystem) :
  mapM checkWithRetries (Monitor.TARGETS (sample_env force)) (sample_world f)
  = (Ok [outcome_a; outcome_b],
     (mapM checkWithRetries (Monitor.TARGETS (sample_env force)) (sample_world f)).2).
Proof. destruct force; vm_compute; reflexivity. Qed.

Lemma monitor_sent (env : Env) (w w1 : World) (results : list Outcome)
    (changed : bool) :
  mapM checkWithRetries (Monitor.TARGETS env) w = (Ok results, w1) →
  Monitor.hasChanges results (stored_state (fs w1)) = Ok changed →
  notifications (new_events w (Monitor.main env w).2) =
  if changed || forceReport env
  then [Monitor.formatStatusMessage results (toLocaleString w1 (clock w1))
          (clock w1 - clock w)]
  else [].
Proof.
  intros Hprobe Hgate.
  destruct (probe_phase _ _ _ _ Hprobe) as (_ & _ & d & Hd & Hn & _).
  destruct (monitor_main_run env w w1 results changed Hprobe Hgate)
    as (w' & Hm & Ht & _).
  rewrite Hm. cbn [snd]. rewrite Hd, <- app_assoc in Ht.
  rewrite (new_events_app _ _ _ Ht), notifications_app, Hn.
  apply notifications_monitor_tail.
Qed.

Lemma part001_sent (env : Env) (w w1 : World) (results : list Outcome)
    (changes : list Part001.Change) :
  mapM checkWithRetries (Part001.TARGETS env) w = (Ok results, w1) →
  Part001.detectChanges results (stored_state (fs w1)) = Ok changes →
  notifications (new_events w (Part001.main env w).2) =
  match changes with
  | _ :: _ => [changes_message changes]
  | [] => if forceReport env then [Part001.current_status_report results] else []
  end.
Proof.
  intros Hprobe Hdet.
  destruct (probe_phase _ _ _ _ Hprobe) as (_ & _ & d & Hd & Hn & _).
  destruct (part001_main_run env w w1 results changes Hprobe Hdet)
    as (w' & Hm & Ht & _).
  rewrite Hm. cbn [snd]. rewrite Hd, <- app_assoc in Ht.
  rewrite (new_events_app _ _ _ Ht), notifications_app, Hn.
  apply notifications_part001_tail.
Qed.

Lemma hasChanges_cons (r : Outcome) (rs : list Outcome) (prev : json) :
  Monitor.hasChanges (r :: rs) prev =
  match get_prop prev (url r) with
  | Throw e => Throw e
  | Ok None => Ok true
  | Ok (Some v) =>
      if strict_neq_bool v (up r) then Ok true else Monitor.hasChanges rs prev
  end.
Proof. simpl. by destruct (get_prop prev (url r)) as [[v|]|]. Qed.

Lemma get_prop_total (prev : json) (k : list N) :
  prev ≠ JNull → ∃ v, get_prop prev k = Ok v.
Proof.
  intros Hn. destruct prev; simpl; try done; eauto; case_decide; eauto.
Qed.

(** Only a prior state that is [null] makes the change gates throw. *)
Lemma gates_total (prev : json) (rs : list Outcome) :
  prev ≠ JNull →
  (∃ changed, Monitor.hasChanges rs prev = Ok changed)
  ∧ (∃ changes, Part001.detectChanges rs prev = Ok changes).
Proof.
  intros Hn. split.
  - induction rs as [|r rs [b IH]]; [by exists false|].
    rewrite hasChanges_cons. destruct (get_prop_total prev (url r) Hn) as [[v|] ->].
    + destruct (strict_neq_bool v (up r)); eauto.
    + eauto.
  - unfold Part001.detectChanges. generalize (@nil Part001.Change).
    induction rs as [|r rs IH]; intros acc; [by exists acc|].
    rewrite detect_loop_cons. destruct (get_prop_total prev (url r) Hn) as [[v|] ->];
      apply IH.
Qed.

(** C4, as amended.  On every run whose state file does not hold [null],
    the probes and the change gate return, and: [Monitor.main] calls
    [notify] exactly when [hasChanges] returned true or the force-report flag
    is set, always with the non-empty full status message; [Part001.main]
    calls [notify] exactly when [detectChanges] returned a transition or the
    flag is set, with the non-empty change messages when there are
    transitions and with the non-empty full status report when there are
    none and the flag is set. *)
Theorem notify_decision (env : Env) (w : World) :
  stored_state (fs w) ≠ JNull →
  ∃ results w1 changed changes,
    mapM checkWithRetries (Monitor.TARGETS env) w = (Ok results, w1)
    ∧ Monitor.hasChanges results (stored_state (fs w)) = Ok changed
    ∧ Part001.detectChanges results (stored_state (fs w)) = Ok changes
    ∧ let report :=
        Monitor.formatStatusMessage results (toLocaleString w1 (clock w1))
          (clock w1 - clock w) in
      let sent := notifications (new_events w (Monitor.main env w).2) in
      let sent1 := notifications (new_events w (Part001.main env w).2) in
      (sent ≠ [] ↔ changed = true ∨ forceReport env = true)
      ∧ sent = (if changed || forceReport env then [report] else [])
      ∧ report ≠ []
      ∧ (sent1 ≠ [] ↔ changes ≠ [] ∨ forceReport env = true)
      ∧ sent1 = match changes with
                | _ :: _ => [changes_message changes]
                | [] => if forceReport env
                        then [Part001.current_status_report results] else []
                end
      ∧ Part001.current_status_report results ≠ []
      ∧ (changes = [] ∨ changes_message changes ≠ []).
Proof.
  intros Hnull.
  destruct (probe_all_run (Monitor.TARGETS env) w) as (results & w1 & Hprobe & _).
  destruct (probe_phase _ _ _ _ Hprobe) as (Hfs & _).
  destruct (gates_total _ results Hnull) as [[changed Hgate] [changes Hdet]].
  exists results, w1, changed, changes. split_and!; [done..|].
  intros report sent sent1. rewrite <- Hfs in Hgate, Hdet.
  pose proof (monitor_sent env w w1 results changed Hprobe Hgate) as Hsent.
  pose proof (part001_sent env w w1 results changes Hprobe Hdet) as Hsent1.
  fold sent in Hsent. fold sent1 in Hsent1. fold report in Hsent.
  split_and!.
  - rewrite Hsent. destruct changed, (forceReport env); simpl;
      intuition (discriminate || congruence).
  - exact Hsent.
  - apply formatStatusMessage_nonempty.
  - rewrite Hsent1. destruct changes, (forceReport env); simpl;
      intuition (discriminate || congruence).
  - exact Hsent1.
  - apply current_status_report_nonempty.
  - destruct changes; [by left|right; apply changes_message_nonempty].
Qed.

Lemma notify_decision_witness :
  let env := sample_env true in
  let w := sample_world (fs_holding [(url_a, true); (url_b, false)]) in
  stored_state (fs w) ≠ JNull
  ∧ notifications (new_events w (Monitor.main env w).2) =
    [Monitor.formatStatusMessage [outcome_a; outcome_b] (js "L8420") 8420]
  ∧ notifications (new_events w (Part001.main env w).2) =
    [Part001.current_status_report [outcome_a; outcome_b]].
Proof.
  intros env w.
  assert (stored_state (fs w) ≠ JNull) as Hnull by (vm_compute; discriminate).
  destruct (notify_decision env w Hnull)
    as (results & w1 & changed & changes & Hprobe & Hgate & Hdet & _ & Hs & _ & _ & Hs1 & _).
  pose proof (sample_probe true (fs_holding [(url_a, true); (url_b, false)]))
    as Hsample.
  fold w in Hsample. fold env in Hsample. rewrite Hsample in Hprobe.
  apply pair_equal_spec in Hprobe as [E1 E2]. injection E1 as <-. subst w1.
  assert (Ok changed = Ok false) as [= ->] by (rewrite <- Hgate; vm_compute; reflexivity).
  assert (Ok changes = Ok []) as [= ->] by (rewrite <- Hdet; vm_compute; reflexivity).
  split; [exact Hnull|].
  split; [rewrite Hs|rewrite Hs1]; vm_compute; reflexivity.
Defined.

(** Counterexample to C4 as stated: with the force-report flag set and a
    transition detected, [Part001.main] sends the change message, not the
    full status report. *)
Lemma part001_forced_run_sends_changes :
  let env := sample_env true in
  let w := sample_world (fs_holding [(url_a, true); (url_b, true)]) in
  forceReport env = true
  ∧ notifications (new_events w (Part001.main env w).2) =
    [changes_message [Part001.mkChange Part001.went_down outcome_b]]
  ∧ changes_message [Part001.mkChange Part001.went_down outcome_b]
    ≠ Part001.current_status_report [outcome_a; outcome_b].
Proof. vm_compute. split_and!; [reflexivity|reflexivity|discriminate]. Qed.

Lemma filter_none {A} (P : A → Prop) `{∀ x, Decision (P x)} (l : list A) :
  Forall (λ x, ¬ P x) l → filter P l = [].
Proof.
  induction 1 as [|x l Hx _ IH]; [done|]. by rewrite filter_cons_False.
Qed.

Lemma last_filter_url (rs : list Outcome) (r : Outcome) :
  NoDup (url <$> rs) → r ∈ rs →
  last (filter (λ x, url x = url r) rs) = Some r.
Proof.
  induction rs as [|x rs IH]; intros Hnd Hin; [by apply elem_of_nil in Hin|].
  rewrite fmap_cons in Hnd. apply NoDup_cons in Hnd as [Hx Hnd].
  apply elem_of_cons in Hin as [->|Hin].
  - rewrite filter_cons_True by done. rewrite filter_none; [done|].
    apply Forall_forall. intros y Hy Heq. apply Hx. rewrite <- Heq.
    apply list_elem_of_fmap. by exists y.
  - rewrite filter_cons_False; [by apply IH|].
    intros Heq. apply Hx. rewrite Heq. apply list_elem_of_fmap. by exists r.
Qed.

(** C5, as amended.  On every run whose state file does not hold [null]
    and none of whose targets has the URL [__proto__], whether or not a
    notification is sent, [main] calls the state store's save once, with the
    text of a mapping whose keys are exactly the URLs of the run's outcomes;
    each URL is mapped to the [up] of the last outcome carrying it, hence
    each outcome to its own [up] when the URLs are pairwise distinct.  When
    the write goes through, that text is the whole content of the state
    file, whatever it held before. *)
Theorem state_saved (env : Env) (w : World) :
  stored_state (fs w) ≠ JNull →
  proto_key ∉ (t_url <$> Monitor.TARGETS env) →
  ∃ results w1,
    mapM checkWithRetries (Monitor.TARGETS env) w = (Ok results, w1)
    ∧ let state := currentState_of results in
      let data := JSON_stringify_state state in
      writes (new_events w (Monitor.main env w).2) = [(Monitor.STATE_FILE, data)]
      ∧ writes (new_events w (Part001.main env w).2) = [(Part001.STATE_FILE, data)]
      ∧ JSON_parse data = Some (state_json state)
      ∧ NoDup state.*1
      ∧ (∀ k, k ∈ state.*1 ↔ k ∈ url <$> results)
      ∧ (∀ k, own_value k state = up <$> last (filter (λ r, url r = k) results))
      ∧ (NoDup (url <$> results) →
         Forall (λ r, own_value (url r) state = Some (up r)) results)
      ∧ (can_write (fs w) = true →
         file_content (fs (Monitor.main env w).2) = Some data
         ∧ file_content (fs (Part001.main env w).2) = Some data).
Proof.
  intros Hnull Hproto.
  destruct (probe_all_run (Monitor.TARGETS env) w) as (results & w1 & Hprobe & _).
  destruct (probe_phase _ _ _ _ Hprobe) as (Hfs & Hurls & d & Hd & _ & Hw).
  destruct (gates_total _ results Hnull) as [[changed Hgate] [changes Hdet]].
  rewrite <- Hfs in Hgate, Hdet. rewrite <- Hurls in Hproto.
  exists results, w1. split; [done|]. intros state data.
  destruct (monitor_main_run env w w1 results changed Hprobe Hgate)
    as (w' & Hm & Ht & Hc).
  destruct (part001_main_run env w w1 results changes Hprobe Hdet)
    as (w'' & Hm1 & Ht1 & Hc1).
  rewrite Hm, Hm1. cbn [snd]. rewrite Hd, <- app_assoc in Ht, Ht1.
  rewrite (new_events_app _ _ _ Ht), (new_events_app _ _ _ Ht1).
  rewrite !writes_app, Hw, writes_monitor_tail, writes_part001_tail.
  rewrite Hfs in Hc, Hc1.
  assert (∀ k, own_value k state = up <$> last (filter (λ r, url r = k) results))
    as Hown.
  { intros k. subst state. rewrite currentState_of_own. case_decide as Hk; [|done].
    subst k. rewrite filter_none; [done|]. apply Forall_forall.
    intros r Hr Hu. apply Hproto. rewrite <- Hu. apply list_elem_of_fmap. by exists r. }
  split_and!; try done.
  - apply JSON_parse_stringify_state.
  - apply currentState_of_spec.
  - intros k. subst state. rewrite currentState_of_keys. split; [tauto|].
    intros Hk. split; [done|]. by intros ->.
  - intros Hnd. apply Forall_forall. intros r Hr.
    by rewrite Hown, last_filter_url.
  - intros Hcw. rewrite Hc, Hc1. cbn [file_content fs_after_write].
    by rewrite content_after_good_write.
Qed.

Lemma state_saved_witness :
  let env := sample_env false in
  let w := sample_world fs_fresh in
  let state : State := [(url_a, true); (url_b, false)] in
  stored_state (fs w) ≠ JNull
  ∧ (proto_key ∉ t_url <$> Monitor.TARGETS env)
  ∧ writes (new_events w (Monitor.main env w).2) =
    [(Monitor.STATE_FILE, JSON_stringify_state state)]
  ∧ file_content (fs (Monitor.main env w).2) = Some (JSON_stringify_state state).
Proof.
  intros env w state.
  assert (stored_state (fs w) ≠ JNull) as Hnull by (vm_compute; discriminate).
  assert (proto_key ∉ (t_url <$> Monitor.TARGETS env)) as Hproto.
  { intros H. vm_compute in H. repeat (apply elem_of_cons in H as [H|H]; [discriminate|]).
    by apply elem_of_nil in H. }
  destruct (state_saved env w Hnull Hproto)
    as (results & w1 & Hprobe & Hw & _ & _ & _ & _ & _ & _ & Hc).
  pose proof (sample_probe false fs_fresh) as Hsample.
  fold w in Hsample. fold env in Hsample. rewrite Hsample in Hprobe.
  apply pair_equal_spec in Hprobe as [E1 E2]. injection E1 as <-. subst w1.
  split; [exact Hnull|]. split; [exact Hproto|].
  split; [rewrite Hw; vm_compute; reflexivity|].
  destruct Hc as [Hc _]; [reflexivity|]. rewrite Hc. vm_compute. reflexivity.
Defined.

(** Counterexample to C5 as stated: two targets share a URL, the first is
    found up and the second down; the mapping saved gives that URL the value
    [false], which is not the first outcome's [up]. *)
Lemma shared_url_keeps_last_outcome :
  ∃ o1 o2 w1,
    mapM checkWithRetries (Monitor.TARGETS twin_env) twin_world = (Ok [o1; o2], w1)
    ∧ url o1 = url_a ∧ up o1 = true
    ∧ writes (new_events twin_world (Monitor.main twin_env twin_world).2) =
      [(Monitor.STATE_FILE, JSON_stringify_state [(url_a, false)])]
    ∧ own_value (url o1) [(url_a, false)] ≠ Some (up o1).
Proof.
  eexists _, _, _. split; [vm_compute; reflexivity|].
  split_and!; [reflexivity|reflexivity|vm_compute; reflexivity|vm_compute; discriminate].
Qed.

Lemma unaccounted_iff (m : gmap (list N) bool) (r : Outcome) :
  unaccounted m r ↔ m !! url r ≠ Some (up r).
Proof.
  unfold unaccounted. destruct (m !! url r) as [p|].
  - destruct p, (up r); simpl; intuition (discriminate || congruence).
  - split; [intros _; discriminate|intros _; by left].
Qed.

Lemma hasChanges_spec (m : gmap (list N) bool) (rs : list Outcome) :
  ∃ b, Monitor.hasChanges rs (obj m) = Ok b
       ∧ (b = true ↔ Exists (unaccounted m) rs).
Proof.
  induction rs as [|r rs (b & IH & Hb)].
  - exists false. split; [done|]. split; [done|]. intros H. by apply Exists_nil in H.
  - rewrite hasChanges_cons, get_prop_obj. unfold read_mapping.
    destruct (m !! url r) as [p|] eqn:Hp; simpl.
    + destruct (eqb p (up r)) eqn:He; simpl.
      * exists b. split; [done|]. rewrite Hb, Exists_cons, unaccounted_iff, Hp.
        apply eqb_prop in He. subst p. tauto.
      * exists true. split; [done|]. split; [|done]. intros _.
        apply Exists_cons. left. apply unaccounted_iff. rewrite Hp.
        intros [= ->]. by rewrite eqb_reflx in He.
    + exists true. split.
      * destruct (object_inherits (url r)) as [v|] eqn:Hi; [|done].
        by apply object_inherits_builtin in Hi as ->.
      * split; [|done]. intros _. apply Exists_cons. left. by left.
Qed.

(** C10, as amended.  For every list of outcomes and every prior-state
    mapping, [hasChanges] returns true exactly when some outcome's URL is
    absent from the mapping or mapped to the boolean other than that
    outcome's [up].  On a run with empty prior state and at least one target
    configured, there is at least one outcome, [hasChanges] returns true
    (whether the outcomes are up or down) and [main] calls [notify]. *)
Theorem hasChanges_gate :
  (∀ (rs : list Outcome) (m : gmap (list N) bool),
     ∃ b, Monitor.hasChanges rs (obj m) = Ok b
          ∧ (b = true ↔ Exists (unaccounted m) rs))
  ∧ (∀ (env : Env) (w : World),
       stored_state (fs w) = obj ∅ →
       Monitor.TARGETS env ≠ [] →
       ∃ results w1,
         mapM checkWithRetries (Monitor.TARGETS env) w = (Ok results, w1)
         ∧ results ≠ []
         ∧ Monitor.hasChanges results (obj ∅) = Ok true
         ∧ notifications (new_events w (Monitor.main env w).2) =
           [Monitor.formatStatusMessage results (toLocaleString w1 (clock w1))
              (clock w1 - clock w)]).
Proof.
  split; [intros rs m; apply hasChanges_spec|].
  intros env w Hprior Hne.
  destruct (probe_all_run (Monitor.TARGETS env) w) as (results & w1 & Hprobe & _).
  destruct (probe_phase _ _ _ _ Hprobe) as (Hfs & Hurls & _).
  exists results, w1. split; [done|].
  assert (results ≠ []) as Hres.
  { intros ->. destruct (Monitor.TARGETS env); [done|discriminate]. }
  split; [done|].
  assert (Monitor.hasChanges results (obj ∅) = Ok true) as Hgate.
  { destruct results as [|r rs]; [done|].
    rewrite hasChanges_cons, get_prop_obj. unfold read_mapping.
    rewrite lookup_empty. destruct (object_inherits (url r)) as [v|] eqn:Hi; [|done].
    by apply object_inherits_builtin in Hi as ->. }
  split; [done|].
  rewrite <- Hprior, <- Hfs in Hgate.
  by rewrite (monitor_sent env w w1 results true Hprobe Hgate).
Qed.

Lemma hasChanges_gate_witness :
  let env := sample_env false in
  let w := sample_world fs_fresh in
  stored_state (fs w) = obj ∅
  ∧ Monitor.TARGETS env ≠ []
  ∧ Monitor.hasChanges [outcome_a; outcome_b] (obj ∅) = Ok true
  ∧ notifications (new_events w (Monitor.main env w).2) =
    [Monitor.formatStatusMessage [outcome_a; outcome_b] (js "L8420") 8420].
Proof.
  intros env w.
  assert (stored_state (fs w) = obj ∅) as Hprior by (vm_compute; reflexivity).
  assert (Monitor.TARGETS env ≠ []) as Hne by (vm_compute; discriminate).
  destruct (proj2 hasChanges_gate env w Hprior Hne)
    as (results & w1 & Hprobe & _ & Hg & Hn).
  pose proof (sample_probe false fs_fresh) as Hsample.
  fold w in Hsample. fold env in Hsample. rewrite Hsample in Hprobe.
  apply pair_equal_spec in Hprobe as [E1 E2]. injection E1 as <-. subst w1.
  split_and!; [exact Hprior|exact Hne|exact Hg|].
  rewrite Hn. vm_compute. reflexivity.
Defined.

(** Counterexample to C10 as stated: when no target is configured there is
    no outcome, every outcome is up and the prior state is empty, yet
    [hasChanges] returns false and [main] does not call [notify]. *)
Lemma no_target_no_notification :
  let w := sample_world fs_fresh in
  mapM checkWithRetries (Monitor.TARGETS bare_env) w = (Ok [], w)
  ∧ stored_state (fs w) = obj ∅
  ∧ Forall (λ r, up r = true) ([] : list Outcome)
  ∧ Monitor.hasChanges [] (obj ∅) = Ok false
  ∧ notifications (new_events w (Monitor.main bare_env w).2) = [].
Proof.
  split_and!; [reflexivity|vm_compute; reflexivity|constructor|reflexivity|
               vm_compute; reflexivity].
Qed.

(** ** Claims on the state store *)

Lemma saved2_eq (env : Env) (state : State) (w : World) :
  Part002.savePreviousState env state w = (Ok tt, saved2 env state w).
Proof.
  unfold saved2, Part002.savePreviousState, try_catch, mkdirSync, writeFileSync.
  unfold mbind, M_bind, mret, M_ret.
  destruct (fs w) as [de dc fr fo wf fc] eqn:Hfs.
  destruct de, dc, fo, wf as [[n e]|]; cbn; rewrite ?Hfs; reflexivity.
Qed.

Lemma saved2_world (env : Env) (state : State) (w : World) :
  let path := Part002.STATE_FILE env in
  let data := JSON_stringify_state state in
  trace (saved2 env state w) =
    trace w ++ EvMkdir (dirname path) :: EvWriteFile path data
            :: save_warnings path (after_mkdir (fs w))
  ∧ fs (saved2 env state w) = fs_after_write data (after_mkdir (fs w))
  ∧ webhook (saved2 env state w) = webhook w
  ∧ clock (saved2 env state w) = clock w
  ∧ toLocaleString (saved2 env state w) = toLocaleString w.
Proof.
  intros path data. subst path data.
  unfold saved2, Part002.savePreviousState, try_catch, mkdirSync, writeFileSync,
    console_warn, emit, save_warnings, write_error, fs_after_write,
    content_after_write, after_mkdir.
  unfold mbind, M_bind, mret, M_ret.
  destruct (fs w) as [de dc fr fo wf fc] eqn:Hfs.
  cbn [dir_exists dir_creatable file_readable file_openable write_fault file_content].
  destruct de, dc, fo, wf as [[n e]|]; cbn; rewrite ?Hfs; cbn;
    rewrite <- ?app_assoc; by auto.
Qed.

(** A write that fails is answered by one warning, a write that goes
    through by none. *)
Lemma save_warnings_spec (path : list N) (f : FileSystem) :
  if can_write f then save_warnings path f = []
  else ∃ e, write_error path f = Some e
            ∧ save_warnings path f = [EvWarn (js "Could not save state: " ++ err_message e)].
Proof.
  unfold save_warnings. destruct (can_write f) eqn:Hc.
  - apply (can_write_no_error path) in Hc. by rewrite Hc.
  - destruct (write_error path f) as [e|] eqn:He; [by exists e|].
    apply can_write_no_error in He. congruence.
Qed.

(** A file that could not be opened keeps its content. *)
Lemma content_after_failed_open (data : list N) (f : FileSystem) :
  dir_exists f && file_openable f = false →
  content_after_write data f = file_content f.
Proof. unfold content_after_write. by intros ->. Qed.

Lemma stored_state_after_write (state : State) (f : FileSystem) :
  can_write f = true → file_readable f = true →
  stored_state (fs_after_write (JSON_stringify_state state) f) = state_json state.
Proof.
  intros Hw Hr. unfold stored_state, readable_data. cbn.
  rewrite content_after_good_write by done.
  unfold can_write in Hw. apply andb_true_iff in Hw as [-> _]. rewrite Hr. cbn.
  by rewrite JSON_parse_stringify_state.
Qed.

(** C7, as amended.  [loadPreviousState] never throws and only reads; it
    returns the empty mapping when the file cannot be read or its text is
    not JSON, and the mapping the text denotes when the text is the JSON of
    an object, as the text of a previous save is.  The save of [part_002]
    first tries to create the parent directory, then writes; the save of
    [src/monitor.mjs] and [part_001] writes without creating anything.  In
    both, the call returns normally, a write that fails is answered by one
    warning on the console that carries the message of the error, a write
    that goes through by none; after a write that went through the file
    holds the text of the state, and a file that could not be opened holds
    what it held before. *)
Theorem state_store_contract :
  (∀ (path : list N) (w : World),
     ∃ v,
       loadPreviousState path w =
       (Ok v, with_trace (trace w ++ [EvReadFile path]) w)
       ∧ (readable_data (fs w) = None → v = JObj [])
       ∧ (∀ data, readable_data (fs w) = Some data →
                  JSON_parse data = None → v = JObj [])
       ∧ (∀ data members, readable_data (fs w) = Some data →
                          JSON_parse data = Some (JObj members) → v = JObj members)
       ∧ (∀ state : State, readable_data (fs w) = Some (JSON_stringify_state state) →
                           v = state_json state))
  ∧ (∀ (env : Env) (state : State) (w : World),
       let path := Part002.STATE_FILE env in
       let data := JSON_stringify_state state in
       let f := after_mkdir (fs w) in
       ∃ w',
         Part002.savePreviousState env state w = (Ok tt, w')
         ∧ new_events w w' =
           EvMkdir (dirname path) :: EvWriteFile path data :: save_warnings path f
         ∧ dir_exists (fs w') = dir_exists (fs w) || dir_creatable (fs w)
         ∧ (can_write f = true → file_content (fs w') = Some data)
         ∧ (dir_exists f && file_openable f = false →
            file_content (fs w') = file_content (fs w)))
  ∧ (∀ (path : list N) (state : State) (w : World),
       let data := JSON_stringify_state state in
       ∃ w',
         savePreviousState path state w = (Ok tt, w')
         ∧ new_events w w' = EvWriteFile path data :: save_warnings path (fs w)
         ∧ dir_exists (fs w') = dir_exists (fs w)
         ∧ (can_write (fs w) = true → file_content (fs w') = Some data)
         ∧ (dir_exists (fs w) && file_openable (fs w) = false →
            file_content (fs w') = file_content (fs w)))
  ∧ (∀ (path : list N) (f : FileSystem),
       if can_write f then save_warnings path f = []
       else ∃ e, write_error path f = Some e
                 ∧ save_warnings path f =
                   [EvWarn (js "Could not save state: " ++ err_message e)]).
Proof.
  split_and!.
  - intros path w. exists (stored_state (fs w)).
    split; [apply loadPreviousState_eq|]. unfold stored_state.
    split_and!.
    + by intros ->.
    + by intros data -> ->.
    + by intros data members -> ->.
    + intros state ->. by rewrite JSON_parse_stringify_state.
  - intros env state w path data f. exists (saved2 env state w).
    destruct (saved2_world env state w) as (Ht & Hf & _).
    split; [apply saved2_eq|]. split; [by apply new_events_app|].
    rewrite Hf. cbn [dir_exists file_content fs_after_write after_mkdir].
    split; [done|]. split.
    + intros Hc. by apply content_after_good_write.
    + intros Ho. by rewrite content_after_failed_open.
  - intros path state w data. exists (saved path state w).
    split; [apply saved_eq|].
    split; [apply new_events_app, saved_trace|].
    rewrite saved_fs. cbn [dir_exists file_content fs_after_write].
    split; [done|]. split.
    + intros Hc. by apply content_after_good_write.
    + intros Ho. by rewrite content_after_failed_open.
  - apply save_warnings_spec.
Qed.

(** Counterexample to C7 as stated.  The save of [src/monitor.mjs] does not
    create a missing parent directory: the write fails, a warning is logged
    and nothing is stored, where the save of [part_002] creates the
    directory and stores the state.  And a write that fails after the file
    was opened does not leave the prior content in place: the file holds the
    part of the new text that was written. *)
Lemma monitor_save_keeps_parent_missing :
  let state : State := [(url_a, true)] in
  let data := JSON_stringify_state state in
  (let w := sample_world fs_no_parent in
   let w' := (savePreviousState Monitor.STATE_FILE state w).2 in
   let w'' := (Part002.savePreviousState bare_env state w).2 in
   new_events w w' =
     [EvWriteFile Monitor.STATE_FILE data;
      EvWarn (js "Could not save state: ENOENT: no such file or directory, "
              ++ js "open '/tmp/monitor-state.json'")]
   ∧ dir_exists (fs w') = false
   ∧ file_content (fs w') = None
   ∧ dir_exists (fs w'') = true
   ∧ file_content (fs w'') = Some data)
  ∧ (let w := sample_world fs_full in
     let w' := (savePreviousState Monitor.STATE_FILE state w).2 in
     file_content (fs w) = Some (js "{}")
     ∧ warnings (new_events w w') =
       [js "Could not save state: ENOSPC: no space left on device, write"]
     ∧ file_content (fs w') = Some (js "{")).
Proof. vm_compute. split_and!; reflexivity. Qed.

(** A state file holding [null] is read without a throw, but the value
    returned is not a mapping: the change gate throws on its first lookup,
    the run ends in the failure handler with exit code 1, and the state file
    is never rewritten. *)
Lemma null_state_file_fails_the_run :
  let env := sample_env false in
  let w := sample_world fs_null in
  (loadPreviousState Monitor.STATE_FILE w).1 = Ok JNull
  ∧ (Monitor.main env w).1 =
    Throw (TypeError (js "Cannot read properties of null (reading '" ++ url_a ++ js "')"))
  ∧ writes (new_events w (Monitor.run env w).2) = []
  ∧ last (trace (Monitor.run env w).2) = Some (EvExit 1)
  ∧ file_content (fs (Monitor.run env w).2) = Some (js "null").
Proof. vm_compute. auto. Qed.

(** C8, as amended.  For every mapping from URL strings to booleans, when
    the state file can be written and read, [savePreviousState] followed by
    [loadPreviousState] returns the mapping saved: the value loaded answers
    every key as the mapping does. *)
Theorem save_load_roundtrip (path : list N) (state : State) (w : World) :
  can_write (fs w) = true →
  file_readable (fs w) = true →
  (loadPreviousState path (savePreviousState path state w).2).1 = Ok (state_json state)
  ∧ ∀ k, get_prop (state_json state) k = Ok (read_state state k).
Proof.
  intros Hw Hr. split; [|apply get_prop_state].
  fold (saved path state w). rewrite loadPreviousState_eq. cbn [fst].
  rewrite saved_fs. f_equal. by apply stored_state_after_write.
Qed.

Lemma save_load_roundtrip_witness :
  let state : State := [(url_a, true); (url_b, false)] in
  let w := sample_world fs_fresh in
  can_write (fs w) = true
  ∧ file_readable (fs w) = true
  ∧ (loadPreviousState Monitor.STATE_FILE
       (savePreviousState Monitor.STATE_FILE state w).2).1 = Ok (state_json state)
  ∧ get_prop (state_json state) url_b = Ok (Some (Data (JBool false))).
Proof.
  intros state w.
  assert (can_write (fs w) = true) as Hw by reflexivity.
  assert (file_readable (fs w) = true) as Hr by reflexivity.
  destruct (save_load_roundtrip Monitor.STATE_FILE state w Hw Hr) as [H1 H2].
  split_and!; [exact Hw|exact Hr|exact H1|].
  rewrite H2. vm_compute. reflexivity.
Defined.

(** Counterexample to C8 as stated: where the state file cannot be written,
    the save is dropped with a warning and the load that follows returns the
    empty mapping instead of the mapping saved. *)
Lemma unwritable_state_is_not_read_back :
  let state : State := [(url_a, true)] in
  let w := sample_world fs_readonly in
  (loadPreviousState Monitor.STATE_FILE
     (savePreviousState Monitor.STATE_FILE state w).2).1 = Ok (JObj [])
  ∧ JObj [] ≠ state_json state.
Proof. vm_compute. split; [reflexivity|discriminate]. Qed.

(** ** Claims on delivery and on the probe *)

(** C9.  [notify] never throws, whatever the webhook answers, and the run
    goes on after it.  With no webhook URL configured it does nothing beyond
    being called: no POST is made and the world is unchanged but for the
    record of the call.  With a URL configured it makes one POST carrying the
    message and discards its failure. *)
Theorem notify_best_effort (env : Env) (message : list N) (w : World) :
  ∃ w',
    notify env message w = (Ok tt, w')
    ∧ (∀ (k : unit → M unit), (notify env message ≫= k) w = k tt w')
    ∧ fs w' = fs w
    ∧ posts (new_events w w') =
      (if truthy_str (DISCORD_WEBHOOK_URL env)
       then [(DISCORD_WEBHOOK_URL env, JSON_stringify_content message)]
       else [])
    ∧ (if truthy_str (DISCORD_WEBHOOK_URL env)
       then webhook w' = tail (webhook w)
       else w' = with_trace (trace w ++ [EvNotify message]) w).
Proof.
  destruct (notify_run env message w) as (w' & Hn & Ht & Hf).
  exists w'. split; [done|]. split; [intros k; by apply bind_ok|]. split; [done|].
  rewrite (new_events_app _ _ _ Ht).
  rewrite notify_eq in Hn. injection Hn as <-.
  unfold notify_events. by destruct (truthy_str (DISCORD_WEBHOOK_URL env)).
Qed.

(** C6.  [checkOnce] never throws.  On a response that completes before the
    abort timer fires, the outcome is up exactly when the status check passes
    (equality with [expectStatus] when it is set, the 2xx class otherwise)
    and, when [expectText] is set, the text occurs in the body up to letter
    case; it carries the response status, the latency, the slow flag and no
    error.  On a transport error, a timeout or an abort the outcome is down
    with status 0, no latency, not slow, and the message of the error.  The
    body is read exactly when [expectText] is set and the response head
    arrived in time.  A setting is set when JavaScript takes it for true
    ([wanted_status], [wanted_text]); the timer fires after [abort_after];
    letter case is removed by the [toLowerCase] of the world. *)
Theorem checkOnce_classifies (target : Target) (w : World) :
  ∃ o w',
    checkOnce target w = (Ok o, w')
    ∧ outcome_matches w target (observe target w) o
    ∧ body_reads (new_events w w') =
      (if reads_body target w then [t_url target] else []).
Proof.
  destruct (checkOnce_run target w) as (o & w' & H & Ho & Ht & _).
  exists o, w'. split_and!; [done..|].
  rewrite (new_events_app _ _ _ Ht). unfold probe_events.
  by destruct (reads_body target w).
Qed.

(** ** Worked examples *)

Example parse_null : JSON_parse (js " null ") = Some JNull.
Proof. reflexivity. Qed.

Example parse_single_quotes : JSON_parse (js "{ 'a' : true }") = None.
Proof. reflexivity. Qed.

Example parse_nested :
  JSON_parse ([123; 34; 97; 34; 58] ++ js "[true, -2.5e3, null]}") =
  Some (JObj [(js "a", JArr [JBool true; JNum (js "-2.5e3"); JNull])]).
Proof. vm_compute. reflexivity. Qed.

Example stringify_one_member :
  JSON_stringify_state [(js "a", true)] =
  js "{" ++ [10] ++ js "  " ++ [34; 97; 34] ++ js ": true" ++ [10] ++ js "}".
Proof. vm_compute. reflexivity. Qed.

(** A key with a quotation mark, a reverse solidus, a control character and
    a lone surrogate survives the round trip. *)
Example roundtrip_escapes :
  let state : State :=
    [(js "http://a/?q=" ++ [34; 92; 7; 55357], true); (js "b", false)] in
  JSON_parse (JSON_stringify_state state) = Some (state_json state).
Proof. vm_compute. reflexivity. Qed.

(** A body check that passes up to letter case, on a slow response. *)
Example checkOnce_body_match :
  (checkOnce text_target text_world).1 =
  Ok (mkOutcome (js "Docs") url_a true 200 (Some 2600%Z) true None).
Proof. vm_compute. reflexivity. Qed.

(** The third attempt answers: two cooldowns, three GETs, and the outcome of
    the third attempt is returned. *)
Example third_attempt_is_returned :
  let target := mkTarget (js "Development") url_b (Some 200%Z) None 6000 in
  let '(r, w') := checkWithRetries target (sample_world fs_fresh) in
  r = Ok outcome_b
  ∧ fetches (trace w') = [url_b; url_b; url_b]
  ∧ waits (trace w') = [COOLDOWN_MS; COOLDOWN_MS].
Proof. vm_compute. auto. Qed.

(** A first run with a target down: [src/monitor.mjs] sends the full status
    message, [part_001] the initial-down alert. *)
Example first_run_with_a_target_down :
  let env := sample_env false in
  let w := sample_world fs_fresh in
  notifications (trace (Monitor.main env w).2) =
    [Monitor.formatStatusMessage [outcome_a; outcome_b] (js "L8420") 8420]
  ∧ notifications (trace (Part001.main env w).2) =
    [changes_message [Part001.mkChange Part001.initial_down outcome_b]].
Proof. vm_compute. auto. Qed.

(** * Further properties *)

(** ** The probe *)

Lemma wanted_status_nonzero (target : Target) (n : Z) :
  wanted_status target = Some n → n ≠ 0%Z.
Proof.
  unfold wanted_status. destruct (expectStatus target) as [k|]; [|done].
  case_decide; [done|]. by intros [= <-].
Qed.

Lemma outcome_matches_wf (w : World) (target : Target) (obs : Observation)
    (o : Outcome) :
  outcome_matches w target obs o → outcome_wf o.
Proof.
  intros (_ & _ & H). unfold outcome_wf. destruct obs as [st elapsed body|e].
  - destruct H as (Hup & Hst & Hms & Hsl & ->). exists elapsed.
    split_and!; [done..|]. intros Hu. apply Hup in Hu as [Hs _]. rewrite Hst.
    unfold status_matches in Hs.
    destruct (wanted_status target) as [n|] eqn:Hn; [|lia].
    rewrite Hs. eapply wanted_status_nonzero. exact Hn.
  - destruct H as (H1 & H2 & H3 & H4 & H5). rewrite H5. by split_and!.
Qed.

(** X1.  Whatever the network does, the outcome of a probe is well formed: it
    carries an error message exactly when it has no latency, and then it is
    down with status 0 and not slow; an up outcome has a latency, no error
    and a non-zero status. *)
Theorem checkOnce_outcome_wf (target : Target) (w : World) :
  ∃ o w', checkOnce target w = (Ok o, w') ∧ outcome_wf o
          ∧ (error o = None ↔ ms o ≠ None)
          ∧ (up o = true → error o = None ∧ ms o ≠ None ∧ status o ≠ 0%Z).
Proof.
  destruct (checkOnce_run target w) as (o & w' & H & Hm & _).
  exists o, w'. split; [done|]. apply outcome_matches_wf in Hm.
  split; [done|]. unfold outcome_wf in Hm.
  destruct (error o) as [msg|].
  - destruct Hm as (Hu & _ & -> & _).
    split; [split; [done|intros Hn; by destruct Hn]|].
    intros Hup. congruence.
  - destruct Hm as (e & -> & _ & Hs). split; [done|]. by auto.
Qed.

Lemma abort_after_positive (target : Target) : (1 ≤ abort_after target)%Z.
Proof. unfold abort_after. case_decide; lia. Qed.

Lemma checkOnce_clock (target : Target) (w w' : World) (o : Outcome) :
  checkOnce target w = (Ok o, w') →
  (clock w' ≤ clock w + abort_after target)%Z.
Proof.
  pose proof (abort_after_positive target) as Hpos.
  unfold checkOnce, setTimeout_abort, now, try_finally, try_catch, fetch,
    clearTimeout, emit, res_text, String_toLowerCase.
  unfold mbind, M_bind, mret, M_ret. simpl.
  rewrite timer_delay_abort_after.
  set (limit := abort_after target) in *.
  change (next_reply (with_trace (trace w ++ [EvSetTimeout (timeoutMs target)]) w)
            (t_url target)) with (next_reply w (t_url target)).
  destruct (next_reply w (t_url target)) as [delay st body|e]; simpl.
  2:{ intros [= <- <-]. simpl. lia. }
  destruct (Z.ltb_spec (clock w + delay) (clock w + limit)); simpl.
  2:{ intros [= <- <-]. simpl. lia. }
  destruct (text_expected target) as [pattern|]; simpl.
  2:{ intros [= <- <-]. simpl. lia. }
  destruct body as [bd text|e]; simpl.
  2:{ intros [= <- <-]. simpl. lia. }
  destruct (Z.ltb_spec (clock w + delay + bd) (clock w + limit)); simpl;
    intros [= <- <-]; simpl; lia.
Qed.

(** X2.  A probe arms its abort timer first, with [timeoutMs] as the
    delay, and disarms it last, whether the request succeeds or fails; it
    issues exactly one GET; and it never takes longer than the time after
    which the timer aborts it ([abort_after]): [timeoutMs] when that is a
    delay from 1 to 2^31-1 milliseconds, one millisecond otherwise. *)
Theorem checkOnce_timer (target : Target) (w : World) :
  ∃ o w' middle,
    checkOnce target w = (Ok o, w')
    ∧ new_events w w' =
      EvSetTimeout (timeoutMs target) :: middle ++ [EvClearTimeout]
    ∧ fetches (new_events w w') = [t_url target]
    ∧ Forall (λ e, e ≠ EvClearTimeout ∧ ∀ d, e ≠ EvSetTimeout d) middle
    ∧ (clock w' ≤ clock w + abort_after target)%Z.
Proof.
  destruct (checkOnce_run target w) as (o & w' & H & _ & Htr & _).
  exists o, w',
    (EvFetch (t_url target)
     :: if reads_body target w then [EvText (t_url target)] else []).
  split; [done|]. rewrite (new_events_app _ _ _ Htr). unfold probe_events.
  split_and!.
  - by destruct (reads_body target w).
  - by destruct (reads_body target w).
  - destruct (reads_body target w); repeat constructor; discriminate.
  - by eapply checkOnce_clock.
Qed.

(** A timeout of zero is a timer of one millisecond: a response that takes
    no time at all is still received, one that takes a millisecond is not. *)
Example zero_timeout_is_one_millisecond :
  let target := mkTarget (js "Docs") url_a None None 0 in
  let answering := λ delay : Z,
    with_net (λ _, [Response delay 200 (BodyText 0 [])]) (sample_world fs_fresh) in
  up (match (checkOnce target (answering 0%Z)).1 with Ok o => o | Throw _ => outcome_b end)
    = true
  ∧ (checkOnce target (answering 1%Z)).1 =
    Ok (mkOutcome (js "Docs") url_a false 0 None false
          (Some (js "This operation was aborted")))
  ∧ clock (checkOnce target (answering 1%Z)).2 = 1%Z.
Proof. vm_compute. split_and!; reflexivity. Qed.

(** ** The retried probe *)

Lemma Attempts_clock (target : Target) (w w' : World) (os : list Outcome) :
  Attempts target w os w' →
  (clock w' ≤ clock w + Z.of_nat (length os) * abort_after target
              + (Z.of_nat (length os) - 1) * COOLDOWN_MS)%Z.
Proof.
  pose proof (abort_after_positive target) as Hpos.
  induction 1 as [w o w' H|w o w1 w2 os w' H Hw _ IH].
  - apply checkOnce_clock in H. simpl length. lia.
  - apply checkOnce_clock in H. injection Hw as <-.
    simpl in IH. rewrite length_cons. unfold COOLDOWN_MS in *. lia.
Qed.

Lemma Attempts_wf (target : Target) (w w' : World) (os : list Outcome) :
  Attempts target w os w' → Forall outcome_wf os.
Proof.
  induction 1 as [w o w' H|w o w1 w2 os w' H Hw _ IH];
    destruct (checkOnce_run target w) as (o' & w'' & H' & Hm & _);
    rewrite H in H'; apply pair_equal_spec in H' as [[= ->] _];
    apply outcome_matches_wf in Hm; by repeat constructor.
Qed.

(** X3.  A retried probe returns a well-formed outcome that carries the name
    and the URL of its target, and takes at most the time of [RETRIES + 1]
    aborted probes and [RETRIES] cooldowns, a probe being aborted after
    [abort_after]: [timeoutMs] when that is a delay from 1 to 2^31-1
    milliseconds, one millisecond otherwise. *)
Theorem checkWithRetries_bounded (target : Target) (w : World) :
  ∃ o w',
    checkWithRetries target w = (Ok o, w')
    ∧ name o = t_name target ∧ url o = t_url target
    ∧ outcome_wf o
    ∧ (clock w' ≤ clock w + (RETRIES + 1) * abort_after target
                + RETRIES * COOLDOWN_MS)%Z.
Proof.
  destruct (retry_from_run target (Z.to_nat RETRIES) 0 w)
    as (os & o & w' & Hr & Ha & Hl & Hlast & _); [reflexivity|].
  exists o, w'. split; [done|].
  apply last_Some_elem_of in Hlast.
  pose proof (Attempts_fields _ _ _ _ Ha) as Hf.
  pose proof (Attempts_wf _ _ _ _ Ha) as Hwf.
  rewrite Forall_forall in Hf, Hwf. destruct (Hf o Hlast) as [Hn Hu].
  split_and!; [done|done|by apply Hwf|].
  pose proof (Attempts_clock _ _ _ _ Ha) as Hc.
  pose proof (abort_after_positive target) as Hpos.
  unfold RETRIES, COOLDOWN_MS in *. simpl in Hl.
  destruct os as [|? [|? [|? [|? ?]]]]; simpl in Hl, Hc; lia.
Qed.

(** ** The probing phase *)

Lemma fetches_app (d1 d2 : list Event) : fetches (d1 ++ d2) = fetches d1 ++ fetches d2.
Proof. apply omap_app. Qed.

Lemma probe_all_counts (targets : list Target) (w : World) :
  ∃ results w1 d,
    mapM checkWithRetries targets w = (Ok results, w1)
    ∧ name <$> results = t_name <$> targets
    ∧ url <$> results = t_url <$> targets
    ∧ Forall outcome_wf results
    ∧ same_surroundings w w1
    ∧ trace w1 = trace w ++ d
    ∧ Forall probe_event d
    ∧ ∃ counts,
        length counts = length targets
        ∧ Forall (λ n, 1 ≤ n ≤ 3)%nat counts
        ∧ fetches d = gets_per_target targets counts.
Proof.
  revert w. induction targets as [|t ts IH]; intros w.
  - exists [], w, []. rewrite app_nil_r.
    repeat (split; [done|]). by exists [].
  - destruct (retry_from_run t (Z.to_nat RETRIES) 0 w)
      as (os & o & w1 & Hr & Ha & Hl & Hlast & _); [reflexivity|].
    destruct (Attempts_probes_only _ _ _ _ Ha) as [Hs1 (d1' & Hd1' & Hp1)].
    destruct (Attempts_trace _ _ _ _ Ha) as (d1 & Hd1 & Hf1 & _).
    assert (d1' = d1) as -> by (rewrite Hd1 in Hd1'; by apply app_inv_head in Hd1').
    apply last_Some_elem_of in Hlast.
    pose proof (Attempts_fields _ _ _ _ Ha) as Hfld.
    pose proof (Attempts_wf _ _ _ _ Ha) as Hwf.
    rewrite Forall_forall in Hfld, Hwf. destruct (Hfld o Hlast) as [Hn Hu].
    destruct (IH w1)
      as (rs & w2 & d2 & Hrs & Hns & Hus & Hwfs & Hs2 & Hd2 & Hp2
          & counts & Hlen & Hcs & Hc2).
    exists (o :: rs), w2, (d1 ++ d2).
    split.
    { cbn [mapM]. unfold mbind, M_bind.
      change (retry_from (Z.to_nat RETRIES) 0 t w) with (checkWithRetries t w) in Hr.
      by rewrite Hr, Hrs. }
    split; [rewrite !fmap_cons; by rewrite Hn, Hns|].
    split; [rewrite !fmap_cons; by rewrite Hu, Hus|].
    split; [constructor; [by apply Hwf|done]|].
    split.
    { destruct Hs1 as (? & ? & ? & ?), Hs2 as (? & ? & ? & ?).
      repeat split; congruence. }
    split; [by rewrite Hd2, Hd1, app_assoc|].
    split; [by apply Forall_app|].
    assert (1 ≤ length os)%nat by (destruct os; [by apply elem_of_nil in Hlast|simpl; lia]).
    exists (length os :: counts). split; [simpl; by rewrite Hlen|].
    split; [constructor; [simpl in Hl; lia|done]|].
    by rewrite fetches_app, Hf1, Hc2.
Qed.

Lemma target_entry_urls (nm : string) (u : option (list N)) (st tmo : Z) :
  t_url <$> target_entry nm u st tmo = option_list (configured u).
Proof.
  unfold target_entry, configured. destruct u as [s|]; [|done].
  by destruct (truthy_str s).
Qed.

(** X4.  The probing phase of [main] never throws.  It returns one
    well-formed outcome per URL variable that is set to a non-empty string,
    in the order Production, Staging, Development (Production, Development
    in [part_002]), each carrying the URL configured; to each target it
    issues between one and [RETRIES + 1] GETs, all to the URL of that target,
    and no other GET; it sends nothing, writes nothing and leaves the file
    system and the webhook as they were. *)
Theorem probing_phase (env : Env) (w : World) :
  ∀ targets,
    targets = Monitor.TARGETS env ∨ targets = Part002.TARGETS env →
    ∃ results w1,
      mapM checkWithRetries targets w = (Ok results, w1)
      ∧ url <$> results = t_url <$> targets
      ∧ t_url <$> Monitor.TARGETS env =
        omap configured [env_PROD_MONITOR_URL env; env_STAGING_MONITOR_URL env;
                         env_DEV_MONITOR_URL env]
      ∧ t_url <$> Part002.TARGETS env =
        omap configured [env_PROD_MONITOR_URL env; env_DEV_MONITOR_URL env]
      ∧ Forall (λ u, u ≠ []) (url <$> results)
      ∧ Forall outcome_wf results
      ∧ fs w1 = fs w ∧ webhook w1 = webhook w
      ∧ notifications (new_events w w1) = []
      ∧ posts (new_events w w1) = []
      ∧ writes (new_events w w1) = []
      ∧ ∃ counts,
          length counts = length targets
          ∧ Forall (λ n, 1 ≤ n ≤ Z.to_nat (RETRIES + 1))%nat counts
          ∧ fetches (new_events w w1) ≡ₚ gets_per_target targets counts.
Proof.
  intros targets Htargets.
  destruct (probe_all_counts targets w)
    as (results & w1 & d & Hm & _ & Hu & Hwf & (Hfs & Hwh & _) & Hd & Hp
        & counts & Hlen & Hcs & Hc).
  exists results, w1. rewrite (new_events_app _ _ _ Hd).
  destruct (probe_events_silent d Hp) as (Hn & Hw & Hpo & _).
  assert (t_url <$> Monitor.TARGETS env =
          omap configured [env_PROD_MONITOR_URL env; env_STAGING_MONITOR_URL env;
                           env_DEV_MONITOR_URL env]) as HM.
  { unfold Monitor.TARGETS. rewrite !fmap_app, !target_entry_urls.
    rewrite !omap_cons_eq.
    destruct (configured (env_PROD_MONITOR_URL env)),
      (configured (env_STAGING_MONITOR_URL env)),
      (configured (env_DEV_MONITOR_URL env)); reflexivity. }
  assert (t_url <$> Part002.TARGETS env =
          omap configured [env_PROD_MONITOR_URL env; env_DEV_MONITOR_URL env]) as HP.
  { unfold Part002.TARGETS. rewrite !fmap_app, !target_entry_urls.
    rewrite !omap_cons_eq.
    destruct (configured (env_PROD_MONITOR_URL env)),
      (configured (env_DEV_MONITOR_URL env)); reflexivity. }
  assert (Forall (λ u : list N, u ≠ []) (url <$> results)) as Hnonempty.
  { rewrite Hu. clear -Htargets HM HP.
    assert (∀ vs, Forall (λ u : list N, u ≠ []) (omap configured vs)) as Hne.
    { induction vs as [|v vs IH]; [constructor|]. rewrite omap_cons_eq.
      unfold configured at 1. destruct v as [s|]; [|done].
      unfold truthy_str. case_bool_decide; simpl; [done|by constructor]. }
    destruct Htargets as [->| ->]; [rewrite HM|rewrite HP]; apply Hne. }
  change (Z.to_nat (RETRIES + 1)) with 3%nat.
  repeat (split; [done|]). exists counts. by rewrite Hc.
Qed.

Lemma probing_phase_witness :
  ∃ results w1,
    mapM checkWithRetries (Monitor.TARGETS (sample_env false)) (sample_world fs_fresh)
    = (Ok results, w1)
    ∧ url <$> results = [url_a; url_b]
    ∧ writes (new_events (sample_world fs_fresh) w1) = []
    ∧ fetches (new_events (sample_world fs_fresh) w1) = [url_a; url_b; url_b; url_b].
Proof.
  destruct (probing_phase (sample_env false) (sample_world fs_fresh)
              (Monitor.TARGETS (sample_env false)) (or_introl eq_refl))
    as (results & w1 & Hm & Hu & _ & _ & _ & _ & _ & _ & _ & _ & Hw & _).
  exists results, w1. split; [exact Hm|]. split; [exact Hu|]. split; [exact Hw|].
  rewrite sample_probe in Hm. apply pair_equal_spec in Hm as [_ <-].
  vm_compute. reflexivity.
Defined.

(** ** The change gates *)

Lemma hasChanges_any (prev : json) (rs : list Outcome) :
  prev ≠ JNull →
  ∃ b, Monitor.hasChanges rs prev = Ok b ∧ (b = true ↔ Exists (unrecorded prev) rs).
Proof.
  intros Hn. induction rs as [|r rs (b & IH & Hb)].
  - exists false. split; [done|]. split; [done|]. intros H. by apply Exists_nil in H.
  - rewrite hasChanges_cons.
    destruct (get_prop_total prev (url r) Hn) as [[v|] Hv]; rewrite Hv.
    + destruct v as [[|p| | | |]|key]; simpl;
        try (exists true; split; [done|]; split; [|done]; intros _;
             apply Exists_cons; left; unfold unrecorded; rewrite Hv; discriminate).
      destruct (eqb p (up r)) eqn:He; simpl.
      * exists b. split; [done|]. rewrite Hb, Exists_cons. unfold unrecorded at 2.
        rewrite Hv. apply eqb_prop in He. subst p. tauto.
      * exists true. split; [done|]. split; [|done]. intros _.
        apply Exists_cons. left. unfold unrecorded. rewrite Hv.
        intros [= ->]. by rewrite eqb_reflx in He.
    + exists true. split; [done|]. split; [|done]. intros _.
      apply Exists_cons. left. unfold unrecorded. rewrite Hv. discriminate.
Qed.

(** X5.  Whatever JSON value the state file holds, the three change gates
    throw only when that value is [null], and then on their first lookup:
    with no outcome they return "no change", with outcomes they raise the
    TypeError of reading a property of [null].  On any other value
    [hasChanges] returns true exactly when some outcome is not recorded in it
    with its own [up] as a boolean (a missing key, another boolean, or a
    value of another type). *)
Theorem gates_on_any_state (prev : json) (rs : list Outcome) :
  if is_null prev then
    match rs with
    | [] =>
        Monitor.hasChanges rs prev = Ok false
        ∧ Part001.detectChanges rs prev = Ok []
        ∧ Part002.getChangedServices rs prev = Ok []
    | r :: _ =>
        Monitor.hasChanges rs prev = Throw (null_read_error (url r))
        ∧ Part001.detectChanges rs prev = Throw (null_read_error (url r))
        ∧ Part002.getChangedServices rs prev = Throw (null_read_error (url r))
    end
  else
    (∃ b, Monitor.hasChanges rs prev = Ok b
          ∧ (b = true ↔ Exists (unrecorded prev) rs))
    ∧ (∃ changes, Part001.detectChanges rs prev = Ok changes)
    ∧ (∃ changed, Part002.getChangedServices rs prev = Ok changed).
Proof.
  destruct prev; simpl.
  1: by destruct rs.
  all: split; [by apply hasChanges_any|];
    split; [by apply gates_total|];
    unfold Part002.getChangedServices; generalize (@nil Part002.ChangedService);
    induction rs as [|r rs IH]; intros acc; [by exists acc|];
    rewrite changed_loop_cons;
    match goal with
    | |- context [get_prop ?p (url r)] =>
        destruct (get_prop_total p (url r)) as [[v|] ->]; [done|apply IH..]
    end.
Qed.

Lemma changed_is_filtered (m : gmap (list N) bool) (rs : list Outcome) :
  Part002.service <$> omap (spec_changed m) rs =
  Part001.result <$> List.filter (λ c, negb (is_initial_down c))
                       (omap (spec_transition m) rs).
Proof.
  induction rs as [|r rs IH]; [done|]. rewrite !omap_cons_eq.
  unfold spec_changed at 1, spec_transition at 1.
  destruct (m !! url r) as [[]|]; [| |destruct (object_inherits (url r))];
    destruct (up r); cbn -[omap]; by rewrite ?IH.
Qed.

Lemma spec_transition_none (m : gmap (list N) bool) (r : Outcome) :
  spec_transition m r = None
  ↔ m !! url r = Some (up r)
    ∨ (m !! url r = None ∧ object_inherits (url r) = None ∧ up r = true).
Proof.
  unfold spec_transition.
  destruct (m !! url r) as [[]|]; [| |destruct (object_inherits (url r))];
    destruct (up r); simpl; intuition (discriminate || congruence).
Qed.

Lemma spec_changed_none (m : gmap (list N) bool) (r : Outcome) :
  spec_changed m r = None
  ↔ m !! url r = Some (up r)
    ∨ (m !! url r = None ∧ object_inherits (url r) = None).
Proof.
  unfold spec_changed.
  destruct (m !! url r) as [[]|]; [| |destruct (object_inherits (url r))];
    destruct (up r); simpl; intuition (discriminate || congruence).
Qed.

Lemma omap_nil_Forall {A B} (f : A → option B) (l : list A) :
  omap f l = [] ↔ Forall (λ x, f x = None) l.
Proof.
  induction l as [|x l IH]; [by split|]. rewrite omap_cons_eq, Forall_cons, <- IH.
  destruct (f x); intuition (discriminate || congruence).
Qed.

Lemma transitions_nonempty (m : gmap (list N) bool) (rs : list Outcome) :
  omap (spec_transition m) rs ≠ []
  ↔ Exists (λ r, unaccounted m r
                 ∧ ¬ (m !! url r = None ∧ object_inherits (url r) = None
                      ∧ up r = true)) rs.
Proof.
  induction rs as [|r rs IH].
  - split; [done|]. intros H. by apply Exists_nil in H.
  - rewrite omap_cons_eq, Exists_cons, <- IH. unfold spec_transition at 1, unaccounted.
    destruct (m !! url r) as [[]|]; [| |destruct (object_inherits (url r))];
      destruct (up r); simpl; intuition (discriminate || congruence).
Qed.

(** X6.  On one prior-state mapping and one list of outcomes the three gates
    are ordered by strictness.  What [getChangedServices] reports is what
    [detectChanges] reports minus the initial-down transitions, in the same
    order; [hasChanges] of [src/monitor.mjs] is true exactly when
    [detectChanges] reports something or some outcome that is up has a URL
    without prior state.  So a notification by [part_002] implies one by
    [part_001], which implies one by [src/monitor.mjs]. *)
Theorem gates_compared (m : gmap (list N) bool) (rs : list Outcome) :
  ∃ b changes changed,
    Monitor.hasChanges rs (obj m) = Ok b
    ∧ Part001.detectChanges rs (obj m) = Ok changes
    ∧ Part002.getChangedServices rs (obj m) = Ok changed
    ∧ Part002.service <$> changed =
      Part001.result <$> List.filter (λ c, negb (is_initial_down c)) changes
    ∧ (b = true ↔ changes ≠ [] ∨ Exists (λ r, m !! url r = None ∧ up r = true) rs)
    ∧ (changed = [] ∨ changes ≠ [])
    ∧ (changes = [] ∨ b = true).
Proof.
  destruct (hasChanges_spec m rs) as (b & Hb & Hiff).
  exists b, (omap (spec_transition m) rs), (omap (spec_changed m) rs).
  rewrite detectChanges_spec, getChangedServices_spec.
  assert (b = true ↔ omap (spec_transition m) rs ≠ []
                      ∨ Exists (λ r, m !! url r = None ∧ up r = true) rs) as Hb'.
  { etrans; [exact Hiff|]. split.
    - intros (r & Hr & Hu)%Exists_exists.
      destruct (m !! url r) as [p|] eqn:Hp.
      + left. apply transitions_nonempty, Exists_exists. exists r.
        split; [done|]. split; [done|]. rewrite Hp. by intros [? _].
      + destruct (up r) eqn:Hup.
        * right. apply Exists_exists. by exists r.
        * left. apply transitions_nonempty, Exists_exists. exists r.
          split; [done|]. split; [done|]. rewrite Hup. by intros (_ & _ & ?).
    - intros [(r & Hr & Hu & _)%transitions_nonempty%Exists_exists
             |(r & Hr & Hu & _)%Exists_exists];
        apply Exists_exists; exists r; split; [done|done|done|by left]. }
  split_and!; [done|done|done|apply changed_is_filtered|exact Hb'| |].
  - pose proof (changed_is_filtered m rs) as Hf.
    destruct (omap (spec_changed m) rs); [by left|right].
    intros Hnil. rewrite Hnil in Hf. discriminate.
  - destruct (omap (spec_transition m) rs) eqn:Ho; [by left|right].
    apply Hb'. left. discriminate.
Qed.

(** ** The saved state against the outcomes it was built from *)

(** The gates see a prior state through its property reads only. *)
Lemma gates_ext (prev prev' : json) (rs : list Outcome) :
  (∀ k, get_prop prev k = get_prop prev' k) →
  Monitor.hasChanges rs prev = Monitor.hasChanges rs prev'
  ∧ Part001.detectChanges rs prev = Part001.detectChanges rs prev'
  ∧ Part002.getChangedServices rs prev = Part002.getChangedServices rs prev'.
Proof.
  intros Hk. split_and!.
  - induction rs as [|r rs IH]; [done|]. by rewrite !hasChanges_cons, Hk, IH.
  - unfold Part001.detectChanges. generalize (@nil Part001.Change).
    induction rs as [|r rs IH]; intros acc; [done|].
    rewrite !detect_loop_cons, Hk.
    destruct (get_prop prev' (url r)) as [[v|]|]; by rewrite ?IH.
  - unfold Part002.getChangedServices. generalize (@nil Part002.ChangedService).
    induction rs as [|r rs IH]; intros acc; [done|].
    rewrite !changed_loop_cons, Hk.
    destruct (get_prop prev' (url r)) as [[v|]|]; by rewrite ?IH.
Qed.

(** The object [main] builds reads as the mapping of its outcomes without
    the key [__proto__]. *)
Lemma currentState_of_reads (rs : list Outcome) (k : list N) :
  get_prop (state_json (currentState_of rs)) k
  = get_prop (obj (delete proto_key (recorded rs))) k.
Proof.
  destruct (currentState_of_spec rs) as (Hnd & _ & Hm).
  rewrite get_prop_state, get_prop_obj. unfold read_state, read_mapping.
  by rewrite own_value_NoDup, Hm.
Qed.

Lemma recorded_elem (rs : list Outcome) (r : Outcome) :
  r ∈ rs →
  ∃ r', r' ∈ rs ∧ url r' = url r ∧ recorded rs !! url r = Some (up r').
Proof.
  intros Hr. rewrite recorded_lookup.
  destruct (last (filter (λ x, url x = url r) rs)) as [r'|] eqn:Hl.
  - apply last_Some_elem_of in Hl. apply list_elem_of_filter in Hl as [Hu Hin].
    by exists r'.
  - apply last_None in Hl.
    assert (r ∈ filter (λ x, url x = url r) rs) as Hin
      by (by apply list_elem_of_filter).
    rewrite Hl in Hin. by apply elem_of_nil in Hin.
Qed.

Lemma proto_key_inherited : object_inherits proto_key = Some (Builtin proto_key).
Proof. vm_compute. reflexivity. Qed.

(** An outcome finds nothing under its URL in the state built from the
    outcomes only when that URL is [__proto__], and then the read finds the
    inherited property. *)
Lemma saved_lookup_none (rs : list Outcome) (r : Outcome) :
  r ∈ rs → delete proto_key (recorded rs) !! url r = None →
  url r = proto_key ∧ object_inherits (url r) ≠ None.
Proof.
  intros Hr Hl. destruct (decide (url r = proto_key)) as [E|Hne].
  - split; [done|]. by rewrite E, proto_key_inherited.
  - rewrite lookup_delete_ne in Hl by done.
    destruct (recorded_elem rs r Hr) as (r' & _ & _ & Hl'). congruence.
Qed.

Lemma steady_iff (rs : list Outcome) :
  Forall (λ r, delete proto_key (recorded rs) !! url r = Some (up r)) rs
  ↔ consistent rs ∧ proto_key ∉ url <$> rs.
Proof.
  rewrite Forall_forall. split.
  - intros Hall. split.
    + intros r r' Hr Hr' Hu. pose proof (Hall r Hr) as H1.
      pose proof (Hall r' Hr') as H2. rewrite Hu in H1. congruence.
    + intros (r & Hu & Hr)%list_elem_of_fmap. specialize (Hall r Hr).
      by rewrite <- Hu, lookup_delete_eq in Hall.
  - intros [Hc Hp] r Hr.
    assert (url r ≠ proto_key) as Hne.
    { intros E. apply Hp. rewrite <- E. apply list_elem_of_fmap. by exists r. }
    rewrite lookup_delete_ne by done.
    destruct (recorded_elem rs r Hr) as (r' & Hr' & Hu & ->). f_equal. by apply Hc.
Qed.

Lemma NoDup_consistent (rs : list Outcome) : NoDup (url <$> rs) → consistent rs.
Proof.
  intros Hnd r r' Hr Hr' Hu. f_equal.
  apply list_elem_of_lookup in Hr as [i Hi], Hr' as [j Hj].
  assert (i = j) as ->; [|congruence].
  eapply NoDup_lookup; [exact Hnd| |]; rewrite list_lookup_fmap.
  - by rewrite Hi.
  - by rewrite Hj, Hu.
Qed.

(** What the three gates answer on the state built from the outcomes
    themselves. *)
Lemma gates_on_own_state (rs : list Outcome) :
  ∃ b changes changed,
    Monitor.hasChanges rs (state_json (currentState_of rs)) = Ok b
    ∧ Part001.detectChanges rs (state_json (currentState_of rs)) = Ok changes
    ∧ Part002.getChangedServices rs (state_json (currentState_of rs)) = Ok changed
    ∧ (b = false ↔ consistent rs ∧ proto_key ∉ url <$> rs)
    ∧ (changes = [] ↔ consistent rs ∧ proto_key ∉ url <$> rs)
    ∧ (changed = [] ↔ consistent rs ∧ proto_key ∉ url <$> rs).
Proof.
  set (m := delete proto_key (recorded rs)).
  destruct (gates_ext _ (obj m) rs (currentState_of_reads rs)) as (-> & -> & ->).
  destruct (hasChanges_spec m rs) as (b & Hb & Hs).
  exists b, (omap (spec_transition m) rs), (omap (spec_changed m) rs).
  rewrite detectChanges_spec, getChangedServices_spec.
  split_and!; [done..| | |]; rewrite <- steady_iff; fold m.
  - rewrite <- not_true_iff_false, Hs. rewrite <- Forall_Exists_neg.
    apply Forall_iff. intros r. rewrite unaccounted_iff.
    destruct (decide (m !! url r = Some (up r))); tauto.
  - rewrite omap_nil_Forall, !Forall_forall.
    split; intros Hall r Hr; specialize (Hall r Hr).
    + apply spec_transition_none in Hall as [|(Hn & Hi & _)]; [done|].
      by destruct (saved_lookup_none rs r Hr Hn) as [_ ?].
    + apply spec_transition_none. by left.
  - rewrite omap_nil_Forall, !Forall_forall.
    split; intros Hall r Hr; specialize (Hall r Hr).
    + apply spec_changed_none in Hall as [|(Hn & Hi)]; [done|].
      by destruct (saved_lookup_none rs r Hr Hn) as [_ ?].
    + apply spec_changed_none. by left.
Qed.

(** X7.  Comparing a run's outcomes with the state built from those same
    outcomes raises no alarm exactly when the outcomes agree on every URL
    they share (always the case when the URLs are pairwise distinct) and no
    URL is [__proto__], the one key the state cannot hold: then [hasChanges]
    is false and [detectChanges] and [getChangedServices] are empty.  When
    two targets share a URL and disagree, or one has the URL [__proto__],
    every gate reports a change against the state just built. *)
Theorem steady_state (rs : list Outcome) :
  ∃ b changes changed,
    Monitor.hasChanges rs (state_json (currentState_of rs)) = Ok b
    ∧ Part001.detectChanges rs (state_json (currentState_of rs)) = Ok changes
    ∧ Part002.getChangedServices rs (state_json (currentState_of rs)) = Ok changed
    ∧ (b = false ↔ consistent rs ∧ proto_key ∉ url <$> rs)
    ∧ (changes = [] ↔ consistent rs ∧ proto_key ∉ url <$> rs)
    ∧ (changed = [] ↔ consistent rs ∧ proto_key ∉ url <$> rs)
    ∧ (NoDup (url <$> rs) → consistent rs).
Proof.
  destruct (gates_on_own_state rs) as (b & changes & changed & H).
  exists b, changes, changed. split_and!; try apply H. apply NoDup_consistent.
Qed.

(** An outcome for the URL [__proto__] is not kept in the state built from
    it, and is a change against that state. *)
Example proto_url_is_never_steady :
  let r := mkOutcome (js "Docs") proto_key true 200 (Some 10%Z) false None in
  currentState_of [r] = []
  ∧ Monitor.hasChanges [r] (state_json (currentState_of [r])) = Ok true.
Proof. vm_compute. split; reflexivity. Qed.

(** ** The webhook payload *)

Lemma parse_value_string (f : nat) (s rest : list N) :
  parse_value (S f) (34 :: quote_units s ++ 34 :: rest) = Some (JStr s, rest).
Proof.
  cbn [parse_value skip_ws]. change (is_ws 34) with false. cbn iota.
  change (34 =? 123) with false. change (34 =? 91) with false.
  change (34 =? 34) with true. cbn iota.
  by rewrite parse_chars_quote_units.
Qed.

Lemma stringify_content_shape (message : list N) :
  JSON_stringify_content message =
  123 :: 34 :: (quote_units (js "content")
                ++ 34 :: 58 :: 34 :: (quote_units message ++ 34 :: [125])).
Proof.
  unfold JSON_stringify_content, quote. simpl. by rewrite <- app_assoc.
Qed.

(** X8.  The body [notify] posts is, for every message, a JSON text that
    parses to an object with the single member [content] holding the message
    unchanged, whatever quotation marks, line feeds, control characters or
    lone surrogates the message contains. *)
Theorem notify_payload_parses (message : list N) :
  JSON_parse (JSON_stringify_content message)
  = Some (JObj [(js "content", JStr message)]).
Proof.
  unfold JSON_parse. rewrite stringify_content_shape.
  set (tail := quote_units message ++ 34 :: [125]).
  assert (∃ n, length (123 :: 34 :: (quote_units (js "content")
                                      ++ 34 :: 58 :: 34 :: tail)) = S (S (S n)))
    as [n ->].
  { simpl. eauto. }
  cbn [parse_value skip_ws]. change (is_ws 123) with false. cbn iota.
  change (123 =? 123) with true. cbn iota.
  change (is_ws 34) with false. cbn iota. change (34 =? 125) with false. cbn iota.
  cbn [parse_members skip_ws]. change (is_ws 34) with false. cbn iota.
  change (34 =? 34) with true. cbn iota.
  rewrite parse_chars_quote_units.
  cbn [skip_ws]. change (is_ws 58) with false. cbn iota.
  change (58 =? 58) with true. cbn iota.
  subst tail. rewrite parse_value_string.
  reflexivity.
Qed.

(** ** The state store of [part_002] *)

(** X9.  In [part_002], where the parent directory of the state file exists
    or can be created and the file can be written and read, saving a mapping
    and then loading returns that mapping; this includes the first save into
    a directory that does not exist yet. *)
Theorem part002_save_load_roundtrip (env : Env) (state : State) (w : World) :
  (dir_exists (fs w) || dir_creatable (fs w)) && file_writable (fs w) = true →
  file_readable (fs w) = true →
  (loadPreviousState (Part002.STATE_FILE env)
     (Part002.savePreviousState env state w).2).1 = Ok (state_json state)
  ∧ dir_exists (fs (Part002.savePreviousState env state w).2) = true.
Proof.
  intros Hw Hr. fold (saved2 env state w).
  destruct (saved2_world env state w) as (_ & Hfs & _).
  rewrite loadPreviousState_eq. cbn [fst]. rewrite Hfs.
  split; [f_equal; by apply stored_state_after_write|].
  cbn [dir_exists fs_after_write after_mkdir].
  by apply andb_true_iff in Hw as [-> _].
Qed.

Lemma part002_save_load_roundtrip_witness :
  let state : State := [(url_a, true); (url_b, false)] in
  let w := sample_world fs_no_parent in
  dir_exists (fs w) = false
  ∧ (loadPreviousState (Part002.STATE_FILE bare_env)
       (Part002.savePreviousState bare_env state w).2).1 = Ok (state_json state).
Proof.
  intros state w.
  assert ((dir_exists (fs w) || dir_creatable (fs w)) && file_writable (fs w) = true)
    as Hw by reflexivity.
  assert (file_readable (fs w) = true) as Hr by reflexivity.
  destruct (part002_save_load_roundtrip bare_env state w Hw Hr) as [H _].
  split; [reflexivity|exact H].
Defined.

(** ** The whole run *)

Lemma try_catch_ok {A} (body : M A) (handler : JSError → M A) (w w' : World) (a : A) :
  body w = (Ok a, w') → try_catch body handler w = (Ok a, w').
Proof. intros H. unfold try_catch. by rewrite H. Qed.

Lemma try_catch_throw {A} (body : M A) (handler : JSError → M A) (w w' : World)
    (e : JSError) :
  body w = (Throw e, w') → try_catch body handler w = handler e w'.
Proof. intros H. unfold try_catch. by rewrite H. Qed.

Lemma bind_throw {A B} (m : M A) (f : A → M B) (w w' : World) (e : JSError) :
  m w = (Throw e, w') → (m ≫= f) w = (Throw e, w').
Proof. intros H. unfold mbind, M_bind. by rewrite H. Qed.

Lemma monitor_main_throw (env : Env) (w w1 : World) (results : list Outcome)
    (e : JSError) :
  mapM checkWithRetries (Monitor.TARGETS env) w = (Ok results, w1) →
  Monitor.hasChanges results (stored_state (fs w1)) = Throw e →
  ∃ w2, Monitor.main env w = (Throw e, w2)
        ∧ trace w2 = trace w1 ++ gate_prefix Monitor.STATE_FILE results w1
        ∧ fs w2 = fs w1 ∧ clock w2 = clock w1
        ∧ toLocaleString w2 = toLocaleString w1.
Proof.
  intros Hprobe Hgate. unfold Monitor.main.
  erewrite (bind_ok now) by reflexivity.
  erewrite bind_ok by exact Hprobe.
  erewrite (bind_ok now) by reflexivity.
  erewrite bind_ok by apply log_summary_eq.
  erewrite bind_ok by apply loadPreviousState_eq.
  cbn [fs with_trace]. rewrite Hgate.
  erewrite (bind_throw (lift_result _)) by reflexivity.
  eexists. split; [reflexivity|]. cbn [trace fs clock toLocaleString with_trace].
  unfold gate_prefix. by rewrite <- app_assoc.
Qed.

Lemma failure_handler_run (env : Env) (e : JSError) (message : list N) (w : World) :
  ∃ w', (_ ← console_error (js "Fatal: " ++ String_of_error e);
         _ ← notify env message;
         process_exit 1) w = (Ok tt, w')
        ∧ trace w' = trace w ++ failure_events env e message
        ∧ fs w' = fs w.
Proof.
  erewrite (bind_ok (console_error _)) by reflexivity.
  set (w1 := with_trace _ w).
  destruct (notify_run env message w1) as (w2 & Hn & Ht & Hf).
  erewrite bind_ok by exact Hn.
  eexists. split; [reflexivity|]. cbn [trace fs process_exit emit with_trace].
  rewrite Ht, Hf. cbn [trace fs w1 with_trace]. unfold failure_events.
  split; [|done]. by rewrite <- !app_assoc.
Qed.

Lemma monitor_run_world (env : Env) (w w1 : World) (results : list Outcome) :
  mapM checkWithRetries (Monitor.TARGETS env) w = (Ok results, w1) →
  ∃ w', Monitor.run env w = (Ok tt, w')
    ∧ match Monitor.hasChanges results (stored_state (fs w1)) with
      | Ok changed =>
          trace w' = trace w1 ++ monitor_tail_events env results w w1 changed
          ∧ fs w' = fs_after_write
                      (JSON_stringify_state (currentState_of results)) (fs w1)
      | Throw e =>
          trace w' = trace w1 ++ gate_prefix Monitor.STATE_FILE results w1
                     ++ failure_events env e
                          (failure_message e (toLocaleString w1 (clock w1)))
          ∧ fs w' = fs w1
      end.
Proof.
  intros Hprobe. destruct (Monitor.hasChanges results (stored_state (fs w1)))
    as [changed|e] eqn:Hgate.
  - destruct (monitor_main_run env w w1 results changed Hprobe Hgate)
      as (w' & Hm & Ht & Hf).
    exists w'. split; [|done].
    unfold Monitor.run. by apply try_catch_ok.
  - destruct (monitor_main_throw env w w1 results e Hprobe Hgate)
      as (w2 & Hm & Ht & Hf & Hc & Hl).
    unfold Monitor.run. erewrite try_catch_throw by exact Hm.
    destruct (failure_handler_run env e (failure_message e (toLocaleString w2 (clock w2))) w2)
      as (w' & Hh & Ht' & Hf').
    exists w'. split.
    + rewrite <- Hh. unfold mbind, M_bind, console_error, emit, date_locale. reflexivity.
    + rewrite Ht', Ht, Hf', Hf, Hl, Hc. by rewrite <- app_assoc.
Qed.

Lemma part001_main_throw (env : Env) (w w1 : World) (results : list Outcome)
    (e : JSError) :
  mapM checkWithRetries (Part001.TARGETS env) w = (Ok results, w1) →
  Part001.detectChanges results (stored_state (fs w1)) = Throw e →
  ∃ w2, Part001.main env w = (Throw e, w2)
        ∧ trace w2 = trace w1 ++ gate_prefix Part001.STATE_FILE results w1
        ∧ fs w2 = fs w1.
Proof.
  intros Hprobe Hgate. unfold Part001.main.
  erewrite bind_ok by exact Hprobe.
  erewrite bind_ok by apply log_summary_eq.
  erewrite bind_ok by apply loadPreviousState_eq.
  cbn [fs with_trace]. rewrite Hgate.
  erewrite (bind_throw (lift_result _)) by reflexivity.
  eexists. split; [reflexivity|]. cbn [trace fs with_trace].
  unfold gate_prefix. by rewrite <- app_assoc.
Qed.

Lemma part001_run_world (env : Env) (w w1 : World) (results : list Outcome) :
  mapM checkWithRetries (Part001.TARGETS env) w = (Ok results, w1) →
  ∃ w', Part001.run env w = (Ok tt, w')
    ∧ match Part001.detectChanges results (stored_state (fs w1)) with
      | Ok changes =>
          trace w' = trace w1 ++ part001_tail_events env results w1 changes
          ∧ fs w' = fs_after_write
                      (JSON_stringify_state (currentState_of results)) (fs w1)
      | Throw e =>
          trace w' = trace w1 ++ gate_prefix Part001.STATE_FILE results w1
                     ++ failure_events env e (part001_failure_message e)
          ∧ fs w' = fs w1
      end.
Proof.
  intros Hprobe. destruct (Part001.detectChanges results (stored_state (fs w1)))
    as [changes|e] eqn:Hgate.
  - destruct (part001_main_run env w w1 results changes Hprobe Hgate)
      as (w' & Hm & Ht & Hf).
    exists w'. split; [|done].
    unfold Part001.run. by apply try_catch_ok.
  - destruct (part001_main_throw env w w1 results e Hprobe Hgate)
      as (w2 & Hm & Ht & Hf).
    unfold Part001.run. erewrite try_catch_throw by exact Hm.
    destruct (failure_handler_run env e (part001_failure_message e) w2)
      as (w' & Hh & Ht' & Hf').
    exists w'. split; [exact Hh|].
    rewrite Ht', Ht, Hf', Hf. by rewrite <- app_assoc.
Qed.

Lemma part002_main_run (env : Env) (w w1 : World) (results : list Outcome)
    (changed : list Part002.ChangedService) :
  mapM checkWithRetries (Part002.TARGETS env) w = (Ok results, w1) →
  Part002.getChangedServices results (stored_state (fs w1)) = Ok changed →
  ∃ w',
    Part002.main env w = (Ok tt, w')
    ∧ trace w' = trace w1 ++ part002_tail_events env results w w1 changed
    ∧ fs w' = fs_after_write (JSON_stringify_state (currentState_of results))
                (after_mkdir (fs w1)).
Proof.
  intros Hprobe Hgate. unfold Part002.main.
  erewrite (bind_ok now) by reflexivity.
  erewrite bind_ok by exact Hprobe.
  erewrite (bind_ok now) by reflexivity.
  erewrite bind_ok by apply log_summary_eq.
  erewrite bind_ok by apply loadPreviousState_eq.
  cbn [fs with_trace]. rewrite Hgate.
  erewrite (bind_ok (lift_result _)) by reflexivity.
  erewrite bind_ok by apply saved2_eq.
  set (w3 := with_trace _ (with_trace _ w1)).
  set (w4 := saved2 _ _ w3).
  erewrite (bind_ok date_locale) by reflexivity.
  destruct (saved2_world env (currentState_of results) w3) as (Ht & Hf & _ & Hc & Hl).
  fold w4 in Ht, Hf, Hc, Hl. rewrite Hl, Hc.
  cbn [trace fs clock toLocaleString w3 with_trace] in *.
  unfold part002_tail_events.
  destruct ((0 <? length changed)%nat || forceReport env).
  - destruct (notify_run env
                (Part002.formatStatusMessage results (toLocaleString w1 (clock w1))
                   (clock w1 - clock w) (forceReport env) changed) w4)
      as (w5 & Hn & Hnt & Hnf).
    erewrite bind_ok by exact Hn.
    destruct (forceReport env);
      (eexists; split; [reflexivity|]; cbn [trace fs console_log emit with_trace];
       split; [rewrite Hnt, Ht, <- !app_assoc; reflexivity|by rewrite Hnf, Hf]).
  - eexists. split; [reflexivity|]. cbn [trace fs console_log emit with_trace].
    split; [|done]. rewrite Ht, <- !app_assoc. reflexivity.
Qed.

Lemma part002_main_throw (env : Env) (w w1 : World) (results : list Outcome)
    (e : JSError) :
  mapM checkWithRetries (Part002.TARGETS env) w = (Ok results, w1) →
  Part002.getChangedServices results (stored_state (fs w1)) = Throw e →
  ∃ w2, Part002.main env w = (Throw e, w2)
        ∧ trace w2 = trace w1 ++ gate_prefix (Part002.STATE_FILE env) results w1
        ∧ fs w2 = fs w1 ∧ clock w2 = clock w1
        ∧ toLocaleString w2 = toLocaleString w1.
Proof.
  intros Hprobe Hgate. unfold Part002.main.
  erewrite (bind_ok now) by reflexivity.
  erewrite bind_ok by exact Hprobe.
  erewrite (bind_ok now) by reflexivity.
  erewrite bind_ok by apply log_summary_eq.
  erewrite bind_ok by apply loadPreviousState_eq.
  cbn [fs with_trace]. rewrite Hgate.
  erewrite (bind_throw (lift_result _)) by reflexivity.
  eexists. split; [reflexivity|]. cbn [trace fs clock toLocaleString with_trace].
  unfold gate_prefix. by rewrite <- app_assoc.
Qed.

Lemma part002_run_world (env : Env) (w w1 : World) (results : list Outcome) :
  mapM checkWithRetries (Part002.TARGETS env) w = (Ok results, w1) →
  ∃ w', Part002.run env w = (Ok tt, w')
    ∧ match Part002.getChangedServices results (stored_state (fs w1)) with
      | Ok changed =>
          trace w' = trace w1 ++ part002_tail_events env results w w1 changed
          ∧ fs w' = fs_after_write
                      (JSON_stringify_state (currentState_of results))
                      (after_mkdir (fs w1))
      | Throw e =>
          trace w' = trace w1 ++ gate_prefix (Part002.STATE_FILE env) results w1
                     ++ failure_events env e
                          (failure_message e (toLocaleString w1 (clock w1)))
          ∧ fs w' = fs w1
      end.
Proof.
  intros Hprobe. destruct (Part002.getChangedServices results (stored_state (fs w1)))
    as [changed|e] eqn:Hgate.
  - destruct (part002_main_run env w w1 results changed Hprobe Hgate)
      as (w' & Hm & Ht & Hf).
    exists w'. split; [|done].
    unfold Part002.run. by apply try_catch_ok.
  - destruct (part002_main_throw env w w1 results e Hprobe Hgate)
      as (w2 & Hm & Ht & Hf & Hc & Hl).
    unfold Part002.run. erewrite try_catch_throw by exact Hm.
    destruct (failure_handler_run env e (failure_message e (toLocaleString w2 (clock w2))) w2)
      as (w' & Hh & Ht' & Hf').
    exists w'. split.
    + rewrite <- Hh. unfold mbind, M_bind, console_error, emit, date_locale. reflexivity.
    + rewrite Ht', Ht, Hf', Hf, Hl, Hc. by rewrite <- app_assoc.
Qed.

Lemma getChangedServices_total (prev : json) (rs : list Outcome) :
  prev ≠ JNull → ∃ changed, Part002.getChangedServices rs prev = Ok changed.
Proof.
  intros Hn. unfold Part002.getChangedServices. generalize (@nil Part002.ChangedService).
  induction rs as [|r rs IH]; intros acc; [by exists acc|].
  rewrite changed_loop_cons.
  destruct (get_prop_total prev (url r) Hn) as [[v|] ->]; apply IH.
Qed.

Lemma gates_safe (f : FileSystem) (targets : list Target) (results : list Outcome) :
  url <$> results = t_url <$> targets →
  doomed f targets = false →
  (∃ b, Monitor.hasChanges results (stored_state f) = Ok b)
  ∧ (∃ changes, Part001.detectChanges results (stored_state f) = Ok changes)
  ∧ (∃ changed, Part002.getChangedServices results (stored_state f) = Ok changed).
Proof.
  intros Hu Hd. unfold doomed in Hd.
  destruct (stored_state f) eqn:Hs; cbn [is_null andb] in Hd.
  1: { destruct targets; [|done]. destruct results; [|done].
       split_and!; eexists; reflexivity. }
  all: split_and!; [apply gates_total|apply gates_total|apply getChangedServices_total];
    done.
Qed.

Lemma gates_doomed (f : FileSystem) (t : Target) (ts : list Target)
    (results : list Outcome) :
  url <$> results = t_url <$> (t :: ts) →
  is_null (stored_state f) = true →
  Monitor.hasChanges results (stored_state f) = Throw (null_read_error (t_url t))
  ∧ Part001.detectChanges results (stored_state f) = Throw (null_read_error (t_url t))
  ∧ Part002.getChangedServices results (stored_state f) = Throw (null_read_error (t_url t)).
Proof.
  intros Hu Hn. destruct (stored_state f); try done.
  destruct results as [|r rs]; [done|]. injection Hu as <- _. done.
Qed.

Lemma doomed_true (f : FileSystem) (targets : list Target) :
  doomed f targets = true →
  is_null (stored_state f) = true ∧ ∃ t ts, targets = t :: ts.
Proof.
  unfold doomed. intros [H1 H2]%andb_prop. split; [done|].
  destruct targets; [done|eauto].
Qed.

Lemma exits_app (d1 d2 : list Event) : exits (d1 ++ d2) = exits d1 ++ exits d2.
Proof. apply omap_app. Qed.

Lemma errors_logged_app (d1 d2 : list Event) :
  errors_logged (d1 ++ d2) = errors_logged d1 ++ errors_logged d2.
Proof. apply omap_app. Qed.

Lemma posts_app (d1 d2 : list Event) : posts (d1 ++ d2) = posts d1 ++ posts d2.
Proof. apply omap_app. Qed.

Lemma probe_events_quiet (d : list Event) :
  Forall probe_event d → exits d = [] ∧ errors_logged d = [].
Proof.
  induction 1 as [|e d He _ IH]; [done|].
  unfold exits, errors_logged in *. rewrite !omap_cons_eq. by destruct e.
Qed.

Lemma monitor_tail_quiet (env : Env) (results : list Outcome) (w w1 : World)
    (changed : bool) :
  exits (monitor_tail_events env results w w1 changed) = []
  ∧ errors_logged (monitor_tail_events env results w w1 changed) = []
  ∧ writes (monitor_tail_events env results w w1 changed) =
    [(Monitor.STATE_FILE, JSON_stringify_state (currentState_of results))].
Proof.
  unfold monitor_tail_events, notify_events, save_warnings.
  by destruct (write_error _ (fs w1)), (changed || forceReport env), (forceReport env),
    (truthy_str (DISCORD_WEBHOOK_URL env)).
Qed.

Lemma part001_tail_quiet (env : Env) (results : list Outcome) (w1 : World)
    (changes : list Part001.Change) :
  exits (part001_tail_events env results w1 changes) = []
  ∧ errors_logged (part001_tail_events env results w1 changes) = []
  ∧ writes (part001_tail_events env results w1 changes) =
    [(Part001.STATE_FILE, JSON_stringify_state (currentState_of results))].
Proof.
  unfold part001_tail_events, notify_events, save_warnings.
  by destruct (write_error _ (fs w1)), changes, (forceReport env),
    (truthy_str (DISCORD_WEBHOOK_URL env)).
Qed.

Lemma part002_tail_quiet (env : Env) (results : list Outcome) (w w1 : World)
    (changed : list Part002.ChangedService) :
  exits (part002_tail_events env results w w1 changed) = []
  ∧ errors_logged (part002_tail_events env results w w1 changed) = []
  ∧ writes (part002_tail_events env results w w1 changed) =
    [(Part002.STATE_FILE env, JSON_stringify_state (currentState_of results))].
Proof.
  unfold part002_tail_events, notify_events, save_warnings.
  by destruct (write_error _ (after_mkdir (fs w1))),
    ((0 <? length changed)%nat || forceReport env), (forceReport env),
    (truthy_str (DISCORD_WEBHOOK_URL env)).
Qed.

Lemma failure_tail (env : Env) (path : list N) (results : list Outcome) (w1 : World)
    (e : JSError) (message : list N) :
  let d := gate_prefix path results w1 ++ failure_events env e message in
  exits d = [1%Z]
  ∧ errors_logged d = [js "Fatal: " ++ String_of_error e]
  ∧ writes d = []
  ∧ notifications d = [message]
  ∧ last d = Some (EvExit 1).
Proof.
  unfold gate_prefix, failure_events, notify_events.
  by destruct (truthy_str (DISCORD_WEBHOOK_URL env)).
Qed.

(** X10.  The top-level handler turns every failure of [main] into exit
    code 1: in each of the three scripts the run itself never rejects, and
    it calls [process.exit(1)], once, exactly when the state file holds
    [null] and at least one target is configured.  In every other world,
    whatever the network, the webhook and the file system do, the script ends
    without calling [process.exit] and without logging an error. *)
Theorem run_exit_code (env : Env) (w : World) :
  ((Monitor.run env w).1 = Ok tt
   ∧ exits (new_events w (Monitor.run env w).2) =
     (if doomed (fs w) (Monitor.TARGETS env) then [1%Z] else [])
   ∧ length (errors_logged (new_events w (Monitor.run env w).2)) =
     length (exits (new_events w (Monitor.run env w).2)))
  ∧ ((Part001.run env w).1 = Ok tt
     ∧ exits (new_events w (Part001.run env w).2) =
       (if doomed (fs w) (Part001.TARGETS env) then [1%Z] else [])
     ∧ length (errors_logged (new_events w (Part001.run env w).2)) =
       length (exits (new_events w (Part001.run env w).2)))
  ∧ ((Part002.run env w).1 = Ok tt
     ∧ exits (new_events w (Part002.run env w).2) =
       (if doomed (fs w) (Part002.TARGETS env) then [1%Z] else [])
     ∧ length (errors_logged (new_events w (Part002.run env w).2)) =
       length (exits (new_events w (Part002.run env w).2))).
Proof.
  split; [|split].
  - destruct (probe_all_counts (Monitor.TARGETS env) w)
      as (results & w1 & d & Hm & _ & Hu & _ & (Hfs & _) & Hd & Hp & _).
    destruct (monitor_run_world env w w1 results Hm) as (w' & Hr & Hw).
    rewrite Hr. cbn [fst snd]. rewrite Hfs in Hw.
    destruct (probe_events_quiet d Hp) as [He1 He2].
    destruct (doomed (fs w) (Monitor.TARGETS env)) eqn:Hdoom.
    + apply doomed_true in Hdoom as (Hn & t & ts & Ht). rewrite Ht in Hu.
      destruct (gates_doomed (fs w) t ts results Hu Hn) as (Hg & _).
      rewrite Hg in Hw. destruct Hw as [Hw _]. rewrite Hd, <- app_assoc in Hw.
      rewrite (new_events_app _ _ _ Hw), exits_app, errors_logged_app, He1, He2.
      by destruct (failure_tail env Monitor.STATE_FILE results w1 (null_read_error (t_url t))
                (failure_message (null_read_error (t_url t)) (toLocaleString w1 (clock w1))))
        as (-> & -> & _).
    + destruct (gates_safe (fs w) _ results Hu Hdoom) as ([b Hg] & _).
      rewrite Hg in Hw. destruct Hw as [Hw _]. rewrite Hd, <- app_assoc in Hw.
      rewrite (new_events_app _ _ _ Hw), exits_app, errors_logged_app, He1, He2.
      by destruct (monitor_tail_quiet env results w w1 b) as (-> & -> & _).
  - destruct (probe_all_counts (Part001.TARGETS env) w)
      as (results & w1 & d & Hm & _ & Hu & _ & (Hfs & _) & Hd & Hp & _).
    destruct (part001_run_world env w w1 results Hm) as (w' & Hr & Hw).
    rewrite Hr. cbn [fst snd]. rewrite Hfs in Hw.
    destruct (probe_events_quiet d Hp) as [He1 He2].
    destruct (doomed (fs w) (Part001.TARGETS env)) eqn:Hdoom.
    + apply doomed_true in Hdoom as (Hn & t & ts & Ht). rewrite Ht in Hu.
      destruct (gates_doomed (fs w) t ts results Hu Hn) as (_ & Hg & _).
      rewrite Hg in Hw. destruct Hw as [Hw _]. rewrite Hd, <- app_assoc in Hw.
      rewrite (new_events_app _ _ _ Hw), exits_app, errors_logged_app, He1, He2.
      by destruct (failure_tail env Part001.STATE_FILE results w1 (null_read_error (t_url t))
                (part001_failure_message (null_read_error (t_url t))))
        as (-> & -> & _).
    + destruct (gates_safe (fs w) _ results Hu Hdoom) as (_ & [b Hg] & _).
      rewrite Hg in Hw. destruct Hw as [Hw _]. rewrite Hd, <- app_assoc in Hw.
      rewrite (new_events_app _ _ _ Hw), exits_app, errors_logged_app, He1, He2.
      by destruct (part001_tail_quiet env results w1 b) as (-> & -> & _).
  - destruct (probe_all_counts (Part002.TARGETS env) w)
      as (results & w1 & d & Hm & _ & Hu & _ & (Hfs & _) & Hd & Hp & _).
    destruct (part002_run_world env w w1 results Hm) as (w' & Hr & Hw).
    rewrite Hr. cbn [fst snd]. rewrite Hfs in Hw.
    destruct (probe_events_quiet d Hp) as [He1 He2].
    destruct (doomed (fs w) (Part002.TARGETS env)) eqn:Hdoom.
    + apply doomed_true in Hdoom as (Hn & t & ts & Ht). rewrite Ht in Hu.
      destruct (gates_doomed (fs w) t ts results Hu Hn) as (_ & _ & Hg).
      rewrite Hg in Hw. destruct Hw as [Hw _]. rewrite Hd, <- app_assoc in Hw.
      rewrite (new_events_app _ _ _ Hw), exits_app, errors_logged_app, He1, He2.
      by destruct (failure_tail env (Part002.STATE_FILE env) results w1
                (null_read_error (t_url t))
                (failure_message (null_read_error (t_url t)) (toLocaleString w1 (clock w1))))
        as (-> & -> & _).
    + destruct (gates_safe (fs w) _ results Hu Hdoom) as (_ & _ & [b Hg]).
      rewrite Hg in Hw. destruct Hw as [Hw _]. rewrite Hd, <- app_assoc in Hw.
      rewrite (new_events_app _ _ _ Hw), exits_app, errors_logged_app, He1, He2.
      by destruct (part002_tail_quiet env results w w1 b) as (-> & -> & _).
Qed.

Lemma production_first (env : Env) (u : list N) :
  env_PROD_MONITOR_URL env = Some u → u ≠ [] →
  (∃ t ts, Monitor.TARGETS env = t :: ts ∧ t_url t = u)
  ∧ (∃ t ts, Part002.TARGETS env = t :: ts ∧ t_url t = u).
Proof.
  intros Hp Hu. unfold Monitor.TARGETS, Part002.TARGETS. rewrite Hp.
  assert (∀ nm st tmo, target_entry nm (Some u) st tmo
                       = [mkTarget (js nm) u (Some st) None tmo]) as He.
  { intros. unfold target_entry, truthy_str. by rewrite bool_decide_eq_false_2. }
  rewrite !He. split; eexists _, _; (split; [reflexivity|done]).
Qed.

Lemma null_read_error_text (u : list N) :
  error_text (null_read_error u) =
    js "Cannot read properties of null (reading '" ++ u ++ js "')".
Proof. done. Qed.

Lemma crashed_run (env : Env) (path : list N) (targets : list Target)
    (results : list Outcome) (w w1 w' : World) (d : list Event) (e : JSError)
    (message : list N) :
  trace w1 = trace w ++ d → Forall probe_event d →
  trace w' = trace w1 ++ gate_prefix path results w1 ++ failure_events env e message →
  fs w' = fs w →
  doomed (fs w) targets = true →
  crashed targets w w' message.
Proof.
  intros Hd Hp Ht Hf Hdoom. unfold crashed. rewrite Hd, <- app_assoc in Ht.
  rewrite (new_events_app _ _ _ Ht), Hf.
  rewrite writes_app, notifications_app, errors_logged_app, last_app.
  destruct (probe_events_silent d Hp) as (-> & -> & _).
  destruct (probe_events_quiet d Hp) as (_ & ->).
  by destruct (failure_tail env path results w1 e message) as (_ & -> & -> & -> & ->).
Qed.

(** X11.  A state file that holds the JSON text [null] stops the monitor for
    good.  With a Production URL configured, each of the three scripts reads
    the first target's URL off [null], lands in its failure handler, sends
    the failure message and nothing else, writes no state, and ends with
    [process.exit(1)]; the file system is left as it was, so the next run
    fails in the same way. *)
Theorem null_state_is_fatal (env : Env) (w : World) (u : list N) :
  is_null (stored_state (fs w)) = true →
  env_PROD_MONITOR_URL env = Some u →
  u ≠ [] →
  let e := null_read_error u in
  ∃ timestamp timestamp2,
    crashed (Monitor.TARGETS env) w (Monitor.run env w).2 (failure_message e timestamp)
    ∧ crashed (Part001.TARGETS env) w (Part001.run env w).2 (part001_failure_message e)
    ∧ crashed (Part002.TARGETS env) w (Part002.run env w).2 (failure_message e timestamp2)
    ∧ error_text e = js "Cannot read properties of null (reading '" ++ u ++ js "')".
Proof.
  intros Hn Hp Hu e.
  set (probed := λ targets, (mapM checkWithRetries targets w).2).
  exists (toLocaleString w (clock (probed (Monitor.TARGETS env)))),
    (toLocaleString w (clock (probed (Part002.TARGETS env)))).
  destruct (production_first env u Hp Hu) as ((t & ts & Ht & Htu) & (t2 & ts2 & Ht2 & Htu2)).
  split; [|split; [|split; [|apply null_read_error_text]]].
  - destruct (probe_all_counts (Monitor.TARGETS env) w)
      as (results & w1 & d & Hm & _ & Hus & _ & (Hfs & _ & _ & Hl) & Hd & Hpe & _).
    destruct (monitor_run_world env w w1 results Hm) as (w' & Hr & Hw).
    subst probed. cbn beta. rewrite Hr, Hm. cbn [snd]. rewrite Hfs in Hw.
    rewrite Ht in Hus.
    destruct (gates_doomed (fs w) t ts results Hus Hn) as (Hg & _).
    rewrite Hg, Htu, Hl in Hw. destruct Hw as [Hw Hf].
    eapply crashed_run; [exact Hd|exact Hpe|exact Hw|by rewrite Hf|].
    unfold doomed. by rewrite Hn, Ht.
  - destruct (probe_all_counts (Part001.TARGETS env) w)
      as (results & w1 & d & Hm & _ & Hus & _ & (Hfs & _) & Hd & Hpe & _).
    destruct (part001_run_world env w w1 results Hm) as (w' & Hr & Hw).
    rewrite Hr. cbn [snd]. rewrite Hfs in Hw.
    unfold Part001.TARGETS in Hus. rewrite Ht in Hus.
    destruct (gates_doomed (fs w) t ts results Hus Hn) as (_ & Hg & _).
    rewrite Hg, Htu in Hw. destruct Hw as [Hw Hf].
    eapply crashed_run; [exact Hd|exact Hpe|exact Hw|by rewrite Hf|].
    unfold doomed, Part001.TARGETS. by rewrite Hn, Ht.
  - destruct (probe_all_counts (Part002.TARGETS env) w)
      as (results & w1 & d & Hm & _ & Hus & _ & (Hfs & _ & _ & Hl) & Hd & Hpe & _).
    destruct (part002_run_world env w w1 results Hm) as (w' & Hr & Hw).
    subst probed. cbn beta. rewrite Hr, Hm. cbn [snd]. rewrite Hfs in Hw.
    rewrite Ht2 in Hus.
    destruct (gates_doomed (fs w) t2 ts2 results Hus Hn) as (_ & _ & Hg).
    rewrite Hg, Htu2, Hl in Hw. destruct Hw as [Hw Hf].
    eapply crashed_run; [exact Hd|exact Hpe|exact Hw|by rewrite Hf|].
    unfold doomed. by rewrite Hn, Ht2.
Qed.

Lemma null_state_is_fatal_witness :
  let env := sample_env false in
  let w := sample_world fs_null in
  let e := null_read_error url_a in
  file_content (fs w) = Some (js "null")
  ∧ ∃ timestamp timestamp2,
      crashed (Monitor.TARGETS env) w (Monitor.run env w).2 (failure_message e timestamp)
      ∧ crashed (Part002.TARGETS env) w (Part002.run env w).2
          (failure_message e timestamp2).
Proof.
  intros env w e.
  assert (is_null (stored_state (fs w)) = true) as Hn by (vm_compute; reflexivity).
  assert (env_PROD_MONITOR_URL env = Some url_a) as Hp by reflexivity.
  assert (url_a ≠ []) as Hu by discriminate.
  destruct (null_state_is_fatal env w url_a Hn Hp Hu) as (t1 & t2 & H1 & _ & H3 & _).
  split; [reflexivity|]. exists t1, t2. split; [exact H1|exact H3].
Defined.

Lemma persisted_run (path : list N) (f : FileSystem) (results : list Outcome)
    (w w1 w' : World) (d tl : list Event) :
  trace w1 = trace w ++ d → Forall probe_event d →
  trace w' = trace w1 ++ tl →
  writes tl = [(path, JSON_stringify_state (currentState_of results))] →
  fs w' = fs_after_write (JSON_stringify_state (currentState_of results)) f →
  persisted path f results w w'.
Proof.
  intros Hd Hp Ht Hw Hf. unfold persisted. rewrite Hd, <- app_assoc in Ht.
  rewrite (new_events_app _ _ _ Ht), writes_app, Hw, Hf.
  destruct (probe_events_silent d Hp) as (_ & -> & _).
  split; [done|]. split; [done|]. apply stored_state_after_write.
Qed.

Lemma not_null_not_doomed (f : FileSystem) (targets : list Target) :
  is_null (stored_state f) = false → doomed f targets = false.
Proof. intros H. unfold doomed. by rewrite H. Qed.

(** X12.  Unless the state file holds [null], every run of the three
    scripts writes the state exactly once, whatever the change gate found.
    The text written is the JSON of the object [main] builds from the
    outcomes, which holds, for every URL but [__proto__], the [up] of the
    last outcome that carries it, and nothing for [__proto__].
    [src/monitor.mjs] and [part_001] write into the directory as they find
    it; [part_002] first creates the parent directory where it can.  Where
    the write goes through and the file can be read, the state the next run
    loads is that object. *)
Theorem run_saves_outcomes (env : Env) (w : World) :
  is_null (stored_state (fs w)) = false →
  ∃ results results2 w1 w2,
    mapM checkWithRetries (Monitor.TARGETS env) w = (Ok results, w1)
    ∧ mapM checkWithRetries (Part002.TARGETS env) w = (Ok results2, w2)
    ∧ persisted Monitor.STATE_FILE (fs w) results w (Monitor.run env w).2
    ∧ persisted Part001.STATE_FILE (fs w) results w (Part001.run env w).2
    ∧ persisted (Part002.STATE_FILE env) (after_mkdir (fs w)) results2 w
        (Part002.run env w).2
    ∧ ∀ rs k, own_value k (currentState_of rs) =
              if decide (k = proto_key) then None
              else up <$> last (filter (λ r, url r = k) rs).
Proof.
  intros Hn.
  destruct (probe_all_counts (Monitor.TARGETS env) w)
    as (results & w1 & d & Hm & _ & Hu & _ & (Hfs & _) & Hd & Hp & _).
  destruct (probe_all_counts (Part002.TARGETS env) w)
    as (results2 & w2 & d2 & Hm2 & _ & Hu2 & _ & (Hfs2 & _) & Hd2 & Hp2 & _).
  exists results, results2, w1, w2. split; [done|]. split; [done|].
  split; [|split; [|split; [|apply currentState_of_own]]].
  - destruct (monitor_run_world env w w1 results Hm) as (w' & Hr & Hw).
    rewrite Hr. cbn [snd]. rewrite Hfs in Hw.
    destruct (gates_safe (fs w) _ results Hu (not_null_not_doomed _ _ Hn)) as ([b Hg] & _).
    rewrite Hg in Hw. destruct Hw as [Ht Hf].
    eapply persisted_run; [exact Hd|exact Hp|exact Ht| |exact Hf].
    by destruct (monitor_tail_quiet env results w w1 b) as (_ & _ & ->).
  - destruct (part001_run_world env w w1 results Hm) as (w' & Hr & Hw).
    rewrite Hr. cbn [snd]. rewrite Hfs in Hw.
    destruct (gates_safe (fs w) _ results Hu (not_null_not_doomed _ _ Hn)) as (_ & [b Hg] & _).
    rewrite Hg in Hw. destruct Hw as [Ht Hf].
    eapply persisted_run; [exact Hd|exact Hp|exact Ht| |exact Hf].
    by destruct (part001_tail_quiet env results w1 b) as (_ & _ & ->).
  - destruct (part002_run_world env w w2 results2 Hm2) as (w' & Hr & Hw).
    rewrite Hr. cbn [snd]. rewrite Hfs2 in Hw.
    destruct (gates_safe (fs w) _ results2 Hu2 (not_null_not_doomed _ _ Hn))
      as (_ & _ & [b Hg]).
    rewrite Hg in Hw. destruct Hw as [Ht Hf].
    eapply persisted_run; [exact Hd2|exact Hp2|exact Ht| |exact Hf].
    by destruct (part002_tail_quiet env results2 w w2 b) as (_ & _ & ->).
Qed.

Lemma run_saves_outcomes_witness :
  let env := sample_env false in
  let w := sample_world fs_no_parent in
  ∃ results results2,
    (mapM checkWithRetries (Monitor.TARGETS env) w).1 = Ok results
    ∧ (mapM checkWithRetries (Part002.TARGETS env) w).1 = Ok results2
    ∧ persisted Monitor.STATE_FILE (fs w) results w (Monitor.run env w).2
    ∧ persisted (Part002.STATE_FILE env) (after_mkdir (fs w)) results2 w
        (Part002.run env w).2
    ∧ file_content (fs (Monitor.run env w).2) = None
    ∧ file_content (fs (Part002.run env w).2) =
      Some (JSON_stringify_state [(url_a, true); (url_b, false)]).
Proof.
  intros env w.
  assert (is_null (stored_state (fs w)) = false) as Hn by reflexivity.
  destruct (run_saves_outcomes env w Hn)
    as (results & results2 & w1 & w2 & H1 & H2 & H3 & _ & H5 & _).
  exists results, results2. rewrite H1, H2.
  split_and!; [done|done|exact H3|exact H5|vm_compute; reflexivity..].
Defined.

(** ** Which runs notify *)

Lemma part002_tail_sent (env : Env) (results : list Outcome) (w w1 : World)
    (changed : list Part002.ChangedService) :
  let message :=
    Part002.formatStatusMessage results (toLocaleString w1 (clock w1))
      (clock w1 - clock w) (forceReport env) changed in
  notifications (part002_tail_events env results w w1 changed) =
    (if (0 <? length changed)%nat || forceReport env then [message] else [])
  ∧ posts (part002_tail_events env results w w1 changed) =
    (if ((0 <? length changed)%nat || forceReport env)
        && truthy_str (DISCORD_WEBHOOK_URL env)
     then [(DISCORD_WEBHOOK_URL env, JSON_stringify_content message)] else []).
Proof.
  unfold part002_tail_events, notify_events, save_warnings.
  by destruct (write_error _ (after_mkdir (fs w1))),
    ((0 <? length changed)%nat || forceReport env),
    (truthy_str (DISCORD_WEBHOOK_URL env)).
Qed.

(** X13.  [main] of [part_002] notifies exactly when [getChangedServices]
    reports a service or the report is forced.  It sends one message: the
    full report of all outcomes when forced, the list of changed services
    otherwise; the message is posted to the webhook only when a webhook URL
    is configured. *)
Theorem part002_notify_decision (env : Env) (w : World) :
  is_null (stored_state (fs w)) = false →
  ∃ results w1 changed timestamp executionTime,
    mapM checkWithRetries (Part002.TARGETS env) w = (Ok results, w1)
    ∧ Part002.getChangedServices results (stored_state (fs w)) = Ok changed
    ∧ let d := new_events w (Part002.run env w).2 in
      let message :=
        Part002.formatStatusMessage results timestamp executionTime
          (forceReport env) changed in
      notifications d =
        (if (0 <? length changed)%nat || forceReport env then [message] else [])
      ∧ posts d =
        (if ((0 <? length changed)%nat || forceReport env)
            && truthy_str (DISCORD_WEBHOOK_URL env)
         then [(DISCORD_WEBHOOK_URL env, JSON_stringify_content message)] else []).
Proof.
  intros Hn.
  destruct (probe_all_counts (Part002.TARGETS env) w)
    as (results & w1 & d & Hm & _ & Hu & _ & (Hfs & _ & _ & Hl) & Hd & Hp & _).
  destruct (gates_safe (fs w) _ results Hu (not_null_not_doomed _ _ Hn))
    as (_ & _ & [changed Hg]).
  exists results, w1, changed, (toLocaleString w1 (clock w1)), (clock w1 - clock w)%Z.
  split; [done|]. split; [done|].
  destruct (part002_run_world env w w1 results Hm) as (w' & Hr & Hw).
  rewrite Hr. cbn [snd]. rewrite Hfs, Hg in Hw. destruct Hw as [Ht _].
  rewrite Hd, <- app_assoc in Ht. rewrite (new_events_app _ _ _ Ht).
  rewrite notifications_app, posts_app.
  destruct (probe_events_silent d Hp) as (-> & _ & -> & _).
  by destruct (part002_tail_sent env results w w1 changed) as [-> ->].
Qed.

Lemma part002_notify_decision_witness :
  let env := sample_env false in
  let w := sample_world (fs_holding [(url_a, false); (url_b, false)]) in
  ∃ changed,
    Part002.service <$> changed = [outcome_a]
    ∧ length (notifications (new_events w (Part002.run env w).2)) = 1%nat.
Proof.
  intros env w.
  assert (is_null (stored_state (fs w)) = false) as Hn by (vm_compute; reflexivity).
  destruct (part002_notify_decision env w Hn)
    as (results & w1 & changed & ts & t & H1 & H2 & H3 & _).
  exists changed.
  assert (mapM checkWithRetries (Part002.TARGETS env) w
          = (Ok [outcome_a; outcome_b],
             (mapM checkWithRetries (Part002.TARGETS env) w).2)) as Hrun
    by (vm_compute; reflexivity).
  rewrite Hrun in H1. apply pair_equal_spec in H1 as [E1 _]. injection E1 as <-.
  assert (Part002.getChangedServices [outcome_a; outcome_b] (stored_state (fs w))
          = Ok [Part002.mkChanged outcome_a (JBool false) Part002.recovered]) as Hgate
    by (vm_compute; reflexivity).
  rewrite Hgate in H2. injection H2 as <-.
  split; [reflexivity|]. cbv zeta in H3. rewrite H3. reflexivity.
Defined.

Lemma obj_empty : obj ∅ = JObj [].
Proof. unfold obj. by rewrite map_to_list_empty. Qed.

Lemma hasChanges_no_state (rs : list Outcome) :
  Monitor.hasChanges rs (JObj []) = Ok (if rs is [] then false else true).
Proof.
  destruct (hasChanges_spec ∅ rs) as (b & Hb & Hs). rewrite obj_empty in Hb.
  rewrite Hb. f_equal. destruct rs as [|r rs].
  - destruct b; [|done]. destruct Hs as [Hs _]. specialize (Hs eq_refl).
    by apply Exists_nil in Hs.
  - apply Hs. apply Exists_cons. left. by left.
Qed.

Lemma detectChanges_no_state (rs : list Outcome) :
  ∃ changes, Part001.detectChanges rs (JObj []) = Ok changes
             ∧ (changes = []
                ↔ Forall (λ r, up r = true ∧ object_inherits (url r) = None) rs).
Proof.
  rewrite <- obj_empty, detectChanges_spec. eexists. split; [reflexivity|].
  rewrite omap_nil_Forall. apply Forall_iff. intros r.
  rewrite spec_transition_none, lookup_empty. intuition discriminate.
Qed.

Lemma getChangedServices_no_state (rs : list Outcome) :
  ∃ changed, Part002.getChangedServices rs (JObj []) = Ok changed
             ∧ (changed = [] ↔ Forall (λ r, object_inherits (url r) = None) rs).
Proof.
  rewrite <- obj_empty, getChangedServices_spec. eexists. split; [reflexivity|].
  rewrite omap_nil_Forall. apply Forall_iff. intros r.
  rewrite spec_changed_none, lookup_empty. intuition discriminate.
Qed.

(** X14.  On a first run, when no usable state is stored (no file, a file
    that cannot be read or is not JSON, or the empty object) and no report is
    forced, the three scripts differ.  [src/monitor.mjs] notifies as soon as
    one target is configured.  [part_001] notifies exactly when some target
    is down or has for URL the name of a property that every object inherits
    (one of [Object_prototype], such as [constructor]).  [part_002] notifies
    exactly when some target has such a name for URL: for other URLs it
    sends nothing, whatever the probes found. *)
Theorem first_run_notifications (env : Env) (w : World) :
  stored_state (fs w) = JObj [] →
  forceReport env = false →
  ∃ results results2 w1 w2,
    mapM checkWithRetries (Monitor.TARGETS env) w = (Ok results, w1)
    ∧ mapM checkWithRetries (Part002.TARGETS env) w = (Ok results2, w2)
    ∧ (notifications (new_events w (Monitor.run env w).2) = [] ↔ results = [])
    ∧ (notifications (new_events w (Part001.run env w).2) = []
       ↔ Forall (λ r, up r = true ∧ url r ∉ Object_prototype) results)
    ∧ (notifications (new_events w (Part002.run env w).2) = []
       ↔ Forall (λ r, url r ∉ Object_prototype) results2)
    ∧ (Forall (λ r, url r ∉ Object_prototype) results2 →
       posts (new_events w (Part002.run env w).2) = []).
Proof.
  intros Hs Hforce.
  destruct (probe_all_counts (Monitor.TARGETS env) w)
    as (results & w1 & d & Hm & _ & _ & _ & (Hfs & _) & Hd & Hp & _).
  destruct (probe_all_counts (Part002.TARGETS env) w)
    as (results2 & w2 & d2 & Hm2 & _ & _ & _ & (Hfs2 & _) & Hd2 & Hp2 & _).
  exists results, results2, w1, w2. split; [done|]. split; [done|].
  destruct (probe_events_silent d Hp) as (Hn & _ & Hpo & _).
  destruct (probe_events_silent d2 Hp2) as (Hn2 & _ & Hpo2 & _).
  assert (notifications (new_events w (Part002.run env w).2) = []
          ↔ Forall (λ r, url r ∉ Object_prototype) results2) as H2.
  { destruct (part002_run_world env w w2 results2 Hm2) as (w' & Hr & Hw).
    rewrite Hr. cbn [snd]. rewrite Hfs2, Hs in Hw.
    destruct (getChangedServices_no_state results2) as (changed & Hg & Hiff).
    rewrite Hg in Hw. destruct Hw as [Ht _]. rewrite Hd2, <- app_assoc in Ht.
    rewrite (new_events_app _ _ _ Ht), notifications_app, Hn2.
    destruct (part002_tail_sent env results2 w w2 changed) as [-> _].
    rewrite Hforce, orb_false_r.
    setoid_rewrite <- object_inherits_spec. rewrite <- Hiff. by destruct changed. }
  split; [|split; [|split; [exact H2|]]].
  - destruct (monitor_run_world env w w1 results Hm) as (w' & Hr & Hw).
    rewrite Hr. cbn [snd]. rewrite Hfs, Hs, hasChanges_no_state in Hw.
    destruct Hw as [Ht _]. rewrite Hd, <- app_assoc in Ht.
    rewrite (new_events_app _ _ _ Ht), notifications_app, Hn.
    rewrite notifications_monitor_tail, Hforce. by destruct results.
  - destruct (part001_run_world env w w1 results Hm) as (w' & Hr & Hw).
    rewrite Hr. cbn [snd]. rewrite Hfs, Hs in Hw.
    destruct (detectChanges_no_state results) as (changes & Hg & Hiff).
    rewrite Hg in Hw. destruct Hw as [Ht _]. rewrite Hd, <- app_assoc in Ht.
    rewrite (new_events_app _ _ _ Ht), notifications_app, Hn.
    rewrite notifications_part001_tail, Hforce.
    setoid_rewrite <- object_inherits_spec. rewrite <- Hiff. by destruct changes.
  - intros Hall. apply H2 in Hall.
    destruct (part002_run_world env w w2 results2 Hm2) as (w' & Hr & Hw).
    rewrite Hr in Hall |- *. cbn [snd] in *. rewrite Hfs2, Hs in Hw.
    destruct (getChangedServices_no_state results2) as (changed & Hg & _).
    rewrite Hg in Hw. destruct Hw as [Ht _]. rewrite Hd2, <- app_assoc in Ht.
    rewrite (new_events_app _ _ _ Ht) in Hall |- *.
    rewrite notifications_app, Hn2 in Hall. rewrite posts_app, Hpo2.
    destruct (part002_tail_sent env results2 w w2 changed) as [Hsent ->].
    rewrite Hsent in Hall. cbn [app] in *.
    by destruct ((0 <? length changed)%nat || forceReport env).
Qed.

Lemma first_run_notifications_witness :
  let env := sample_env false in
  let w := sample_world fs_fresh in
  (mapM checkWithRetries (Part002.TARGETS env) w).1 = Ok [outcome_a; outcome_b]
  ∧ up outcome_b = false
  ∧ notifications (new_events w (Part002.run env w).2) = [].
Proof.
  intros env w.
  assert (stored_state (fs w) = JObj []) as Hs by reflexivity.
  assert (forceReport env = false) as Hf by reflexivity.
  destruct (first_run_notifications env w Hs Hf)
    as (results & results2 & w1 & w2 & _ & H2 & _ & _ & H & _).
  assert (mapM checkWithRetries (Part002.TARGETS env) w
          = (Ok [outcome_a; outcome_b],
             (mapM checkWithRetries (Part002.TARGETS env) w).2)) as Hrun
    by (vm_compute; reflexivity).
  split; [by rewrite Hrun|]. split; [reflexivity|].
  rewrite Hrun in H2. apply pair_equal_spec in H2 as [E1 _]. injection E1 as <-.
  apply H. repeat constructor; intros Hin; vm_compute in Hin;
    repeat (apply elem_of_cons in Hin as [Hin|Hin]; [discriminate|]);
    by apply elem_of_nil in Hin.
Defined.

(** A first run of [part_002] on a target whose URL is [constructor]: the
    empty state answers the lookup with the function every object inherits,
    and the script reports a service that went down. *)
Example first_run_on_inherited_name :
  let env := mkEnv (Some (js "constructor")) None None None None None in
  let w := sample_world fs_fresh in
  stored_state (fs w) = JObj []
  ∧ length (notifications (new_events w (Part002.run env w).2)) = 1%nat.
Proof. vm_compute. split; reflexivity. Qed.

(** ** Two runs in a row *)

Lemma currentState_of_verdicts (rs rs' : list Outcome) :
  verdict <$> rs = verdict <$> rs' → currentState_of rs = currentState_of rs'.
Proof.
  unfold currentState_of. generalize ([] : State). revert rs'.
  induction rs as [|r rs IH]; intros [|r' rs'] st He; try done.
  rewrite !fmap_cons in He. injection He as Hu Hp He. cbn [foldl].
  rewrite Hu, Hp. by apply IH.
Qed.

Lemma consistent_verdicts (rs rs' : list Outcome) :
  verdict <$> rs = verdict <$> rs' → consistent rs → consistent rs'.
Proof.
  intros He Hc r r' Hr Hr' Hu.
  assert (∀ x, x ∈ rs' → ∃ y, y ∈ rs ∧ url y = url x ∧ up y = up x) as Hback.
  { intros x Hx. apply (list_elem_of_fmap_2 verdict) in Hx. rewrite <- He in Hx.
    apply list_elem_of_fmap in Hx as (y & Hv & Hy). exists y.
    injection Hv as Hv1 Hv2. done. }
  destruct (Hback r Hr) as (y & Hy & Huy & <-).
  destruct (Hback r' Hr') as (y' & Hy' & Huy' & <-).
  apply Hc; [done..|congruence].
Qed.

Lemma hasChanges_steady (rs : list Outcome) :
  consistent rs → proto_key ∉ url <$> rs →
  Monitor.hasChanges rs (state_json (currentState_of rs)) = Ok false.
Proof.
  intros Hc Hp. destruct (gates_on_own_state rs) as (b & ? & ? & Hg & _ & _ & Hb & _).
  rewrite Hg. f_equal. by apply Hb.
Qed.

Lemma verdicts_urls (rs rs' : list Outcome) :
  verdict <$> rs = verdict <$> rs' → url <$> rs = url <$> rs'.
Proof.
  intros He. apply (f_equal (fmap fst)) in He.
  by rewrite <- !list_fmap_compose in He.
Qed.

Lemma can_write_after_write (data : list N) (f : FileSystem) :
  can_write (fs_after_write data f) = can_write f.
Proof. done. Qed.

(** X15.  Two runs of [src/monitor.mjs] in a row: when the first run could
    write the state and the file can be read, no report is forced, no target
    has the URL [__proto__], and the second run finds every target in the
    state the first run found it in (the outcomes agreeing on every URL they
    share), the second run sends nothing and stores the same state again. *)
Theorem unchanged_second_run_is_quiet (env : Env) (w w1 w1' : World)
    (results results' : list Outcome) :
  is_null (stored_state (fs w)) = false →
  can_write (fs w) = true →
  file_readable (fs w) = true →
  forceReport env = false →
  mapM checkWithRetries (Monitor.TARGETS env) w = (Ok results, w1) →
  mapM checkWithRetries (Monitor.TARGETS env) (Monitor.run env w).2 = (Ok results', w1') →
  verdict <$> results' = verdict <$> results →
  consistent results →
  proto_key ∉ url <$> results →
  let w' := (Monitor.run env w).2 in
  stored_state (fs w') = state_json (currentState_of results)
  ∧ notifications (new_events w' (Monitor.run env w').2) = []
  ∧ posts (new_events w' (Monitor.run env w').2) = []
  ∧ stored_state (fs (Monitor.run env w').2) = stored_state (fs w').
Proof.
  intros Hn Hcw Hfr Hforce Hm Hm' Hv Hc Hproto w'. subst w'.
  destruct (probe_all_counts (Monitor.TARGETS env) w)
    as (rs0 & w0 & d & Hm0 & _ & Hu & _ & (Hfs & _) & _).
  rewrite Hm in Hm0. apply pair_equal_spec in Hm0 as [E1 E2].
  injection E1 as <-. subst w0.
  destruct (monitor_run_world env w w1 results Hm) as (w2 & Hr & Hw).
  rewrite Hr in *. cbn [snd] in *. rewrite Hfs in Hw.
  destruct (gates_safe (fs w) _ results Hu (not_null_not_doomed _ _ Hn)) as ([b Hg] & _).
  rewrite Hg in Hw. destruct Hw as [_ Hf2].
  assert (stored_state (fs w2) = state_json (currentState_of results)) as Hs2.
  { rewrite Hf2. by apply stored_state_after_write. }
  assert (can_write (fs w2) = true ∧ file_readable (fs w2) = true) as [Hcw2 Hfr2].
  { rewrite Hf2. by rewrite can_write_after_write. }
  split; [done|].
  destruct (probe_all_counts (Monitor.TARGETS env) w2)
    as (rs0 & w0 & d' & Hm0 & _ & _ & _ & (Hfs' & _) & Hd' & Hp' & _).
  rewrite Hm' in Hm0. apply pair_equal_spec in Hm0 as [E1 E2].
  injection E1 as <-. subst w0.
  destruct (monitor_run_world env w2 w1' results' Hm') as (w3 & Hr' & Hw').
  rewrite Hr'. cbn [snd]. rewrite Hfs', Hs2 in Hw'.
  rewrite <- (currentState_of_verdicts _ _ Hv) in Hw'.
  rewrite hasChanges_steady in Hw'.
  2:{ eapply consistent_verdicts; [symmetry; exact Hv|exact Hc]. }
  2:{ by rewrite (verdicts_urls _ _ Hv). }
  destruct Hw' as [Ht Hf3]. rewrite Hd', <- app_assoc in Ht.
  rewrite (new_events_app _ _ _ Ht), notifications_app, posts_app.
  destruct (probe_events_silent d' Hp') as (-> & _ & -> & _).
  rewrite notifications_monitor_tail, Hforce. cbn [orb app].
  split; [done|]. split.
  - unfold monitor_tail_events, save_warnings. rewrite Hforce. cbn [orb].
    by destruct (write_error _ (fs w1')).
  - rewrite Hf3, Hs2, <- (currentState_of_verdicts _ _ Hv).
    by apply stored_state_after_write.
Qed.

Lemma unchanged_second_run_is_quiet_witness :
  let env := steady_env in
  let w := steady_world in
  let w' := (Monitor.run env w).2 in
  length (notifications (new_events w w')) = 1%nat
  ∧ notifications (new_events w' (Monitor.run env w').2) = [].
Proof.
  intros env w w'.
  assert (is_null (stored_state (fs w)) = false) as Hn by reflexivity.
  assert (can_write (fs w) = true) as Hcw by reflexivity.
  assert (file_readable (fs w) = true) as Hfr by reflexivity.
  assert (forceReport env = false) as Hforce by reflexivity.
  set (o1 := mkOutcome (js "Production") url_a true 200 (Some 120%Z) false None).
  set (o2 := mkOutcome (js "Production") url_a true 200 (Some 90%Z) false None).
  assert (mapM checkWithRetries (Monitor.TARGETS env) w
          = (Ok [o1], (mapM checkWithRetries (Monitor.TARGETS env) w).2)) as Hm
    by (vm_compute; reflexivity).
  assert (mapM checkWithRetries (Monitor.TARGETS env) (Monitor.run env w).2
          = (Ok [o2],
             (mapM checkWithRetries (Monitor.TARGETS env) (Monitor.run env w).2).2)) as Hm'
    by (vm_compute; reflexivity).
  assert (verdict <$> [o2] = verdict <$> [o1]) as Hv by reflexivity.
  assert (consistent [o1]) as Hc.
  { intros r r' Hr Hr' _. apply list_elem_of_singleton in Hr, Hr'. by subst. }
  assert (proto_key ∉ url <$> [o1]) as Hproto.
  { intros Hin. apply list_elem_of_singleton in Hin. discriminate. }
  destruct (unchanged_second_run_is_quiet env w _ _ [o1] [o2]
              Hn Hcw Hfr Hforce Hm Hm' Hv Hc Hproto) as (_ & H & _).
  split; [vm_compute; reflexivity|exact H].
Defined.

(** ** What the change lists hold *)

Lemma detect_loop_inv (rs : list Outcome) (prev : json) (acc changes : list Part001.Change) :
  Part001.detect_loop rs prev acc = Ok changes →
  ∃ new, changes = acc ++ new
         ∧ sublist (Part001.result <$> new) rs
         ∧ Forall (λ c, announces_up c = up (Part001.result c)) new
         ∧ Forall (λ c, is_initial_down c = true
                        ↔ get_prop prev (url (Part001.result c)) = Ok None) new.
Proof.
  revert acc changes. induction rs as [|r rs IH]; intros acc changes H.
  - injection H as <-. exists []. by rewrite app_nil_r.
  - rewrite detect_loop_cons in H.
    destruct (get_prop prev (url r)) as [[v|]|e] eqn:Hg; [| |done].
    + destruct (strict_neq_bool v (up r)) eqn:Hne.
      * apply IH in H as (new & -> & Hs & Hf & Hi). eexists (_ :: new).
        rewrite <- app_assoc. split; [reflexivity|].
        split; [by apply sublist_skip|]. split; apply Forall_cons.
        -- split; [|done]. cbn. by destruct (up r).
        -- split; [|done]. cbn. rewrite Hg. by destruct (up r).
      * apply IH in H as (new & -> & Hs & Hf & Hi). exists new.
        split; [done|]. split; [by apply sublist_cons|done].
    + destruct (up r) eqn:Hup.
      * apply IH in H as (new & -> & Hs & Hf & Hi). exists new.
        split; [done|]. split; [by apply sublist_cons|done].
      * apply IH in H as (new & -> & Hs & Hf & Hi). eexists (_ :: new).
        rewrite <- app_assoc. split; [reflexivity|].
        split; [by apply sublist_skip|]. split; apply Forall_cons.
        -- split; [|done]. cbn. by rewrite Hup.
        -- split; [|done]. cbn. by rewrite Hg.
Qed.

Lemma changed_loop_inv (rs : list Outcome) (prev : json)
    (acc changed : list Part002.ChangedService) :
  Part002.changed_loop rs prev acc = Ok changed →
  ∃ new, changed = acc ++ new
         ∧ sublist (Part002.service <$> new) rs
         ∧ Forall (λ s, Part002.is_recovered s = up (Part002.service s)
                        ∧ Part002.is_down s = negb (up (Part002.service s))) new
         ∧ Forall (λ s, get_prop prev (url (Part002.service s))
                        = Ok (Some (Part002.previousState s))
                        ∧ Part002.previousState s ≠ JBool (up (Part002.service s))) new.
Proof.
  revert acc changed. induction rs as [|r rs IH]; intros acc changed H.
  - injection H as <-. exists []. by rewrite app_nil_r.
  - rewrite changed_loop_cons in H.
    destruct (get_prop prev (url r)) as [[v|]|e] eqn:Hg; [| |done].
    + destruct (strict_neq_bool v (up r)) eqn:Hne.
      * apply IH in H as (new & -> & Hs & Hf & Hi). eexists (_ :: new).
        rewrite <- app_assoc. split; [reflexivity|].
        split; [by apply sublist_skip|]. split; apply Forall_cons.
        -- split; [|done]. cbn. by destruct (up r).
        -- split; [|done]. cbn. split; [done|]. intros ->. cbn in Hne.
           by rewrite eqb_reflx in Hne.
      * apply IH in H as (new & -> & Hs & Hf & Hi). exists new.
        split; [done|]. split; [by apply sublist_cons|done].
    + apply IH in H as (new & -> & Hs & Hf & Hi). exists new.
      split; [done|]. split; [by apply sublist_cons|done].
Qed.

(** X16.  Whatever JSON value the prior state is, the lists the change
    detectors return hold outcomes of this run only, in the order probed
    (a sublist of the outcomes).  A [part_001] transition is headed
    "recovered" exactly when its outcome is up, and is an initial-down one
    exactly when the prior state answers nothing for its URL, of its own or
    inherited.  A service
    reported by [part_002] is filed under "recovered" when it is up and under
    "down" otherwise, never under both, and carries the prior value read,
    which is not the boolean of its present state. *)
Theorem change_lists_hold_outcomes (prev : json) (rs : list Outcome)
    (changes : list Part001.Change) (changed : list Part002.ChangedService) :
  Part001.detectChanges rs prev = Ok changes →
  Part002.getChangedServices rs prev = Ok changed →
  sublist (Part001.result <$> changes) rs
  ∧ Forall (λ c, announces_up c = up (Part001.result c)) changes
  ∧ Forall (λ c, is_initial_down c = true
                 ↔ get_prop prev (url (Part001.result c)) = Ok None) changes
  ∧ sublist (Part002.service <$> changed) rs
  ∧ Forall (λ s, Part002.is_recovered s = up (Part002.service s)
                 ∧ Part002.is_down s = negb (up (Part002.service s))) changed
  ∧ Forall (λ s, get_prop prev (url (Part002.service s))
                 = Ok (Some (Part002.previousState s))
                 ∧ Part002.previousState s ≠ JBool (up (Part002.service s))) changed.
Proof.
  intros H1 H2.
  apply detect_loop_inv in H1 as (new1 & -> & Hs1 & Hf1 & Hi1).
  apply changed_loop_inv in H2 as (new2 & -> & Hs2 & Hf2 & Hi2).
  done.
Qed.

Lemma change_lists_hold_outcomes_witness :
  let prev := JObj [(url_a, JStr (js "up")); (url_b, JBool true)] in
  let rs := [outcome_a; outcome_b] in
  ∃ changes changed,
    Part001.detectChanges rs prev = Ok changes
    ∧ Part002.getChangedServices rs prev = Ok changed
    ∧ Part001.result <$> changes = rs
    ∧ Part002.previousState <$> changed = [Data (JStr (js "up")); Data (JBool true)]
    ∧ Forall (λ c, announces_up c = up (Part001.result c)) changes.
Proof.
  intros prev rs.
  assert (Part001.detectChanges rs prev
          = Ok [Part001.mkChange Part001.recovered outcome_a;
                Part001.mkChange Part001.went_down outcome_b]) as H1
    by (vm_compute; reflexivity).
  assert (Part002.getChangedServices rs prev
          = Ok [Part002.mkChanged outcome_a (JStr (js "up")) Part002.recovered;
                Part002.mkChanged outcome_b (JBool true) Part002.down]) as H2
    by (vm_compute; reflexivity).
  destruct (change_lists_hold_outcomes prev rs _ _ H1 H2) as (_ & H & _).
  eexists _, _. split; [exact H1|]. split; [exact H2|].
  split; [reflexivity|]. split; [reflexivity|exact H].
Defined.

(** ** What the messages show *)

Lemma includes_app_l (s t p : list N) :
  includes s p = true → includes (s ++ t) p = true.
Proof.
  rewrite !includes_spec. intros (pre & post & ->). exists pre, (post ++ t).
  by rewrite <- !app_assoc.
Qed.

Lemma includes_app_r (s t p : list N) :
  includes t p = true → includes (s ++ t) p = true.
Proof.
  rewrite !includes_spec. intros (pre & post & ->). exists (s ++ pre), post.
  by rewrite <- !app_assoc.
Qed.

Lemma includes_here (p post : list N) : includes (p ++ post) p = true.
Proof. apply includes_spec. by exists [], post. Qed.

Lemma includes_nil (s : list N) : includes s [] = true.
Proof. apply includes_spec. by exists [], s. Qed.

Lemma includes_foldl_init {A} (line : A → list N) (l : list A) (init p : list N) :
  includes init p = true →
  includes (foldl (λ msg s, msg ++ line s) init l) p = true.
Proof.
  revert init. induction l as [|y l IH]; intros init H; [done|].
  cbn [foldl]. by apply IH, includes_app_l.
Qed.

Lemma includes_foldl {A} (line : A → list N) (l : list A) (init p : list N) (x : A) :
  x ∈ l → includes (line x) p = true →
  includes (foldl (λ msg s, msg ++ line s) init l) p = true.
Proof.
  revert init. induction l as [|y l IH]; intros init Hx H.
  - by apply elem_of_nil in Hx.
  - cbn [foldl]. apply elem_of_cons in Hx as [<-|Hx].
    + by apply includes_foldl_init, includes_app_r.
    + by apply IH.
Qed.

Lemma includes_join_with (sep : list N) (l : list (list N)) (x p : list N) :
  x ∈ l → includes x p = true → includes (join_with sep l) p = true.
Proof.
  induction l as [|y l IH]; intros Hx H.
  - by apply elem_of_nil in Hx.
  - apply elem_of_cons in Hx as [<-|Hx].
    + destruct l; [done|]. by apply includes_app_l.
    + destruct l as [|z l]; [by apply elem_of_nil in Hx|].
      change (join_with sep (y :: z :: l)) with (y ++ sep ++ join_with sep (z :: l)).
      by apply includes_app_r, includes_app_r, IH.
Qed.

Ltac find_part :=
  repeat first [ apply includes_here
               | apply includes_app_r; apply includes_here
               | apply includes_app_r ].

Lemma shows_line (line : list N) (r : Outcome) (a b c : list N) :
  line = a ++ name r ++ b ++ url r ++ c → shows line r = true.
Proof.
  intros ->. unfold shows. apply andb_true_intro. split.
  - apply includes_app_r, includes_here.
  - apply includes_app_r, includes_app_r, includes_app_r, includes_here.
Qed.

Lemma shows_fmt (r : Outcome) : shows (fmt r) r = true.
Proof.
  unfold shows, fmt. apply andb_true_intro.
  destruct (negb (up r)); split.
  all: try (apply includes_app_r, includes_app_r, includes_app_r, includes_app_r,
              includes_here).
  all: unfold truthy_str; case_bool_decide as Hn; cbn [negb];
    [rewrite Hn; apply includes_nil|apply includes_app_r, includes_app_r, includes_here].
Qed.

Lemma elem_of_filter_length {A} (P : A → bool) (l : list A) (x : A) :
  x ∈ l → P x = true → x ∈ List.filter P l ∧ (0 <? length (List.filter P l))%nat = true.
Proof.
  intros Hx HP.
  assert (x ∈ List.filter P l) as Hin.
  { apply list_elem_of_In, filter_In. split; [by apply list_elem_of_In|done]. }
  split; [done|]. destruct (List.filter P l); [by apply elem_of_nil in Hin|done].
Qed.

Lemma sections_include {A} (P Q : A → bool) (up_l down_l : A → list N)
    (l : list A) (x : A) (head h1 h2 sep foot p : list N) :
  x ∈ l → (P x = true ∨ Q x = true) →
  includes (up_l x) p = true → includes (down_l x) p = true →
  let ups := List.filter P l in
  let downs := List.filter Q l in
  let message := head in
  let message :=
    if (0 <? length ups)%nat
    then foldl (λ msg s, msg ++ up_l s) (message ++ h1) ups
    else message in
  let message :=
    if (0 <? length downs)%nat
    then
      let message := if (0 <? length ups)%nat then message ++ sep else message in
      foldl (λ msg s, msg ++ down_l s) (message ++ h2) downs
    else message in
  includes (message ++ foot) p = true.
Proof.
  intros Hx HPQ Hu Hd. cbv zeta. apply includes_app_l.
  destruct HPQ as [HP|HQ].
  - destruct (elem_of_filter_length P l x Hx HP) as [Hin ->].
    assert (includes (foldl (λ msg s, msg ++ up_l s) (head ++ h1) (List.filter P l)) p
            = true) as Hm by (by apply (includes_foldl up_l _ _ p x)).
    destruct (0 <? length (List.filter Q l))%nat; [|done].
    by apply includes_foldl_init, includes_app_l, includes_app_l.
  - destruct (elem_of_filter_length Q l x Hx HQ) as [Hin ->].
    by apply (includes_foldl down_l _ _ p x).
Qed.

Lemma up_or_down (r : Outcome) : up r = true ∨ negb (up r) = true.
Proof. destruct (up r); auto. Qed.

(** X17.  Every full report names every outcome of the run: the status
    message of [src/monitor.mjs], the forced report of [part_002], the
    forced report of [part_001] and the summary written to the log each
    contain the name and the URL of each outcome probed, whether it is up or
    down. *)
Theorem reports_show_every_outcome (results : list Outcome) (timestamp : list N)
    (executionTime : Z) (changed : list Part002.ChangedService) (r : Outcome) :
  r ∈ results →
  shows (Monitor.formatStatusMessage results timestamp executionTime) r = true
  ∧ shows (Part002.formatStatusMessage results timestamp executionTime true changed) r
    = true
  ∧ shows (Part001.current_status_report results) r = true
  ∧ shows (join_with [10] (fmt <$> results)) r = true.
Proof.
  intros Hr.
  assert (∀ p, includes (fmt r) p = true →
               includes (join_with [10] (fmt <$> results)) p = true) as Hlog.
  { intros p Hp. eapply includes_join_with; [|exact Hp]. by apply list_elem_of_fmap_2. }
  pose proof (shows_fmt r) as Hf. unfold shows in Hf.
  apply andb_prop in Hf as [Hf1 Hf2].
  unfold shows. split_and!; apply andb_true_intro; split.
  - unfold Monitor.formatStatusMessage.
    apply (sections_include (λ r, up r) (λ r, negb (up r)) _ _ results r); [done|apply up_or_down|..];
      unfold Monitor.up_line, Monitor.down_line; find_part.
  - unfold Monitor.formatStatusMessage.
    apply (sections_include (λ r, up r) (λ r, negb (up r)) _ _ results r); [done|apply up_or_down|..];
      unfold Monitor.up_line, Monitor.down_line; find_part.
  - unfold Part002.formatStatusMessage.
    apply (sections_include (λ r, up r) (λ r, negb (up r)) _ _ results r); [done|apply up_or_down|..];
      unfold Part002.up_line, Part002.down_line; find_part.
  - unfold Part002.formatStatusMessage.
    apply (sections_include (λ r, up r) (λ r, negb (up r)) _ _ results r); [done|apply up_or_down|..];
      unfold Part002.up_line, Part002.down_line; find_part.
  - unfold Part001.current_status_report.
    eapply includes_join_with; [|exact Hf1].
    apply elem_of_app. right. by apply list_elem_of_fmap_2.
  - unfold Part001.current_status_report.
    eapply includes_join_with; [|exact Hf2].
    apply elem_of_app. right. by apply list_elem_of_fmap_2.
  - by apply Hlog.
  - by apply Hlog.
Qed.

Lemma reports_show_every_outcome_witness :
  shows (Monitor.formatStatusMessage [outcome_a; outcome_b] (js "L420") 420) outcome_b
  = true
  ∧ shows (Part001.current_status_report [outcome_a; outcome_b]) outcome_a = true.
Proof.
  assert (outcome_b ∈ [outcome_a; outcome_b]) as Hb
    by (apply elem_of_cons; right; apply elem_of_cons; by left).
  assert (outcome_a ∈ [outcome_a; outcome_b]) as Ha by (apply elem_of_cons; by left).
  destruct (reports_show_every_outcome [outcome_a; outcome_b] (js "L420") 420 []
              outcome_b Hb) as (H1 & _).
  destruct (reports_show_every_outcome [outcome_a; outcome_b] (js "L420") 420 []
              outcome_a Ha) as (_ & _ & H3 & _).
  split; [exact H1|exact H3].
Defined.

(** X18.  Every change report names every change it was built from: the
    message [part_001] sends contains the name and the URL of the outcome of
    each transition, and the changes-only message of [part_002] contains
    those of each changed service, under "recovered" or under "down". *)
Theorem change_reports_show_every_change (changes : list Part001.Change)
    (results : list Outcome) (timestamp : list N) (executionTime : Z)
    (changed : list Part002.ChangedService) :
  (∀ c, c ∈ changes → shows (changes_message changes) (Part001.result c) = true)
  ∧ (∀ s, s ∈ changed →
       shows (Part002.formatStatusMessage results timestamp executionTime false changed)
         (Part002.service s) = true).
Proof.
  split.
  - intros c Hc. pose proof (shows_fmt (Part001.result c)) as Hf. unfold shows in *.
    apply andb_prop in Hf as [Hf1 Hf2].
    assert (∀ p, includes (fmt (Part001.result c)) p = true →
                 includes (changes_message changes) p = true) as Hall.
    { intros p Hp. unfold changes_message.
      apply (includes_join_with _ _ (Part001.change_message c)).
      - by apply list_elem_of_fmap_2.
      - unfold Part001.change_message.
        destruct (Part001.type c); by apply includes_app_r, includes_app_r, includes_app_r. }
    apply andb_true_intro. split; by apply Hall.
  - intros s Hs. unfold shows, Part002.formatStatusMessage.
    assert (Part002.is_recovered s = true ∨ Part002.is_down s = true) as Hk.
    { unfold Part002.is_recovered, Part002.is_down. destruct (Part002.changeType s); auto. }
    apply andb_true_intro; split;
      (apply (sections_include Part002.is_recovered Part002.is_down _ _ changed s);
       [done|done|..]; unfold Part002.recovered_line, Part002.went_down_line; find_part).
Qed.

Lemma change_reports_show_every_change_witness :
  let c := Part001.mkChange Part001.went_down outcome_b in
  let s := Part002.mkChanged outcome_a (JBool false) Part002.recovered in
  shows (changes_message [Part001.mkChange Part001.recovered outcome_a; c]) outcome_b
  = true
  ∧ shows (Part002.formatStatusMessage [outcome_a; outcome_b] (js "L420") 420 false [s])
      outcome_a = true.
Proof.
  intros c s.
  destruct (change_reports_show_every_change
              [Part001.mkChange Part001.recovered outcome_a; c]
              [outcome_a; outcome_b] (js "L420") 420 [s]) as [H1 H2].
  split.
  - apply (H1 c). apply elem_of_cons; right; apply elem_of_cons; by left.
  - apply (H2 s). apply elem_of_cons; by left.
Defined.
